(** * mygekko-mqtt: the bridge between the MyGEKKO polling API and MQTT

    A shallow embedding of the bridge's core (the format parser, the
    registry loader, the status decoder with its history cache, the
    polling loop, the subscriptions and the command handler), of the
    device's client and of the configuration, with the properties of the
    specification and further properties of the code. Go strings are byte
    strings, modelled as [string];
    Go maps that the code only looks up and updates are [gmap]s; JSON
    objects that the code ranges over are member lists in range order. *)

From Stdlib Require Import ZArith Ascii String List Bool Lia.
From Stdlib Require Import Floats.SpecFloat.
From stdpp Require Import gmap strings list fin_maps sorting pretty.

Set Warnings "-register-all,-clear-no-such-hyp".

Local Open Scope Z_scope.
Local Open Scope nat_scope.
Local Open Scope list_scope.

(** ** Go's [strings] package, for one-byte separators *)

Module strings.

(** [strings.Cut(s, sep)]: the text before and after the first [sep];
    [None] is Go's [found == false]. *)
Fixpoint Cut (s : string) (sep : ascii) : option (string * string) :=
  match s with
  | EmptyString => None
  | String c s' =>
      if Ascii.eqb c sep then Some (EmptyString, s')
      else match Cut s' sep with
           | Some (before, after) => Some (String c before, after)
           | None => None
           end
  end.

(** [strings.Index(s, sep)]: [None] is Go's [-1]. *)
Fixpoint Index (s : string) (sep : ascii) : option nat :=
  match s with
  | EmptyString => None
  | String c s' =>
      if Ascii.eqb c sep then Some 0
      else match Index s' sep with
           | Some i => Some (S i)
           | None => None
           end
  end.

(** [strings.Split(s, sep)]: never empty, [Split "" sep = [""]]. *)
Fixpoint Split (s : string) (sep : ascii) : list string :=
  match s with
  | EmptyString => [EmptyString]
  | String c s' =>
      if Ascii.eqb c sep then EmptyString :: Split s' sep
      else match Split s' sep with
           | x :: xs => String c x :: xs
           | [] => [String c EmptyString]
           end
  end.

(** [strings.SplitN(s, sep, 2)]. *)
Definition SplitN2 (s : string) (sep : ascii) : list string :=
  match Cut s sep with
  | Some (before, after) => [before; after]
  | None => [s]
  end.

(** [strings.HasPrefix]. *)
Definition HasPrefix (s p : string) : bool := String.prefix p s.

(** The bytes of [asciiSpace]: tab, newline, vertical tab, form feed,
    carriage return and space. *)
Definition asciiSpace (c : ascii) : bool :=
  let n := nat_of_ascii c in
  ((9 <=? n) && (n <=? 13)) || (n =? 32).

(** The UTF-8 encodings of the other runes of [unicode.IsSpace]:
    U+0085 and U+00A0 on two bytes; U+1680, U+2000..U+200A, U+2028,
    U+2029, U+202F, U+205F and U+3000 on three. *)
Definition space2 (a b : ascii) : bool :=
  (nat_of_ascii a =? 194) &&
  ((nat_of_ascii b =? 133) || (nat_of_ascii b =? 160)).

Definition space3 (a b c : ascii) : bool :=
  let x := nat_of_ascii a in
  let y := nat_of_ascii b in
  let z := nat_of_ascii c in
  ((x =? 225) && (y =? 154) && (z =? 128)) ||
  ((x =? 226) && (y =? 128) &&
     (((128 <=? z) && (z <=? 138)) || (z =? 168) || (z =? 169) || (z =? 175))) ||
  ((x =? 226) && (y =? 129) && (z =? 159)) ||
  ((x =? 227) && (y =? 128) && (z =? 128)).

(** [strings.TrimLeftFunc(s, unicode.IsSpace)]: a rune is decoded at the
    front and dropped while it is a space; an invalid byte decodes to
    [utf8.RuneError], which is not one. *)
Fixpoint TrimLeft (s : string) : string :=
  match s with
  | EmptyString => EmptyString
  | String a s1 =>
      if asciiSpace a then TrimLeft s1
      else match s1 with
           | String b s2 =>
               if space2 a b then TrimLeft s2
               else match s2 with
                    | String c s3 => if space3 a b c then TrimLeft s3 else s
                    | EmptyString => s
                    end
           | EmptyString => s
           end
  end.

(** The same from the back, on the reversed string: the last rune's
    bytes come last byte first. *)
Fixpoint TrimLeftRev (s : string) : string :=
  match s with
  | EmptyString => EmptyString
  | String c s1 =>
      if asciiSpace c then TrimLeftRev s1
      else match s1 with
           | String b s2 =>
               if space2 b c then TrimLeftRev s2
               else match s2 with
                    | String a s3 => if space3 a b c then TrimLeftRev s3 else s
                    | EmptyString => s
                    end
           | EmptyString => s
           end
  end.

Definition TrimRight (s : string) : string :=
  String.rev (TrimLeftRev (String.rev s)).

(** [strings.TrimSpace]: its ASCII fast path and its Unicode slow path
    both return [TrimFunc(s, unicode.IsSpace)]. *)
Definition TrimSpace (s : string) : string := TrimRight (TrimLeft s).

End strings.

(** ** The field schema *)

(** [FieldDef]: [Type_] (the field [Type], a reserved word here) is ["int"], ["float"], ["string"], or [""] to skip. *)
Record FieldDef := { Name : string; Type_ : string }.

Global Instance FieldDef_eq_dec : EqDecision FieldDef.
Proof. solve_decision. Defined.

(** A Go [(T, error)] result; the error carries its message. *)
Inductive result (A : Type) : Type :=
  | Ok (a : A)
  | Err (msg : string).
Arguments Ok {A} a.
Arguments Err {A} msg.

(** The [switch typeName] of [parseFormatField]; [None] is its default. *)
Definition fieldTypeOf (typeName : string) : option string :=
  if String.eqb typeName "int" || String.eqb typeName "enum" then Some "int"
  else if String.eqb typeName "float" then Some "float"
  else if String.eqb typeName "string" then Some "string"
  else if String.eqb typeName "null" then Some ""
  else None.

(** [if _, after, found := strings.Cut(typeName, ":"); found { typeName =
    after }]. *)
Definition afterColon (typeName : string) : string :=
  match strings.Cut typeName ":" with
  | Some (_, after) => after
  | None => typeName
  end.

(** [parseFormatField]: one segment of a format string. *)
Definition parseFormatField (raw : string) : result FieldDef :=
  let data := strings.TrimSpace raw in
  if String.eqb data "" then Ok {| Name := ""; Type_ := "" |}
  else
    match strings.SplitN2 data " " with
    | [name; typeData] =>
        match strings.Index typeData "[" with
        | None => Err ("no type bracket found in '" +:+ typeData +:+ "'")
        | Some bracketIdx =>
            let typeName := String.substring 0 bracketIdx typeData in
            let typeName := afterColon typeName in
            match fieldTypeOf typeName with
            | Some fieldType => Ok {| Name := name; Type_ := fieldType |}
            | None => Err ("type " +:+ typeName +:+ " is not supported")
            end
        end
    | _ => Err ("invalid format definition: '" +:+ data +:+ "'")
    end.

(** ** Go's [strconv] package *)

Module strconv.

Definition digit (c : ascii) : option Z :=
  let n := nat_of_ascii c in
  if (48 <=? n) && (n <=? 57) then Some (Z.of_nat (n - 48)) else None.

(** A run of decimal digits, most significant first. *)
Fixpoint digits (s : string) (acc : Z) : option Z :=
  match s with
  | EmptyString => Some acc
  | String c s' =>
      match digit c with
      | Some d => digits s' (acc * 10 + d)%Z
      | None => None
      end
  end.

(** An optional sign in front. *)
Definition sign (s : string) : bool * string :=
  match s with
  | String "-" r => (true, r)
  | String "+" r => (false, r)
  | _ => (false, s)
  end.

(** [strconv.Atoi] where [int] has 64 bits: an optional sign and at least
    one decimal digit, in the range of [int]; [None] is [err != nil]. *)
Definition Atoi (s : string) : option Z :=
  let '(neg, body) := sign s in
  match body with
  | EmptyString => None
  | _ =>
      match digits body 0 with
      | Some n =>
          let v := (if neg then - n else n)%Z in
          if ((- 2 ^ 63 <=? v) && (v <=? 2 ^ 63 - 1))%Z then Some v else None
      | None => None
      end
  end.

Definition lower (c : ascii) : ascii :=
  let n := nat_of_ascii c in
  if (65 <=? n) && (n <=? 90) then ascii_of_nat (n + 32) else c.

Fixpoint lowerString (s : string) : string :=
  match s with
  | EmptyString => EmptyString
  | String c s' => String (lower c) (lowerString s')
  end.

(** The special values of [strconv.ParseFloat]: [NaN] without a sign,
    [Inf] and [Infinity] with an optional one, in any case. *)
Definition special (s : string) : option spec_float :=
  if String.eqb (lowerString s) "nan" then Some S754_nan
  else
    let '(neg, body) := sign s in
    let l := lowerString body in
    if String.eqb l "inf" || String.eqb l "infinity" then Some (S754_infinity neg)
    else None.

(** The nearest binary64 to [(-1)^neg * m / 10^k], ties to even. *)
Definition nearest (neg : bool) (m : Z) (k : nat) : spec_float :=
  match m with
  | Zpos p =>
      SFdiv 53 1024 (S754_finite neg p 0)
            (S754_finite false (Z.to_pos (10 ^ Z.of_nat k)) 0)
  | _ => S754_zero neg
  end.

(** [strconv.ParseFloat(s, 64)] on the special values and on the plain
    decimals (an optional sign, digits, an optional point and more
    digits, one digit at least), where Go returns the nearest binary64,
    and an error when that is out of range. The other syntaxes that Go
    accepts (decimal exponents, hexadecimal mantissas, digit separators)
    are outside this instance, which serves the examples only: the
    decoder below is parametrised by the conversion. *)
Definition ParseFloat_plain (s : string) : option spec_float :=
  match special s with
  | Some f => Some f
  | None =>
      let '(neg, body) := sign s in
      let '(int, frac) :=
        match strings.Cut body "." with
        | Some (i, f) => (i, f)
        | None => (body, EmptyString)
        end in
      match int +:+ frac with
      | EmptyString => None
      | _ =>
          match digits int 0 with
          | Some i =>
              match digits frac i with
              | Some m =>
                  match nearest neg m (String.length frac) with
                  | S754_infinity _ => None
                  | f => Some f
                  end
              | None => None
              end
          | None => None
          end
      end
  end.

End strconv.

(** ** Go's [slices] package, on strings *)

Module slices.

(** [slices.Sort]: ascending in the order of [<] on strings, which is
    the order of the bytes; the result does not depend on the algorithm,
    equal strings being the same string. *)
Definition Sort (s : list string) : list string := merge_sort String.le s.

(** [slices.Compact]: each run of equal elements is replaced by one. *)
Fixpoint Compact (s : list string) : list string :=
  match s with
  | [] => []
  | x :: rest =>
      match rest with
      | y :: _ => if String.eqb x y then Compact rest else x :: Compact rest
      | [] => [x]
      end
  end.

End slices.

(** ** Values of type [any] *)

Abbreviation float64 := spec_float.

(** The dynamic types that reach the bridge: the JSON documents of the
    device ([nil], [bool], [float64], [string], [[]any], [map[string]any])
    and the values it decodes ([int], [float64], [string]) or stamps
    ([int64]). An object lists its members in the order in which [range]
    visits them. *)
Inductive any : Type :=
  | VNil
  | VBool (b : bool)
  | VInt (n : Z)
  | VInt64 (n : Z)
  | VFloat64 (f : float64)
  | VString (s : string)
  | VArray (xs : list any)
  | VObject (members : list (string * any)).

(** [m[key]] on an object's members. *)
Fixpoint member (key : string) (members : list (string * any)) : option any :=
  match members with
  | [] => None
  | (k, v) :: rest => if String.eqb k key then Some v else member key rest
  end.

(** The type assertions [x.(map[string]any)] and [x.(string)]. *)
Definition asObject (x : any) : option (list (string * any)) :=
  match x with VObject members => Some members | _ => None end.

Definition asString (x : any) : option string :=
  match x with VString s => Some s | _ => None end.

(** [oldVal == value] on interface values: equal dynamic types and equal
    values, floats by IEEE equality. Two arrays or two objects cannot be
    compared in Go; the decoder's right operand is never one. *)
Definition iface_eq (oldVal value : any) : bool :=
  match oldVal, value with
  | VNil, VNil => true
  | VBool a, VBool b => Bool.eqb a b
  | VInt a, VInt b => Z.eqb a b
  | VInt64 a, VInt64 b => Z.eqb a b
  | VFloat64 a, VFloat64 b => SFeqb a b
  | VString a, VString b => String.eqb a b
  | _, _ => false
  end.

(** ** The capabilities and the bridge *)

(** A call on the [MQTTPublisher] interface. *)
Inductive MqttCall : Type :=
  | Publish (topic : string) (value : any)
  | PublishJSON (topic : string) (data : gmap string any)
  | Subscribe (topic : string).

(** A call on the [GekkoClient] interface. *)
Inductive GekkoCall : Type :=
  | GetStatus (categories : list string)
  | SetValue (category item value : string).

(** The fields of [MyGekkoConfig] that the bridge reads. *)
Record MyGekkoConfig := {
  Interval : float64;
  IntervalItems : list string;
  MainItems : list string;
  IntervalRounds : Z
}.

(** [Bridge]; each capability is the list of the calls made on it, oldest
    first. *)
Record Bridge := {
  cfg : MyGekkoConfig;
  gekko : list GekkoCall;
  mqtt : list MqttCall;
  fieldDef : gmap string (list FieldDef);
  gekkoName : string;
  history : gmap string any
}.

Definition set_history (h : gmap string any) (b : Bridge) : Bridge :=
  {| cfg := cfg b; gekko := gekko b; mqtt := mqtt b; fieldDef := fieldDef b;
     gekkoName := gekkoName b; history := h |}.

Definition set_mqtt (m : list MqttCall) (b : Bridge) : Bridge :=
  {| cfg := cfg b; gekko := gekko b; mqtt := m; fieldDef := fieldDef b;
     gekkoName := gekkoName b; history := history b |}.

Definition set_gekko (g : list GekkoCall) (b : Bridge) : Bridge :=
  {| cfg := cfg b; gekko := g; mqtt := mqtt b; fieldDef := fieldDef b;
     gekkoName := gekkoName b; history := history b |}.

(** [NewBridge], given the name that [GetGekkoName] returned. *)
Definition NewBridge (c : MyGekkoConfig) (fieldDefinitions : gmap string (list FieldDef))
    (name : string) : Bridge :=
  {| cfg := c; gekko := []; mqtt := []; fieldDef := fieldDefinitions;
     gekkoName := name; history := ∅ |}.

(** A method of the bridge either returns or ends the process with
    [os.Exit(code)]; both leave the bridge as it then is. *)
Inductive outcome (A : Type) : Type :=
  | Return (a : A) (b : Bridge)
  | Exit (code : Z) (b : Bridge).
Arguments Return {A} a b.
Arguments Exit {A} code b.

Definition Run (A : Type) : Type := Bridge → outcome A.

Global Instance Run_ret : MRet Run := λ A a b, Return a b.

Global Instance Run_bind : MBind Run := λ A B f m b,
  match m b with
  | Return a b' => f a b'
  | Exit code b' => Exit code b'
  end.

Definition exit {A : Type} (code : Z) : Run A := λ b, Exit code b.

Definition get {A : Type} (f : Bridge → A) : Run A := λ b, Return (f b) b.

Definition put_history (key : string) (value : any) : Run unit :=
  λ b, Return tt (set_history (<[key := value]> (history b)) b).

(** The published calls of each kind, as the test double records them. *)
Definition published (b : Bridge) : list (string * any) :=
  omap (λ c, match c with Publish t v => Some (t, v) | _ => None end) (mqtt b).

Definition jsonPublished (b : Bridge) : list (string * gmap string any) :=
  omap (λ c, match c with PublishJSON t d => Some (t, d) | _ => None end) (mqtt b).

(** The categories whose status was fetched, oldest first. *)
Definition fetched (b : Bridge) : list string :=
  mjoin (omap (λ c, match c with GetStatus cs => Some cs | _ => None end) (gekko b)).

(** Locals of [processItem]'s loop. *)
Record locals := { itemData : gmap string any; hasChanges : bool }.

(** How [RunGetter] ends: like a method that returns or ends the process
    with [os.Exit], or by a panic, which nothing in the program recovers;
    the panic leaves the bridge as it then is. *)
Inductive ending (A : Type) : Type :=
  | Panic (b : Bridge)
  | Ended (o : outcome A).
Arguments Panic {A} b.
Arguments Ended {A} o.

(** [float64(time.Second)]: a second in nanoseconds, [1e9]. *)
Definition second : float64 := S754_finite false 8388608000000000 (-23).

(** The conversion of a [float64] to [int64], as in [time.Duration(x)]:
    the fraction is discarded. For a NaN, an infinity and a number outside
    the range of [int64] the language leaves the result to the
    implementation: it is [overflow x]. *)
Definition int64 (overflow : float64 → Z) (x : float64) : Z :=
  match x with
  | S754_zero _ => 0%Z
  | S754_finite s m e =>
      let magnitude := Z.shiftl (Zpos m) e in
      let v := (if s then - magnitude else magnitude)%Z in
      if ((- 2 ^ 63 <=? v) && (v <=? 2 ^ 63 - 1))%Z then v else overflow x
  | _ => overflow x
  end.

Section Bridge.

(** [strconv.ParseFloat(s, 64)]; [None] is [err != nil]. *)
Variable ParseFloat : string → option float64.

(** Whether the MQTT client answers this call with an error, after the
    calls already made. *)
Variable mqtt_err : list MqttCall → MqttCall → bool.

(** [time.Now().Unix()], read after these MQTT calls. *)
Variable unix_now : list MqttCall → Z.

(** What the device answers to [GetStatus] and whether [SetValue] fails,
    after the calls already made. *)
Variable gekko_status : list GekkoCall → list string → result (list (string * any)).
Variable gekko_set_err : list GekkoCall → GekkoCall → bool.

(** What the implementation's conversion to [int64] gives for a
    [float64] that [int64] cannot hold. *)
Variable int64_overflow : float64 → Z.

Definition mqttCall (call : MqttCall) : Run bool :=
  λ b, Return (mqtt_err (mqtt b) call) (set_mqtt (mqtt b ++ [call]) b).

Definition timeNow : Run Z := get (λ b, unix_now (mqtt b)).

Definition gekkoGetStatus (categories : list string) : Run (result (list (string * any))) :=
  λ b, Return (gekko_status (gekko b) categories)
              (set_gekko (gekko b ++ [GetStatus categories]) b).

Definition gekkoSetValue (category item value : string) : Run bool :=
  λ b, Return (gekko_set_err (gekko b) (SetValue category item value))
              (set_gekko (gekko b ++ [SetValue category item value]) b).

(** The [switch field.Type] of [processItem]. *)
Inductive converted : Type :=
  | Unsupported
  | Failed
  | Converted (value : any).

Definition convert (type rawValue : string) : converted :=
  if String.eqb type "int" then
    match strconv.Atoi rawValue with
    | Some n => Converted (VInt n)
    | None => Failed
    end
  else if String.eqb type "float" then
    match ParseFloat rawValue with
    | Some f => Converted (VFloat64 f)
    | None => Failed
    end
  else if String.eqb type "string" then Converted (VString rawValue)
  else Unsupported.

(** The loop body converts the token of this field to [value]: the
    descriptor has a name and a type, the token is not empty, and the
    conversion succeeds. *)
Definition decodes (field : FieldDef) (rawValue : string) (value : any) : Prop :=
  Name field ≠ "" ∧ Type_ field ≠ "" ∧ rawValue ≠ "" ∧
  convert (Type_ field) rawValue = Converted value.

Definition histKeyOf (category item name : string) : string :=
  category +:+ "/" +:+ item +:+ "/" +:+ name.

Definition fieldTopic (name category item field : string) : string :=
  name +:+ "/" +:+ category +:+ "/" +:+ item +:+ "/get/" +:+ field.

Definition jsonTopicOf (name category item : string) : string :=
  name +:+ "/" +:+ category +:+ "/" +:+ item +:+ "/get/json".

Definition timeTopic (name category : string) : string :=
  name +:+ "/" +:+ category +:+ "/get/time".

(** Whether the history holds a value equal to [value] under [key]. *)
Definition unchanged (h : gmap string any) (key : string) (value : any) : bool :=
  match h !! key with
  | Some oldVal => iface_eq oldVal value
  | None => false
  end.

(** The body of [processItem]'s loop, past the bound check, for the
    field and the token of one position. *)
Definition fieldBody (category item : string) (field : FieldDef) (rawValue : string)
    (l : locals) : Run locals :=
  if String.eqb (Name field) "" || String.eqb (Type_ field) "" then mret l
  else if String.eqb rawValue "" then mret l
  else
    match convert (Type_ field) rawValue with
    | Unsupported => mret l
    | Failed => exit 5
    | Converted value =>
        let data := <[Name field := value]> (itemData l) in
        let histKey := histKeyOf category item (Name field) in
        h ← get history;
        if unchanged h histKey value
        then mret {| itemData := data; hasChanges := hasChanges l |}
        else
          put_history histKey value;;
          name ← get gekkoName;
          err ← mqttCall (Publish (fieldTopic name category item (Name field)) value);
          if err : bool then exit 6
          else mret {| itemData := data; hasChanges := true |}
    end.

(** [for i, field := range fields], with its [break] when the tokens run
    out. *)
Fixpoint fieldLoop (category item : string) (values : list string) (i : nat)
    (fields : list FieldDef) (l : locals) : Run locals :=
  match fields with
  | [] => mret l
  | field :: rest =>
      match values !! i with
      | None => mret l
      | Some rawValue =>
          l' ← fieldBody category item field rawValue l;
          fieldLoop category item values (S i) rest l'
      end
  end.

(** The publication of the item's document after the loop. *)
Definition publishItem (category item : string) (l : locals) : Run unit :=
  if hasChanges l && (0 <? size (itemData l)) then
    now ← timeNow;
    name ← get gekkoName;
    err ← mqttCall (PublishJSON (jsonTopicOf name category item)
                                (<["timestamp" := VInt64 now]> (itemData l)));
    if err : bool then exit 6 else mret tt
  else mret tt.

Definition processItem (category item : string) (sumstate : any) : Run unit :=
  match asObject sumstate with
  | None => mret tt
  | Some sumstateMap =>
      match member "value" sumstateMap ≫= asString with
      | None => mret tt
      | Some valueStr =>
          defs ← get fieldDef;
          match defs !! category with
          | None => mret tt
          | Some fields =>
              let values := strings.Split valueStr ";" in
              l ← fieldLoop category item values 0 fields
                    {| itemData := ∅; hasChanges := false |};
              publishItem category item l
          end
      end
  end.

(** The items of one category's status: [for item, itemData := range
    catMap]. *)
Fixpoint itemsLoop (category : string) (catMap : list (string * any)) : Run unit :=
  match catMap with
  | [] => mret tt
  | (item, data) :: rest =>
      (if strings.HasPrefix item "group" then mret tt
       else
         match asObject data with
         | None => mret tt
         | Some itemMap =>
             match member "sumstate" itemMap with
             | None => mret tt
             | Some sumstate => processItem category item sumstate
             end
         end);;
      itemsLoop category rest
  end.

(** One category of [pollCategories]. *)
Definition pollCategory (category : string) : Run unit :=
  status ← gekkoGetStatus [category];
  match status with
  | Err _ => exit 11
  | Ok status =>
      match member category status with
      | None => mret tt
      | Some catData =>
          match asObject catData with
          | None => mret tt
          | Some catMap =>
              itemsLoop category catMap;;
              now ← timeNow;
              name ← get gekkoName;
              err ← mqttCall (Publish (timeTopic name category) (VInt64 now));
              if err : bool then exit 6 else mret tt
          end
      end
  end.

Fixpoint pollCategories (categories : list string) : Run unit :=
  match categories with
  | [] => mret tt
  | category :: rest => pollCategory category;; pollCategories rest
  end.

(** [if len(items) > 0 { b.pollCategories(items) }]. *)
Definition pollTier (items : list string) : Run unit :=
  if 0 <? length items then pollCategories items else mret tt.

(** The closure [poll] of [RunGetter], on its captured [round]. *)
Definition poll (round : Z) : Run Z :=
  let round := (round + 1)%Z in
  c ← get cfg;
  pollTier (IntervalItems c);;
  if (IntervalRounds c <=? round)%Z then
    pollTier (MainItems c);;
    mret 0%Z
  else mret round.

(** The [for { select ... }] of [RunGetter]: [ticks] receptions from the
    ticker, then the cancellation. *)
Fixpoint tickLoop (ticks : nat) (round : Z) : Run Z :=
  match ticks with
  | 0 => mret round
  | S n => round' ← poll round; tickLoop n round'
  end.

(** The online marker of [RunGetter]. *)
Definition getterOnline : Run unit :=
  name ← get gekkoName;
  err ← mqttCall (Publish (name +:+ "/getter_online") (VString "true"));
  if err : bool then exit 6 else mret tt.

(** [time.Duration(b.cfg.MyGekko.Interval * float64(time.Second))], the
    argument of [time.NewTicker]. *)
Definition tickerDuration (c : MyGekkoConfig) : Z :=
  int64 int64_overflow (SFmul 53 1024 (Interval c) second).

(** [RunGetter], returning the final value of [round]: the online marker,
    the ticker, the immediate poll and the loop. [time.NewTicker] panics
    when the duration is not positive. *)
Definition RunGetter (ticks : nat) : Bridge → ending Z :=
  λ b,
    match getterOnline b with
    | Exit code b => Ended (Exit code b)
    | Return _ b =>
        if (tickerDuration (cfg b) <=? 0)%Z then Panic b
        else Ended ((round ← poll 0%Z; tickLoop ticks round) b)
    end.

Definition handleSetCommand (topic : string) (payload : list Byte.byte) : Run unit :=
  let parts := strings.Split topic "/" in
  if length parts <? 4 then exit 8
  else
    let category := nth (length parts - 3) parts "" in
    let item := nth (length parts - 2) parts "" in
    let value := string_of_list_byte payload in
    err ← gekkoSetValue category item value;
    if err : bool then exit 9 else mret tt.

(** The subscriptions of [RunSetter]: [for _, category := range
    allCategories]. The handler of each is [handleSetCommand]. *)
Fixpoint subscribeLoop (allCategories : list string) : Run unit :=
  match allCategories with
  | [] => mret tt
  | category :: rest =>
      name ← get gekkoName;
      err ← mqttCall (Subscribe (name +:+ "/" +:+ category +:+ "/+/set"));
      if err : bool then exit 7 else subscribeLoop rest
  end.

(** [RunSetter], up to the cancellation it then waits for. *)
Definition RunSetter : Run unit :=
  name ← get gekkoName;
  err ← mqttCall (Publish (name +:+ "/setter_online") (VString "true"));
  if err : bool then exit 6
  else
    c ← get cfg;
    let allCategories := IntervalItems c ++ MainItems c in
    let allCategories := slices.Sort allCategories in
    let allCategories := slices.Compact allCategories in
    subscribeLoop allCategories.

(** The topic filter that [RunSetter] subscribes to for a category. *)
Definition setFilter (name category : string) : string :=
  name +:+ "/" +:+ category +:+ "/+/set".

(** The value that the loop body converts a token to, when it converts
    it. *)
Definition decode (field : FieldDef) (rawValue : string) : option any :=
  if String.eqb (Name field) "" || String.eqb (Type_ field) "" then None
  else if String.eqb rawValue "" then None
  else
    match convert (Type_ field) rawValue with
    | Converted value => Some value
    | _ => None
    end.

(** A position from [i] on at which the loop body finds a token that its
    descriptor's conversion refuses. *)
Definition refused (fields : list FieldDef) (values : list string) (i : nat) : Prop :=
  ∃ j field rawValue,
    fields !! j = Some field ∧ values !! (i + j) = Some rawValue ∧
    Name field ≠ "" ∧ Type_ field ≠ "" ∧ rawValue ≠ "" ∧
    convert (Type_ field) rawValue = Failed.

(** The publish that the loop body makes for a descriptor and its token
    when the history is [h]. *)
Definition changedField (name category item : string) (h : gmap string any)
    (p : FieldDef * string) : option (string * any) :=
  value ← decode p.1 p.2;
  if unchanged h (histKeyOf category item (Name p.1)) value then None
  else Some (fieldTopic name category item (Name p.1), value).

(** The item and the sumstate that [pollCategories] hands to
    [processItem] for a member of a category's status, if it does. *)
Definition polledItem (m : string * any) : option (string * any) :=
  if strings.HasPrefix m.1 "group" then None
  else
    itemMap ← asObject m.2;
    sumstate ← member "sumstate" itemMap;
    Some (m.1, sumstate).

End Bridge.

(** ** Loading the registry *)

(** The inner loop of [LoadFieldDefinitions] over the parts of a format
    string. *)
Fixpoint parseParts (formatParts : list string) (fields : list FieldDef) : list FieldDef :=
  match formatParts with
  | [] => fields
  | part :: rest =>
      match parseFormatField part with
      | Err _ => parseParts rest fields
      | Ok field =>
          if negb (String.eqb (Name field) "")
          then parseParts rest (fields ++ [field])
          else parseParts rest fields
      end
  end.

(** The format string of an item of the definitions, if it has one. *)
Definition formatOf (itemData : any) : option string :=
  itemMap ← asObject itemData;
  sumstate ← member "sumstate" itemMap ≫= asObject;
  member "format" sumstate ≫= asString.

(** [for itemName, itemData := range catMap], up to its [break]. *)
Fixpoint firstItem (category : string) (catMap : list (string * any))
    (result : gmap string (list FieldDef)) : gmap string (list FieldDef) :=
  match catMap with
  | [] => result
  | (itemName, itemData) :: rest =>
      if negb (strings.HasPrefix itemName "item") then firstItem category rest result
      else
        match formatOf itemData with
        | None => firstItem category rest result
        | Some formatStr =>
            let fields := parseParts (strings.Split formatStr ";") [] in
            if 0 <? length fields then <[category := fields]> result else result
        end
  end.

(** [for category, catData := range definitions]. *)
Fixpoint categoryLoop (definitions : list (string * any))
    (result : gmap string (list FieldDef)) : gmap string (list FieldDef) :=
  match definitions with
  | [] => result
  | (category, catData) :: rest =>
      match asObject catData with
      | None => categoryLoop rest result
      | Some catMap => categoryLoop rest (firstItem category catMap result)
      end
  end.

(** [LoadFieldDefinitions], on what [GetDefinitions] returned. *)
Definition LoadFieldDefinitions (definitions : result (list (string * any)))
    : result (gmap string (list FieldDef)) :=
  match definitions with
  | Err msg => Err ("failed to get definitions: " +:+ msg)
  | Ok definitions => Ok (categoryLoop definitions ∅)
  end.

(** ** The client of the device *)

Module client.

(** An HTTP response: its status code, and its body as [io.ReadAll]
    returns it. *)
Record Response := { StatusCode : Z; Body : result string }.

(** What [Get] and [GetStatus] return. *)
Definition Status : Type := result (list (string * any)).

(** [result[key] = value] on a map that is built member by member. *)
Fixpoint setMember (key : string) (value : any) (members : list (string * any))
    : list (string * any) :=
  match members with
  | [] => [(key, value)]
  | (k, v) :: rest =>
      if String.eqb k key then (k, value) :: rest else (k, v) :: setMember key value rest
  end.

(** A method of the client returns its result and the URLs requested so
    far, oldest first. *)
Definition Http (A : Type) : Type := list string → A * list string.

Global Instance Http_ret : MRet Http := λ A a log, (a, log).

Global Instance Http_bind : MBind Http := λ A B f m log,
  let '(a, log') := m log in f a log'.

Section MyGekkoClient.

(** [c.buildURL(endpoint, extraParams)], for the host and the credentials
    of the client. *)
Variable buildURL : string → list (string * string) → string.

(** What [c.httpClient.Get(url)] returns after the requests already made. *)
Variable httpGet : list string → string → result Response.

(** [json.Unmarshal] of a body into a [map[string]any]. *)
Variable Unmarshal : string → Status.

Definition request (url : string) : Http (result Response) :=
  λ log, (httpGet log url, log ++ [url]).

Definition Get (endpoint : string) : Http Status :=
  resp ← request (buildURL endpoint []);
  mret (match resp with
        | Err err => Err ("HTTP request failed: " +:+ err)
        | Ok resp =>
            if negb (StatusCode resp =? 200)%Z
            then Err ("HTTP status " +:+ pretty (StatusCode resp))
            else
              match Body resp with
              | Err err => Err ("failed to read response: " +:+ err)
              | Ok body =>
                  match Unmarshal body with
                  | Err err => Err ("failed to parse JSON: " +:+ err)
                  | Ok result => Ok result
                  end
              end
        end).

(** [for _, cat := range categories] of [GetStatus]. *)
Fixpoint statusLoop (categories : list string) (result : list (string * any)) : Http Status :=
  match categories with
  | [] => mret (Ok result)
  | cat :: rest =>
      catResult ← Get ("var/" +:+ cat +:+ "/status");
      match catResult with
      | Err err => mret (Err ("failed to get " +:+ cat +:+ ": " +:+ err))
      | Ok catResult => statusLoop rest (setMember cat (VObject catResult) result)
      end
  end.

Definition GetStatus (categories : list string) : Http Status :=
  if length categories =? 0 then Get "var/status" else statusLoop categories [].

(** [SetValue]; [None] is the [nil] error. *)
Definition SetValue (category item value : string) : Http (option string) :=
  resp ← request (buildURL ("var/" +:+ category +:+ "/" +:+ item +:+ "/scmd/set")
                           [("value", value)]);
  mret (match resp with
        | Err err => Some ("HTTP request failed: " +:+ err)
        | Ok resp =>
            match Body resp with
            | Err err => Some ("failed to read response: " +:+ err)
            | Ok body =>
                let bodyStr := strings.TrimSpace body in
                if negb (StatusCode resp =? 200)%Z
                then Some ("HTTP status " +:+ pretty (StatusCode resp) +:+ ": " +:+ bodyStr)
                else if negb (String.eqb bodyStr "OK")
                then Some ("unexpected response: " +:+ bodyStr)
                else None
            end
        end).

Definition GetGekkoName : Http (result string) :=
  result ← Get "var/globals/network/gekkoname/status";
  mret (match result with
        | Err err => Err err
        | Ok result =>
            match member "value" result ≫= asString with
            | Some value => Ok value
            | None => Err "gekkoname not found in response"
            end
        end).

Definition GetDefinitions : Http Status := Get "var".

End MyGekkoClient.

End client.

(** ** The configuration *)

Module config.

Module MyGekko.
Record MyGekkoConfig := {
  Host : string;
  Username : string;
  Password : string;
  Interval : float64;
  IntervalItems : list string;
  MainItems : list string;
  IntervalRounds : Z
}.
End MyGekko.

Module MQTT.
Record MQTTConfig := {
  Root : string;
  Host : string;
  Socket : string;
  Username : string;
  Password : string;
  ClientID : string
}.
End MQTT.

Record Config := {
  LogLevel : string;
  MyGekko : MyGekko.MyGekkoConfig;
  MQTT : MQTT.MQTTConfig
}.

(** The constants [0] and [5.0] of type [float64]. *)
Definition zero : float64 := S754_zero false.
Definition five : float64 := S754_finite false 5629499534213120 (-50).

Definition set_Interval (x : float64) (c : Config) : Config :=
  {| LogLevel := LogLevel c;
     MyGekko := {| MyGekko.Host := MyGekko.Host (MyGekko c);
                   MyGekko.Username := MyGekko.Username (MyGekko c);
                   MyGekko.Password := MyGekko.Password (MyGekko c);
                   MyGekko.Interval := x;
                   MyGekko.IntervalItems := MyGekko.IntervalItems (MyGekko c);
                   MyGekko.MainItems := MyGekko.MainItems (MyGekko c);
                   MyGekko.IntervalRounds := MyGekko.IntervalRounds (MyGekko c) |};
     MQTT := MQTT c |}.

Definition set_IntervalRounds (n : Z) (c : Config) : Config :=
  {| LogLevel := LogLevel c;
     MyGekko := {| MyGekko.Host := MyGekko.Host (MyGekko c);
                   MyGekko.Username := MyGekko.Username (MyGekko c);
                   MyGekko.Password := MyGekko.Password (MyGekko c);
                   MyGekko.Interval := MyGekko.Interval (MyGekko c);
                   MyGekko.IntervalItems := MyGekko.IntervalItems (MyGekko c);
                   MyGekko.MainItems := MyGekko.MainItems (MyGekko c);
                   MyGekko.IntervalRounds := n |};
     MQTT := MQTT c |}.

(** [Validate]; [None] is the [nil] error. *)
Definition Validate (c : Config) : option string :=
  if String.eqb (MyGekko.Host (MyGekko c)) "" then Some "mygekko.host is required"
  else if String.eqb (MyGekko.Username (MyGekko c)) "" then Some "mygekko.username is required"
  else if String.eqb (MyGekko.Password (MyGekko c)) "" then Some "mygekko.password is required"
  else if SFleb (MyGekko.Interval (MyGekko c)) zero then Some "mygekko.interval must be positive"
  else if (MyGekko.IntervalRounds (MyGekko c) <=? 0)%Z
  then Some "mygekko.interval_rounds must be positive"
  else if (length (MyGekko.IntervalItems (MyGekko c)) =? 0) &&
          (length (MyGekko.MainItems (MyGekko c)) =? 0)
  then Some "at least one of mygekko.interval_items or mygekko.main_items is required"
  else if String.eqb (MQTT.Host (MQTT c)) "" && String.eqb (MQTT.Socket (MQTT c)) ""
  then Some "either mqtt.host or mqtt.socket is required"
  else if String.eqb (MQTT.Root (MQTT c)) "" then Some "mqtt.root is required"
  else None.

Section LoadConfig.

(** [os.ReadFile], and [toml.Unmarshal] into a [Config] of zero values. *)
Variable ReadFile : string → result string.
Variable Unmarshal : string → result Config.

Definition LoadConfig (path : string) : result Config :=
  match ReadFile path with
  | Err err => Err ("cannot read config file: " +:+ err)
  | Ok data =>
      match Unmarshal data with
      | Err err => Err ("cannot parse config file: " +:+ err)
      | Ok cfg =>
          let cfg :=
            if SFeqb (MyGekko.Interval (MyGekko cfg)) zero then set_Interval five cfg else cfg in
          let cfg :=
            if (MyGekko.IntervalRounds (MyGekko cfg) =? 0)%Z then set_IntervalRounds 4 cfg
            else cfg in
          match Validate cfg with
          | Some err => Err err
          | None => Ok cfg
          end
      end
  end.

End LoadConfig.

End config.

(** The fields of the configuration that the bridge reads. *)
Definition bridgeConfig (c : config.Config) : MyGekkoConfig :=
  {| Interval := config.MyGekko.Interval (config.MyGekko c);
     IntervalItems := config.MyGekko.IntervalItems (config.MyGekko c);
     MainItems := config.MyGekko.MainItems (config.MyGekko c);
     IntervalRounds := config.MyGekko.IntervalRounds (config.MyGekko c) |}.

(** ** Observation and test doubles *)

(** The bridge as a method left it. *)
Definition final {A : Type} (o : outcome A) : Bridge :=
  match o with
  | Return _ b => b
  | Exit _ b => b
  end.

(** A loop body run over a list, left to right. *)
Fixpoint foldRun {A B : Type} (body : A → B → Run B) (xs : list A) (acc : B) : Run B :=
  match xs with
  | [] => mret acc
  | x :: rest => acc' ← body x acc; foldRun body rest acc'
  end.

(** Follows the spec's words: the categories polled on tick [t], counted
    from 1 for the immediate poll: the fast tier on every tick and the slow
    tier on every [IntervalRounds]-th. *)
Definition spec_tick_categories (c : MyGekkoConfig) (t : nat) : list string :=
  IntervalItems c ++
  (if (Z.of_nat t mod IntervalRounds c =? 0)%Z then MainItems c else []).

(** What a polling method did on a bridge [b], against the categories it
    was to poll: it kept the configuration, and it fetched them all when it
    returned, or the first of them when it ended the process. *)
Definition polls {A : Type} (plan : list string) (b : Bridge) (o : outcome A) : Prop :=
  cfg (final o) = cfg b ∧
  match o with
  | Return _ b' => fetched b' = fetched b ++ plan
  | Exit _ b' => ∃ fetched_now, fetched_now `prefix_of` plan ∧ fetched b' = fetched b ++ fetched_now
  end.

(** What every method of the polling side does on a bridge [b]: it keeps
    the name and the schemas, its MQTT calls are publishes, its calls on
    the device are status requests for one category each, and it ends the
    process with one of the codes 5, 6 and 11 only. *)
Definition isPublish (call : MqttCall) : Prop :=
  match call with
  | Subscribe _ => False
  | _ => True
  end.

Definition polling {A : Type} (b : Bridge) (o : outcome A) : Prop :=
  gekkoName (final o) = gekkoName b ∧
  fieldDef (final o) = fieldDef b ∧
  (∃ calls, mqtt (final o) = mqtt b ++ calls ∧ Forall isPublish calls) ∧
  (∃ categories, gekko (final o) = gekko b ++ ((λ c, GetStatus [c]) <$> categories)) ∧
  match o with
  | Exit code _ => code ∈ [5; 6; 11]%Z
  | Return _ _ => True
  end.

(** What a later bridge [b'] has of an earlier one [b]: the name and the
    schemas, every key of the history, and the MQTT calls, to which it
    added; and every value that it remembers was remembered by [b] or was
    published since. *)
Definition extends (b b' : Bridge) : Prop :=
  gekkoName b' = gekkoName b ∧ fieldDef b' = fieldDef b ∧
  (∀ key, is_Some (history b !! key) → is_Some (history b' !! key)) ∧
  ∃ calls, mqtt b' = mqtt b ++ calls ∧
    ∀ key old, history b' !! key = Some old →
      history b !! key = Some old ∨ ∃ topic, Publish topic old ∈ calls.

(** A field went through the decoder between [b] and [b']: the history
    has an entry under its key, and its value was published on its topic,
    or it was held back for a value equal to it under [==] that the
    history of [b] held under the key or that was published since. *)
Definition deduped (b b' : Bridge) (key topic : string) (value : any) : Prop :=
  is_Some (history b' !! key) ∧
  ∃ calls, mqtt b' = mqtt b ++ calls ∧
    (Publish topic value ∈ calls ∨
     ∃ old, iface_eq old value = true ∧
            (history b !! key = Some old ∨ ∃ topic', Publish topic' old ∈ calls)).

(** A field of an item of a category's status that the decoder converts
    to [value]: the item is a member that is polled, its sumstate has a
    value string, and a descriptor of the schema meets a token of that
    string that it decodes. *)
Definition decodedField (ParseFloat : string → option float64)
    (catMap : list (string * any)) (fields : list FieldDef)
    (item : string) (field : FieldDef) (value : any) : Prop :=
  ∃ itemMap members valueStr j rawValue,
    (item, VObject itemMap) ∈ catMap ∧ strings.HasPrefix item "group" = false ∧
    member "sumstate" itemMap = Some (VObject members) ∧
    member "value" members = Some (VString valueStr) ∧
    fields !! j = Some field ∧ strings.Split valueStr ";" !! j = Some rawValue ∧
    decodes ParseFloat field rawValue value.

(** A category underwent the sequence of a poll between [b] and [b'], on
    the answer of the device to its status request: the answer is a
    document; and when the document has an object for the category, the
    category's timestamp was published and every field that the decoder
    converts went through it. *)
Definition undergone (ParseFloat : string → option float64) (b b' : Bridge)
    (category : string) (answer : result (list (string * any))) : Prop :=
  ∃ status, answer = Ok status ∧
    ∀ catMap, member category status = Some (VObject catMap) →
      (∃ calls now, mqtt b' = mqtt b ++ calls ∧
                    Publish (timeTopic (gekkoName b) category) (VInt64 now) ∈ calls) ∧
      ∀ fields item field value,
        fieldDef b !! category = Some fields →
        decodedField ParseFloat catMap fields item field value →
        deduped b b' (histKeyOf category item (Name field))
                (fieldTopic (gekkoName b) category item (Name field)) value.

(** What a run of the polling side made of a plan, the list of the
    categories that it was to poll in this order, each on the answer of
    the device to its request after the requests before it. When the run
    returns, it sent one request for each category of the plan and every
    category underwent the sequence. When it ends the process, it does so
    while it polls some category of the plan: the categories before that
    one underwent the sequence, that one was requested, and the ones after
    it were not. *)
Definition sequenced (ParseFloat : string → option float64)
    (gekko_status : list GekkoCall → list string → result (list (string * any)))
    {A : Type} (plan : list string) (b : Bridge) (o : outcome A) : Prop :=
  let request := λ category, GetStatus [category] in
  let answer := λ k category,
    gekko_status (gekko b ++ (request <$> take k plan)) [category] in
  match o with
  | Return _ b' =>
      gekko b' = gekko b ++ (request <$> plan) ∧
      ∀ k category, plan !! k = Some category →
        undergone ParseFloat b b' category (answer k category)
  | Exit _ b' =>
      ∃ k, k < length plan ∧
        gekko b' = gekko b ++ (request <$> take (S k) plan) ∧
        ∀ j category, j < k → plan !! j = Some category →
          undergone ParseFloat b b' category (answer j category)
  end.

(** The codes with which a method can end the process. *)
Definition exits {A : Type} (codes : list Z) (o : outcome A) : Prop :=
  match o with
  | Exit code _ => code ∈ codes
  | Return _ _ => True
  end.

(** What every descriptor of a loaded schema is: named, without a space
    in its name, of one of the decoder's types, and never left to the
    default of the decoder's switch. *)
Definition loaded (field : FieldDef) : Prop :=
  Name field ≠ "" ∧ strings.Index (Name field) " " = None ∧
  Type_ field ∈ ["int"; "float"; "string"; ""] ∧
  ∀ ParseFloat rawValue,
    Type_ field = "" ∨ convert ParseFloat (Type_ field) rawValue ≠ Unsupported.

(** [MockMQTT] and [MockGekko] of the tests: no call fails, and the device
    answers every status request with one document. *)
Definition MockMQTT : list MqttCall → MqttCall → bool := λ _ _, false.

Definition MockGekko_status (status : list (string * any))
    : list GekkoCall → list string → result (list (string * any)) :=
  λ _ _, Ok status.

Definition MockGekko_set : list GekkoCall → GekkoCall → bool := λ _ _, false.

(** A clock for the examples. *)
Definition clock_1700000000 : list MqttCall → Z := λ _, 1700000000%Z.

(** The fixtures of the tests. *)
Definition testConfig : MyGekkoConfig :=
  {| Interval := config.five; IntervalItems := ["blinds"]; MainItems := ["energy"];
     IntervalRounds := 2 |}.

Definition position : FieldDef := {| Name := "position"; Type_ := "int" |}.
Definition angle : FieldDef := {| Name := "angle"; Type_ := "float" |}.
Definition reserved : FieldDef := {| Name := ""; Type_ := "" |}.
Definition level : FieldDef := {| Name := "level"; Type_ := "float" |}.

Definition testBridge (schema : list FieldDef) : Bridge :=
  NewBridge testConfig {["blinds" := schema]} "TestGekko".

(** A device that answers every request with the status 200 and one
    document, for a client whose URLs are the endpoints. *)
Definition testBuildURL : string → list (string * string) → string := λ endpoint _, endpoint.

Definition testHTTP : list string → string → result client.Response :=
  λ _ _, Ok {| client.StatusCode := 200; client.Body := Ok "{}" |}.

Definition testJSON (document : list (string * any)) : string → client.Status :=
  λ _, Ok document.

(** A configuration file without a rhythm. *)
Definition testFile : config.Config :=
  {| config.LogLevel := "";
     config.MyGekko :=
       {| config.MyGekko.Host := "192.168.1.1"; config.MyGekko.Username := "user";
          config.MyGekko.Password := "pass"; config.MyGekko.Interval := config.zero;
          config.MyGekko.IntervalItems := ["blinds"]; config.MyGekko.MainItems := [];
          config.MyGekko.IntervalRounds := 0 |};
     config.MQTT :=
       {| config.MQTT.Root := "mygekko"; config.MQTT.Host := "localhost:1883";
          config.MQTT.Socket := ""; config.MQTT.Username := ""; config.MQTT.Password := "";
          config.MQTT.ClientID := "" |} |}.

(** An item of the device's documents with this sumstate. *)
Definition itemOf (key value : string) : any :=
  VObject [("sumstate", VObject [(key, VString value)])].

(** * Properties *)

(** ** Strings *)

Module strings_facts.
Import strings.

Lemma Cut_None s sep : Cut s sep = None ↔ Index s sep = None.
Proof.
  induction s as [|c s IH]; simpl; [done|].
  destruct (Ascii.eqb c sep); [done|].
  destruct (Cut s sep) as [[??]|], (Index s sep); try done.
  - destruct IH as [_ IH]. by specialize (IH eq_refl).
  - destruct IH as [IH _]. by specialize (IH eq_refl).
Qed.

Lemma Cut_app a b sep :
  Index a sep = None → Cut (a +:+ String sep b) sep = Some (a, b).
Proof.
  induction a as [|c a IH]; simpl; intros H.
  - by rewrite Ascii.eqb_refl.
  - destruct (Ascii.eqb c sep); [done|].
    destruct (Index a sep); [done|]. by rewrite IH.
Qed.

Lemma Index_app a b sep :
  Index a sep = None → Index (a +:+ String sep b) sep = Some (String.length a).
Proof.
  induction a as [|c a IH]; simpl; intros H.
  - by rewrite Ascii.eqb_refl.
  - destruct (Ascii.eqb c sep); [done|].
    destruct (Index a sep); [done|]. by rewrite IH.
Qed.

Lemma substring_app a b : String.substring 0 (String.length a) (a +:+ b) = a.
Proof. induction a as [|c a IH]; simpl; [by destruct b|by rewrite IH]. Qed.

Lemma Cut_Index s sep before after :
  Cut s sep = Some (before, after) →
  s = before +:+ String sep after ∧ Index before sep = None ∧
  Index s sep = Some (String.length before).
Proof.
  revert before. induction s as [|c s IH]; simpl; intros before H; [done|].
  destruct (Ascii.eqb_spec c sep) as [->|Hne].
  - by simplify_eq.
  - destruct (Cut s sep) as [[b' a']|]; [|done]. simplify_eq.
    destruct (IH _ eq_refl) as (-> & Hb & Hi). simpl.
    destruct (Ascii.eqb_spec c sep); [done|]. by rewrite Hb, Hi.
Qed.

Lemma app_nonempty a c b : a +:+ String c b ≠ "".
Proof. by destruct a. Qed.

Lemma app_single c b : String c "" +:+ b = String c b.
Proof. reflexivity. Qed.

End strings_facts.

(** ** The format parser *)

Lemma fieldTypeOf_None typeName :
  fieldTypeOf typeName = None ↔
  typeName ∉ ["int"; "enum"; "float"; "string"; "null"].
Proof.
  rewrite !not_elem_of_cons. unfold fieldTypeOf.
  destruct (String.eqb_spec typeName "int"); simpl; [intuition congruence|].
  destruct (String.eqb_spec typeName "enum"); simpl; [intuition congruence|].
  destruct (String.eqb_spec typeName "float"); [intuition congruence|].
  destruct (String.eqb_spec typeName "string"); [intuition congruence|].
  destruct (String.eqb_spec typeName "null"); [intuition congruence|].
  split; [|done]. intros _. repeat split; try done. apply not_elem_of_nil.
Qed.

(** What [parseFormatField] returns once the trimmed input is split at
    its first space and the remainder at its first bracket. *)
Lemma parseFormatField_split raw name pre rest :
  strings.TrimSpace raw = name +:+ String " " (pre +:+ String "[" rest) →
  strings.Index name " " = None →
  strings.Index pre "[" = None →
  parseFormatField raw =
    match fieldTypeOf (afterColon pre) with
    | Some fieldType => Ok {| Name := name; Type_ := fieldType |}
    | None => Err ("type " +:+ afterColon pre +:+ " is not supported")
    end.
Proof.
  intros Hdata Hname Hpre. unfold parseFormatField. rewrite Hdata.
  destruct (String.eqb_spec (name +:+ String " " (pre +:+ String "[" rest)) "") as [He|_].
  { by apply strings_facts.app_nonempty in He. }
  unfold strings.SplitN2. rewrite (strings_facts.Cut_app name _ " " Hname).
  rewrite (strings_facts.Index_app pre rest "[" Hpre).
  by rewrite strings_facts.substring_app.
Qed.

Lemma Index_app_None a b sep :
  strings.Index a sep = None → strings.Index b sep = None →
  strings.Index (a +:+ b) sep = None.
Proof.
  induction a as [|c a IH]; simpl; [done|].
  destruct (Ascii.eqb c sep); [done|].
  destruct (strings.Index a sep); [done|]. intros _ Hb. by rewrite IH.
Qed.

(** C4: on an input whose trimmed form is a name, a space, an optional
    vendor prefix closed by a colon, a type token and a bracket, the type
    token is the text between the prefix and the first bracket, whatever
    follows the bracket; [int] and [enum] give the type ["int"] (Integer),
    [float] gives ["float"], [string] gives ["string"] and [null] gives
    [""] (Skip). So a colon inside the brackets is no prefix separator. *)
Theorem parseFormatField_type_token (raw name token rest : string) (vendor : option string) :
  strings.Index name " " = None →
  strings.Index token "[" = None →
  match vendor with
  | Some v =>
      strings.Index v "[" = None ∧ strings.Index v ":" = None ∧
      strings.TrimSpace raw = name +:+ " " +:+ (v +:+ ":" +:+ token) +:+ "[" +:+ rest
  | None =>
      strings.Index token ":" = None ∧
      strings.TrimSpace raw = name +:+ " " +:+ token +:+ "[" +:+ rest
  end →
  (token = "int" ∨ token = "enum" → parseFormatField raw = Ok {| Name := name; Type_ := "int" |}) ∧
  (token = "float" → parseFormatField raw = Ok {| Name := name; Type_ := "float" |}) ∧
  (token = "string" → parseFormatField raw = Ok {| Name := name; Type_ := "string" |}) ∧
  (token = "null" → parseFormatField raw = Ok {| Name := name; Type_ := "" |}) ∧
  (token ∉ ["int"; "enum"; "float"; "string"; "null"] → ∃ msg, parseFormatField raw = Err msg) ∧
  parseFormatField "unit string[xh:x=kW]" = Ok {| Name := "unit"; Type_ := "string" |} ∧
  parseFormatField "mode #vendor:enum[a,b]" = Ok {| Name := "mode"; Type_ := "int" |}.
Proof.
  intros Hname Htok Hraw.
  assert (parseFormatField raw =
            match fieldTypeOf token with
            | Some fieldType => Ok {| Name := name; Type_ := fieldType |}
            | None => Err ("type " +:+ token +:+ " is not supported")
            end) as ->.
  { destruct vendor as [v|].
    - destruct Hraw as (Hv1 & Hv2 & Hraw). rewrite !strings_facts.app_single in Hraw.
      rewrite (parseFormatField_split raw name (v +:+ String ":" token) rest Hraw Hname).
      + unfold afterColon. by rewrite (strings_facts.Cut_app v token ":" Hv2).
      + apply Index_app_None; [done|]. simpl. by rewrite Htok.
    - destruct Hraw as (Hc & Hraw). rewrite !strings_facts.app_single in Hraw.
      rewrite (parseFormatField_split raw name token rest Hraw Hname Htok).
      unfold afterColon. apply strings_facts.Cut_None in Hc. by rewrite Hc. }
  repeat split; try (by intros ->); try (by intros [-> | ->]).
  intros Hno. apply fieldTypeOf_None in Hno. rewrite Hno. eauto.
Qed.

Lemma parseFormatField_type_token_witness :
  parseFormatField "mode #zimmermann:enum[off,on,auto]" = Ok {| Name := "mode"; Type_ := "int" |}.
Proof.
  refine (proj1 (parseFormatField_type_token "mode #zimmermann:enum[off,on,auto]"
            "mode" "enum" "off,on,auto]" (Some "#zimmermann") _ _ _) _).
  - reflexivity.
  - reflexivity.
  - repeat split; reflexivity.
  - right; reflexivity.
Defined.

Lemma TrimLeft_blank s :
  Forall (λ c, strings.asciiSpace c = true) (list_ascii_of_string s) →
  strings.TrimLeft s = "".
Proof.
  induction s as [|c s IH]; simpl; [done|].
  intros [Hc Hs]%Forall_cons. rewrite Hc. by apply IH.
Qed.

Lemma parseParts_named parts fields :
  Forall (λ f, Name f ≠ "") fields →
  Forall (λ f, Name f ≠ "") (parseParts parts fields).
Proof.
  revert fields. induction parts as [|part parts IH]; simpl; intros fields Hf; [done|].
  destruct (parseFormatField part) as [field|msg]; [|by apply IH].
  destruct (String.eqb_spec (Name field) ""); simpl; [by apply IH|].
  apply IH, Forall_app. split; [done|]. by apply Forall_singleton.
Qed.

(** C5: [parseFormatField] returns an error exactly when the trimmed
    input is not empty and has no space, or the text after its first space
    has no bracket, or the type token before that bracket (past a vendor
    prefix) is none of [int], [enum], [float], [string], [null]. An empty
    trimmed input, so every input of white space only, gives the empty
    descriptor and no error, and the loader never appends a descriptor
    with an empty name to a schema. *)
Theorem parseFormatField_error_iff (raw : string) :
  ((∃ msg, parseFormatField raw = Err msg) ↔
     strings.TrimSpace raw ≠ "" ∧
     (strings.Index (strings.TrimSpace raw) " " = None ∨
      ∃ name typeData,
        strings.Cut (strings.TrimSpace raw) " " = Some (name, typeData) ∧
        (strings.Index typeData "[" = None ∨
         ∃ i, strings.Index typeData "[" = Some i ∧
              afterColon (String.substring 0 i typeData)
                ∉ ["int"; "enum"; "float"; "string"; "null"]))) ∧
  (strings.TrimSpace raw = "" → parseFormatField raw = Ok {| Name := ""; Type_ := "" |}) ∧
  (Forall (λ c, strings.asciiSpace c = true) (list_ascii_of_string raw) →
   parseFormatField raw = Ok {| Name := ""; Type_ := "" |}) ∧
  (∀ formatParts, Forall (λ f, Name f ≠ "") (parseParts formatParts [])).
Proof.
  split; [|split; [|split]].
  - unfold parseFormatField, strings.SplitN2.
    destruct (String.eqb_spec (strings.TrimSpace raw) "") as [->|Hne].
    { split; [by intros [? ?]|by intros [? _]]. }
    destruct (strings.Cut (strings.TrimSpace raw) " ") as [[name typeData]|] eqn:Hcut.
    + apply strings_facts.Cut_Index in Hcut as Hidx. destruct Hidx as (_ & _ & Hidx).
      destruct (strings.Index typeData "[") as [i|] eqn:Hbr.
      * destruct (fieldTypeOf (afterColon (String.substring 0 i typeData))) eqn:Hty.
        -- split; [by intros [? ?]|].
           intros (_ & [Hno | (n & t & ? & [? | (j & ? & Hj)])]); simplify_eq.
           apply fieldTypeOf_None in Hj. congruence.
        -- split; [|eauto]. intros _. split; [done|]. right.
           exists name, typeData. split; [done|]. right. exists i. split; [done|].
           by apply fieldTypeOf_None.
      * split; [|eauto]. intros _. split; [done|]. right.
        exists name, typeData. eauto.
    + split; [|eauto]. intros _. split; [done|]. left.
      by apply strings_facts.Cut_None.
  - intros H. unfold parseFormatField. by rewrite H.
  - intros H. unfold parseFormatField, strings.TrimSpace.
    by rewrite (TrimLeft_blank raw H).
  - intros formatParts. by apply parseParts_named.
Qed.

Lemma parseFormatField_error_iff_witness :
  parseFormatField "   " = Ok {| Name := ""; Type_ := "" |} ∧
  ∃ msg, parseFormatField "noTypeHere" = Err msg.
Proof.
  split.
  - apply (proj1 (proj2 (parseFormatField_error_iff "   "))). reflexivity.
  - apply (proj1 (parseFormatField_error_iff "noTypeHere")).
    split; [done|]. left. reflexivity.
Defined.

(** ** The bridge *)

Lemma Split_nonempty s sep : strings.Split s sep ≠ [].
Proof.
  induction s as [|c s IH]; simpl; [done|].
  destruct (Ascii.eqb c sep); [done|]. by destruct (strings.Split s sep).
Qed.

Lemma Split_app a b sep :
  strings.Split (a +:+ String sep b) sep = strings.Split a sep ++ strings.Split b sep.
Proof.
  induction a as [|c a IH]; simpl.
  - by rewrite Ascii.eqb_refl.
  - destruct (Ascii.eqb c sep); [by rewrite IH|].
    rewrite IH. pose proof (Split_nonempty a sep).
    by destruct (strings.Split a sep).
Qed.

Lemma Split_whole s sep : strings.Index s sep = None → strings.Split s sep = [s].
Proof.
  induction s as [|c s IH]; simpl; [done|].
  destruct (Ascii.eqb c sep); [done|].
  destruct (strings.Index s sep); [done|]. intros _. by rewrite IH.
Qed.

Section BridgeFacts.

Context (ParseFloat : string → option float64).
Context (mqtt_err : list MqttCall → MqttCall → bool).
Context (unix_now : list MqttCall → Z).
Context (gekko_status : list GekkoCall → list string → result (list (string * any))).
Context (gekko_set_err : list GekkoCall → GekkoCall → bool).

(** C10: an item of a category without a schema, or whose sumstate is no
    object with a string under ["value"], is passed over: [processItem]
    returns, and leaves the bridge (its history and the calls made on the
    MQTT client) as it was. *)
Theorem processItem_passes_over (category item : string) (sumstate : any) (b : Bridge) :
  fieldDef b !! category = None ∨
  (∀ members valueStr,
     sumstate = VObject members → member "value" members ≠ Some (VString valueStr)) →
  processItem ParseFloat mqtt_err unix_now category item sumstate b = Return tt b.
Proof.
  intros H. unfold processItem.
  destruct sumstate as [| | | | | |xs|members]; simpl; try done.
  destruct (member "value" members) as [v|] eqn:Hv; simpl; [|done].
  destruct v as [| | | | |valueStr| |]; simpl; try done.
  destruct H as [H|H]; [|by destruct (H members valueStr)].
  unfold mbind, Run_bind, get. by rewrite H.
Qed.

Lemma handleSetCommand_segments topic payload b pre category item verb :
  strings.Split topic "/" = pre ++ [category; item; verb] →
  pre ≠ [] →
  let call := SetValue category item (string_of_list_byte payload) in
  let b' := set_gekko (gekko b ++ [call]) b in
  handleSetCommand gekko_set_err topic payload b =
    if gekko_set_err (gekko b) call then Exit 9 b' else Return tt b'.
Proof.
  intros Hparts Hpre. cbv zeta. unfold handleSetCommand. rewrite Hparts.
  assert (0 < length pre) as Hlen by (destruct pre; [done|simpl; lia]).
  rewrite length_app. change (length [category; item; verb]) with 3.
  destruct (Nat.ltb_spec (length pre + 3) 4) as [Hlt|_]; [exfalso; lia|].
  replace (length pre + 3 - 3) with (length pre) by lia.
  replace (length pre + 3 - 2) with (S (length pre)) by lia.
  rewrite app_nth2 by lia. rewrite Nat.sub_diag.
  rewrite app_nth2 by lia.
  replace (S (length pre) - length pre) with 1 by lia. simpl.
  unfold mbind, Run_bind, gekkoSetValue. by destruct (gekko_set_err _ _).
Qed.

(** C7: [handleSetCommand] splits the topic at its slashes; with fewer
    than four segments the process ends with code 8 (the route error), and
    otherwise [SetValue] is called once, with the third segment from the
    end as category, the second from the end as item and the payload's
    bytes as value, whatever the segments before them. So a topic
    [root/category/item/verb] is routed to [(category, item)], and
    [root/set] is refused. *)
Theorem handleSetCommand_routes (topic : string) (payload : list Byte.byte) (b : Bridge) :
  (length (strings.Split topic "/") < 4 →
   handleSetCommand gekko_set_err topic payload b = Exit 8 b) ∧
  (∀ pre category item verb,
     strings.Split topic "/" = pre ++ [category; item; verb] →
     pre ≠ [] →
     let call := SetValue category item (string_of_list_byte payload) in
     let b' := set_gekko (gekko b ++ [call]) b in
     handleSetCommand gekko_set_err topic payload b =
       if gekko_set_err (gekko b) call then Exit 9 b' else Return tt b') ∧
  (∀ root category item verb,
     strings.Index category "/" = None →
     strings.Index item "/" = None →
     strings.Index verb "/" = None →
     topic = root +:+ "/" +:+ category +:+ "/" +:+ item +:+ "/" +:+ verb →
     let call := SetValue category item (string_of_list_byte payload) in
     let b' := set_gekko (gekko b ++ [call]) b in
     handleSetCommand gekko_set_err topic payload b =
       if gekko_set_err (gekko b) call then Exit 9 b' else Return tt b') ∧
  (∀ root, strings.Index root "/" = None →
     handleSetCommand gekko_set_err (root +:+ "/set") payload b = Exit 8 b).
Proof.
  split; [|split; [|split]].
  - intros Hlen. unfold handleSetCommand.
    destruct (Nat.ltb_spec (length (strings.Split topic "/")) 4); [done|lia].
  - intros pre category item verb. apply handleSetCommand_segments.
  - intros root category item verb Hc Hi Hv ->.
    apply (handleSetCommand_segments _ payload b (strings.Split root "/") category item verb).
    + rewrite !strings_facts.app_single, !Split_app.
      by rewrite (Split_whole category), (Split_whole item), (Split_whole verb).
    + apply Split_nonempty.
  - intros root Hroot. unfold handleSetCommand.
    rewrite Split_app, (Split_whole root) by done.
    reflexivity.
Qed.

(** ** The decoder and the history *)

Lemma histKeyOf_inj category item : Inj (=) (=) (histKeyOf category item).
Proof.
  intros n1 n2 H. unfold histKeyOf in H.
  by repeat apply (inj (String.app _)) in H.
Qed.

(** The result of the loop body on a field that is decoded. *)
Lemma fieldBody_decoded category item field rawValue value l b :
  Name field ≠ "" → Type_ field ≠ "" → rawValue ≠ "" →
  convert ParseFloat (Type_ field) rawValue = Converted value →
  let key := histKeyOf category item (Name field) in
  let call := Publish (fieldTopic (gekkoName b) category item (Name field)) value in
  let data := <[Name field := value]> (itemData l) in
  fieldBody ParseFloat mqtt_err category item field rawValue l b =
    if unchanged (history b) key value
    then Return {| itemData := data; hasChanges := hasChanges l |} b
    else
      let b' := set_mqtt (mqtt b ++ [call]) (set_history (<[key := value]> (history b)) b) in
      if mqtt_err (mqtt b) call then Exit 6 b'
      else Return {| itemData := data; hasChanges := true |} b'.
Proof.
  intros Hn Ht Hr Hc. cbv zeta. unfold fieldBody.
  destruct (String.eqb_spec (Name field) ""); [done|].
  destruct (String.eqb_spec (Type_ field) ""); [done|].
  destruct (String.eqb_spec rawValue ""); [done|]. simpl. rewrite Hc.
  unfold mbind, Run_bind, get. simpl.
  destruct (unchanged (history b) _ value); [done|]. simpl.
  by destruct (mqtt_err _ _).
Qed.

(** C1: for a field that is decoded (a descriptor with a name and a type,
    a token that is not empty and converts), the loop body publishes the
    value on the field's topic and overwrites the field's history entry
    exactly when the history has no entry under the field's key or has one
    that differs from the value under Go's [==] on the values' type;
    otherwise it publishes nothing and leaves the history, and the whole
    bridge, as it was. *)
Theorem fieldBody_publishes_iff_changed
    (category item : string) (field : FieldDef) (rawValue : string) (value : any)
    (l : locals) (b : Bridge) :
  Name field ≠ "" → Type_ field ≠ "" → rawValue ≠ "" →
  convert ParseFloat (Type_ field) rawValue = Converted value →
  let key := histKeyOf category item (Name field) in
  let call := Publish (fieldTopic (gekkoName b) category item (Name field)) value in
  let b' := final (fieldBody ParseFloat mqtt_err category item field rawValue l b) in
  let changed :=
    history b !! key = None ∨
    ∃ oldVal, history b !! key = Some oldVal ∧ iface_eq oldVal value = false in
  ((mqtt b' = mqtt b ++ [call] ∧ history b' = <[key := value]> (history b)) ↔ changed) ∧
  (¬ changed → b' = b).
Proof.
  intros Hn Ht Hr Hc. cbv zeta.
  rewrite (fieldBody_decoded category item field rawValue value l b Hn Ht Hr Hc).
  unfold unchanged.
  destruct (history b !! histKeyOf category item (Name field)) as [oldVal|] eqn:Hh.
  - destruct (iface_eq oldVal value) eqn:Heq; simpl.
    + split.
      * split.
        -- intros [Hm _]. apply (f_equal length) in Hm.
           rewrite length_app in Hm. simpl in Hm. lia.
        -- intros [?|(o & ? & ?)]; [done|]. simplify_eq. congruence.
      * done.
    + split.
      * split; [eauto|]. intros _. by destruct (mqtt_err _ _).
      * intros H. destruct H. eauto.
  - split.
    + split; [eauto|]. intros _. by destruct (mqtt_err _ _).
    + intros H. destruct H. eauto.
Qed.

(** The loop pairs the descriptors with the tokens from position [i] on. *)
Lemma fieldLoop_zip category item values i fields l b :
  fieldLoop ParseFloat mqtt_err category item values i fields l b =
  foldRun (λ p, fieldBody ParseFloat mqtt_err category item p.1 p.2)
          (zip fields (drop i values)) l b.
Proof.
  revert i l b. induction fields as [|field rest IH]; intros i l b; simpl; [done|].
  destruct (values !! i) as [rawValue|] eqn:Hi.
  - rewrite (drop_S _ _ _ Hi). simpl. unfold mbind, Run_bind.
    destruct (fieldBody _ _ _ _ _ _ _ _) as [l' b'|code b']; [apply IH|done].
  - apply lookup_ge_None in Hi. by rewrite (drop_ge _ _ Hi).
Qed.

Lemma fieldBody_skip category item field rawValue l b :
  Name field = "" ∨ Type_ field = "" ∨ rawValue = "" →
  fieldBody ParseFloat mqtt_err category item field rawValue l b = Return l b.
Proof.
  unfold fieldBody. intros [->| [->| ->]]; simpl; [done| |].
  - by rewrite orb_true_r.
  - by destruct (_ || _).
Qed.

(** C6: the decoding loop is positional. It runs its body on the pairs of
    the descriptors and the tokens at equal positions, up to the shorter
    of the two lists: tokens beyond the descriptors are ignored, and
    descriptors beyond the tokens are left out without an error. On a
    descriptor to skip (no name or no type) and on an empty token the body
    does nothing: no conversion, no publish, no history entry. *)
Theorem fieldLoop_positional
    (category item : string) (values : list string) (fields : list FieldDef)
    (l : locals) (b : Bridge) :
  fieldLoop ParseFloat mqtt_err category item values 0 fields l b =
    foldRun (λ p, fieldBody ParseFloat mqtt_err category item p.1 p.2)
            (zip fields values) l b ∧
  (∀ extra, length fields ≤ length values →
     fieldLoop ParseFloat mqtt_err category item (values ++ extra) 0 fields l b =
     fieldLoop ParseFloat mqtt_err category item values 0 fields l b) ∧
  (∀ more, length values ≤ length fields →
     fieldLoop ParseFloat mqtt_err category item values 0 (fields ++ more) l b =
     fieldLoop ParseFloat mqtt_err category item values 0 fields l b) ∧
  (∀ field rawValue l' b',
     Name field = "" ∨ Type_ field = "" ∨ rawValue = "" →
     fieldBody ParseFloat mqtt_err category item field rawValue l' b' = Return l' b').
Proof.
  split; [|split; [|split]].
  - by rewrite fieldLoop_zip.
  - intros extra Hlen. rewrite !fieldLoop_zip, !drop_0. f_equal.
    rewrite zip_with_app_r, take_ge, drop_ge by done. simpl.
    by rewrite (right_id_L [] (++)).
  - intros more Hlen. rewrite !fieldLoop_zip, !drop_0. f_equal.
    rewrite zip_with_app_l, take_ge, drop_ge by done.
    assert (zip more ([] : list string) = []) as -> by (by destruct more).
    by rewrite (right_id_L [] (++)).
  - intros field rawValue l' b'. apply fieldBody_skip.
Qed.

(** *** The loop body, case by case *)

Lemma decodes_or_not field rawValue :
  (∃ value, decodes ParseFloat field rawValue value) ∨
  (∀ value, ¬ decodes ParseFloat field rawValue value).
Proof.
  unfold decodes.
  destruct (decide (Name field = "")); [right; naive_solver|].
  destruct (decide (Type_ field = "")); [right; naive_solver|].
  destruct (decide (rawValue = "")); [right; naive_solver|].
  destruct (convert ParseFloat (Type_ field) rawValue) as [| |value];
    [right; naive_solver..|left; eauto].
Qed.

Lemma fieldBody_undecoded category item field rawValue l b :
  (∀ value, ¬ decodes ParseFloat field rawValue value) →
  fieldBody ParseFloat mqtt_err category item field rawValue l b =
    match convert ParseFloat (Type_ field) rawValue with
    | Failed =>
        if String.eqb (Name field) "" || String.eqb (Type_ field) "" || String.eqb rawValue ""
        then Return l b else Exit 5 b
    | _ => Return l b
    end.
Proof.
  intros Hno. unfold fieldBody, decodes in *.
  destruct (String.eqb_spec (Name field) ""); simpl; [by destruct (convert _ _ _)|].
  destruct (String.eqb_spec (Type_ field) ""); simpl; [by destruct (convert _ _ _)|].
  destruct (String.eqb_spec rawValue ""); simpl; [by destruct (convert _ _ _)|].
  destruct (convert ParseFloat (Type_ field) rawValue) as [| |value]; try done.
  by destruct (Hno value).
Qed.

Lemma fieldBody_Return_inv category item field rawValue l b l1 b1 :
  fieldBody ParseFloat mqtt_err category item field rawValue l b = Return l1 b1 →
  let key := histKeyOf category item (Name field) in
  ((∀ value, ¬ decodes ParseFloat field rawValue value) ∧ l1 = l ∧ b1 = b) ∨
  (∃ value, decodes ParseFloat field rawValue value ∧
     itemData l1 = <[Name field := value]> (itemData l) ∧
     ((unchanged (history b) key value = true ∧ b1 = b ∧ hasChanges l1 = hasChanges l) ∨
      (unchanged (history b) key value = false ∧
       b1 = set_mqtt (mqtt b ++ [Publish (fieldTopic (gekkoName b) category item (Name field)) value])
                     (set_history (<[key := value]> (history b)) b) ∧
       hasChanges l1 = true))).
Proof.
  intros Hret. cbv zeta.
  destruct (decodes_or_not field rawValue) as [[value Hd]|Hno].
  - right. exists value. split; [done|].
    destruct Hd as (Hn & Ht & Hr & Hc).
    rewrite (fieldBody_decoded category item field rawValue value l b Hn Ht Hr Hc) in Hret.
    destruct (unchanged (history b) _ value); [simplify_eq; eauto|].
    simpl in Hret. destruct (mqtt_err _ _); simplify_eq. eauto 10.
  - left. split; [done|].
    rewrite (fieldBody_undecoded _ _ _ _ _ _ Hno) in Hret.
    destruct (convert _ _ _); [by simplify_eq| |by simplify_eq].
    destruct (_ || _); by simplify_eq.
Qed.

(** Whether an undecoded position lets the loop go on depends on the
    descriptor and the token alone. *)
Lemma fieldBody_undecoded_again category item field rawValue l b l1 b1 l2 b2 :
  (∀ value, ¬ decodes ParseFloat field rawValue value) →
  fieldBody ParseFloat mqtt_err category item field rawValue l b = Return l1 b1 →
  fieldBody ParseFloat mqtt_err category item field rawValue l2 b2 = Return l2 b2.
Proof.
  intros Hno. rewrite !(fieldBody_undecoded _ _ _ _ _ _ Hno).
  destruct (convert _ _ _); try done. by destruct (_ || _).
Qed.

Lemma fieldLoop_cons category item values i field rest l b :
  fieldLoop ParseFloat mqtt_err category item values i (field :: rest) l b =
    match values !! i with
    | None => Return l b
    | Some rawValue =>
        match fieldBody ParseFloat mqtt_err category item field rawValue l b with
        | Return l1 b1 => fieldLoop ParseFloat mqtt_err category item values (S i) rest l1 b1
        | Exit code b1 => Exit code b1
        end
    end.
Proof. simpl. by destruct (values !! i). Qed.

(** *** Two runs on the same value string *)

Lemma SFeqb_refl (f : float64) : f ≠ S754_nan → SFeqb f f = true.
Proof.
  destruct f as [s|s| |s m e]; unfold SFeqb, SFcompare; try done.
  - by destruct s.
  - intros _. rewrite Z.compare_refl, Pos.compare_cont_refl. by destruct s.
Qed.

Lemma iface_eq_refl field rawValue value :
  decodes ParseFloat field rawValue value →
  value ≠ VFloat64 S754_nan →
  iface_eq value value = true.
Proof.
  intros (_ & _ & _ & Hc) Hnan. unfold convert in Hc.
  destruct (String.eqb (Type_ field) "int").
  { destruct (strconv.Atoi rawValue); simplify_eq. simpl. apply Z.eqb_refl. }
  destruct (String.eqb (Type_ field) "float").
  { destruct (ParseFloat rawValue) as [f|]; simplify_eq. simpl.
    apply SFeqb_refl. congruence. }
  destruct (String.eqb (Type_ field) "string"); simplify_eq.
  simpl. apply String.eqb_refl.
Qed.

(** The loop leaves the schema, the name, the configuration and the
    device's calls as they are, however it ends. *)
Lemma fieldBody_frame category item field rawValue l b :
  let b' := final (fieldBody ParseFloat mqtt_err category item field rawValue l b) in
  fieldDef b' = fieldDef b ∧ gekkoName b' = gekkoName b ∧
  cfg b' = cfg b ∧ gekko b' = gekko b.
Proof.
  cbv zeta. unfold fieldBody.
  destruct (_ || _); [done|]. destruct (String.eqb rawValue ""); [done|].
  destruct (convert _ _ _) as [| |value]; [done..|].
  unfold mbind, Run_bind, get, put_history, mqttCall. simpl.
  destruct (unchanged _ _ _); [done|]. simpl. by destruct (mqtt_err _ _).
Qed.

Lemma fieldLoop_frame category item values i fields l b :
  let b' := final (fieldLoop ParseFloat mqtt_err category item values i fields l b) in
  fieldDef b' = fieldDef b ∧ gekkoName b' = gekkoName b ∧
  cfg b' = cfg b ∧ gekko b' = gekko b.
Proof.
  cbv zeta. revert i l b. induction fields as [|field rest IH]; intros i l b; [done|].
  rewrite fieldLoop_cons. destruct (values !! i) as [rawValue|]; [|done].
  pose proof (fieldBody_frame category item field rawValue l b) as Hbody. cbv zeta in Hbody.
  destruct (fieldBody _ _ _ _ _ _ _ _) as [l1 b1|code b1]; [|done].
  simpl in Hbody. destruct (IH (S i) l1 b1) as (? & ? & ? & ?), Hbody as (? & ? & ? & ?).
  repeat split; congruence.
Qed.

Lemma fieldLoop_static category item values i fields l b l' b' :
  fieldLoop ParseFloat mqtt_err category item values i fields l b = Return l' b' →
  fieldDef b' = fieldDef b ∧ gekkoName b' = gekkoName b ∧
  cfg b' = cfg b ∧ gekko b' = gekko b.
Proof.
  intros Hrun. pose proof (fieldLoop_frame category item values i fields l b) as H.
  cbv zeta in H. by rewrite Hrun in H.
Qed.

(** The loop touches the history under the keys of its descriptors only. *)
Lemma fieldLoop_history_frame category item values i fields l b l' b' name :
  fieldLoop ParseFloat mqtt_err category item values i fields l b = Return l' b' →
  name ∉ Name <$> fields →
  history b' !! histKeyOf category item name = history b !! histKeyOf category item name.
Proof.
  revert i l b. induction fields as [|field rest IH]; intros i l b.
  { simpl. by intros [= <- <-]. }
  rewrite fieldLoop_cons, fmap_cons, not_elem_of_cons.
  destruct (values !! i) as [rawValue|]; [|by intros [= <- <-]].
  destruct (fieldBody _ _ _ _ _ _ _ _) as [l1 b1|] eqn:Hbody; [|done].
  intros Hrest [Hne Hnot]. rewrite (IH _ _ _ Hrest Hnot).
  apply fieldBody_Return_inv in Hbody.
  destruct Hbody as [(_ & -> & ->)|(v & _ & _ & [(_ & -> & _)|(_ & -> & _)])]; try done.
  simpl. apply lookup_insert_ne. intros Heq. by apply histKeyOf_inj in Heq.
Qed.

(** After a run of the loop that returned, a second run over the same
    descriptors and tokens returns too, and changes neither the bridge nor
    [hasChanges], when the named descriptors have distinct names and no
    token was decoded to a NaN. *)
Lemma fieldLoop_second_run category item values i fields l b l' b' :
  fieldLoop ParseFloat mqtt_err category item values i fields l b = Return l' b' →
  NoDup (filter (λ n, n ≠ "") (Name <$> fields)) →
  (∀ j field rawValue value,
     fields !! j = Some field → values !! (i + j) = Some rawValue →
     decodes ParseFloat field rawValue value → value ≠ VFloat64 S754_nan) →
  ∀ l2 b2, history b2 = history b' →
    ∃ l2', fieldLoop ParseFloat mqtt_err category item values i fields l2 b2 = Return l2' b2 ∧
           hasChanges l2' = hasChanges l2.
Proof.
  revert i l b. induction fields as [|field rest IH]; intros i l b.
  { simpl. intros _ _ _ l2 b2 _. by exists l2. }
  rewrite fieldLoop_cons. intros Hrun Hdup Hnan l2 b2 Hh. rewrite fieldLoop_cons.
  destruct (values !! i) as [rawValue|] eqn:Hi; [|by exists l2].
  destruct (fieldBody _ _ _ _ _ _ l b) as [l1 b1|] eqn:Hbody; [|done].
  assert (NoDup (filter (λ n, n ≠ "") (Name <$> rest))) as Hdup'.
  { rewrite fmap_cons, filter_cons in Hdup. case_decide; [by apply NoDup_cons in Hdup as [_ ?]|done]. }
  assert (∀ j f r v, rest !! j = Some f → values !! (S i + j) = Some r →
            decodes ParseFloat f r v → v ≠ VFloat64 S754_nan) as Hnan'.
  { intros j f r v Hj Hv. apply (Hnan (S j) f r v); [done|].
    by replace (i + S j) with (S i + j) by lia. }
  pose proof (fieldBody_Return_inv _ _ _ _ _ _ _ _ Hbody) as Hinv. cbv zeta in Hinv.
  destruct Hinv as [(Hno & -> & ->)|(v & Hd & _ & Hcase)].
  - rewrite (fieldBody_undecoded_again _ _ _ _ _ _ _ _ l2 b2 Hno Hbody).
    by apply (IH _ _ _ Hrun).
  - assert (unchanged (history b1) (histKeyOf category item (Name field)) v = true) as Hun.
    { destruct Hcase as [(Hun & -> & _)|(_ & -> & _)]; [done|].
      unfold unchanged. simpl. rewrite lookup_insert_eq.
      apply (iface_eq_refl field rawValue); [done|].
      apply (Hnan 0 field rawValue v); [done| |done]. by rewrite Nat.add_0_r. }
    assert (Name field ∉ Name <$> rest) as Hfresh.
    { destruct Hd as (Hn & _). rewrite fmap_cons, filter_cons in Hdup.
      case_decide; [|done]. apply NoDup_cons in Hdup as [Hnot _].
      intros Hin. apply Hnot. by apply list_elem_of_filter. }
    assert (unchanged (history b2) (histKeyOf category item (Name field)) v = true) as Hun2.
    { unfold unchanged in *. rewrite Hh.
      by rewrite (fieldLoop_history_frame _ _ _ _ _ _ _ _ _ _ Hrun Hfresh). }
    destruct Hd as (Hn & Ht & Hr & Hc).
    rewrite (fieldBody_decoded category item field rawValue v l2 b2 Hn Ht Hr Hc).
    rewrite Hun2.
    destruct (IH _ _ _ Hrun Hdup' Hnan'
                {| itemData := <[Name field := v]> (itemData l2);
                   hasChanges := hasChanges l2 |} b2 Hh) as (l2' & Hl & Hch).
    rewrite Hl. exists l2'. split; [done|]. by rewrite Hch.
Qed.

Lemma publishItem_static category item l b :
  let b' := final (publishItem mqtt_err unix_now category item l b) in
  history b' = history b ∧ fieldDef b' = fieldDef b ∧ gekkoName b' = gekkoName b ∧
  cfg b' = cfg b ∧ gekko b' = gekko b.
Proof.
  cbv zeta. unfold publishItem.
  destruct (hasChanges l && _); [|done].
  unfold mbind, Run_bind, timeNow, get, mqttCall. simpl.
  by destruct (mqtt_err _ _).
Qed.

(** C2, amended: when [processItem] returned, a second call on the same
    category, item and sumstate returns too and leaves the bridge as the
    first call left it (the same history, no publish of a field and no
    document), provided that the schema's named descriptors have
    distinct names and no token of the value string was decoded to a NaN. *)
Theorem processItem_twice (category item : string) (sumstate : any) (b b1 : Bridge) :
  processItem ParseFloat mqtt_err unix_now category item sumstate b = Return tt b1 →
  (∀ fields, fieldDef b !! category = Some fields →
     NoDup (filter (λ n, n ≠ "") (Name <$> fields))) →
  (∀ members valueStr fields j field rawValue value,
     sumstate = VObject members →
     member "value" members = Some (VString valueStr) →
     fieldDef b !! category = Some fields →
     fields !! j = Some field →
     strings.Split valueStr ";" !! j = Some rawValue →
     decodes ParseFloat field rawValue value →
     value ≠ VFloat64 S754_nan) →
  processItem ParseFloat mqtt_err unix_now category item sumstate b1 = Return tt b1.
Proof.
  intros Hrun Hdup Hnan. unfold processItem in *.
  destruct sumstate as [| | | | | |xs|members]; simpl in *; try reflexivity.
  destruct (member "value" members) as [value|] eqn:Hv; simpl in *; [|reflexivity].
  destruct value as [| | | | |valueStr| |]; simpl in *; try reflexivity.
  unfold mbind, Run_bind, get in *.
  destruct (fieldDef b !! category) as [fields|] eqn:Hf.
  2:{ injection Hrun as <-. by rewrite Hf. }
  destruct (fieldLoop _ _ _ _ _ _ _ _ b) as [l' b'|] eqn:Hloop; [|done].
  pose proof (fieldLoop_static _ _ _ _ _ _ _ _ _ Hloop) as (Hdef & _).
  pose proof (publishItem_static category item l' b') as Hpub. cbv zeta in Hpub.
  rewrite Hrun in Hpub. simpl in Hpub. destruct Hpub as (Hh & Hdef' & _).
  rewrite Hdef', Hdef, Hf.
  destruct (fieldLoop_second_run _ _ _ _ _ _ _ _ _ Hloop (Hdup _ eq_refl))
    with (l2 := {| itemData := ∅; hasChanges := false |}) (b2 := b1) as (l2' & -> & Hc).
  - intros j field rawValue value Hj Hr. by apply (Hnan members valueStr fields j).
  - done.
  - unfold publishItem. simpl in Hc. by rewrite Hc.
Qed.

(** *** The item's document *)


Lemma fieldLoop_itemData_mono category item values i fields l b l' b' name :
  fieldLoop ParseFloat mqtt_err category item values i fields l b = Return l' b' →
  is_Some (itemData l !! name) → is_Some (itemData l' !! name).
Proof.
  revert i l b. induction fields as [|field rest IH]; intros i l b.
  { simpl. by intros [= <- <-]. }
  rewrite fieldLoop_cons.
  destruct (values !! i) as [rawValue|]; [|by intros [= <- <-]].
  destruct (fieldBody _ _ _ _ _ _ _ _) as [l1 b1|] eqn:Hbody; [|done].
  intros Hrest Hl. apply (IH _ _ _ Hrest).
  apply fieldBody_Return_inv in Hbody.
  destruct Hbody as [(_ & -> & ->)|(v & _ & -> & _)]; [done|].
  rewrite lookup_insert. case_decide; [eauto|done].
Qed.




Lemma processItem_unfold category item members valueStr fields b :
  member "value" members = Some (VString valueStr) →
  fieldDef b !! category = Some fields →
  processItem ParseFloat mqtt_err unix_now category item (VObject members) b =
    match fieldLoop ParseFloat mqtt_err category item (strings.Split valueStr ";") 0 fields
                    {| itemData := ∅; hasChanges := false |} b with
    | Return l b' => publishItem mqtt_err unix_now category item l b'
    | Exit code b' => Exit code b'
    end.
Proof.
  intros Hv Hf. unfold processItem. simpl. rewrite Hv. simpl.
  unfold mbind, Run_bind, get. by rewrite Hf.
Qed.


(** ** The polling loop *)

Lemma processItem_frame category item sumstate b :
  let b' := final (processItem ParseFloat mqtt_err unix_now category item sumstate b) in
  cfg b' = cfg b ∧ gekko b' = gekko b.
Proof.
  cbv zeta. unfold processItem.
  destruct sumstate as [| | | | | |xs|members]; simpl; try done.
  destruct (member "value" members) as [value|] eqn:Hv; simpl; [|done].
  destruct value as [| | | | |valueStr| |]; simpl; try done.
  unfold mbind, Run_bind, get.
  destruct (fieldDef b !! category) as [fields|]; [|done].
  pose proof (fieldLoop_frame category item (strings.Split valueStr ";") 0 fields
                {| itemData := ∅; hasChanges := false |} b) as Hloop. cbv zeta in Hloop.
  destruct (fieldLoop _ _ _ _ _ _ _ _ b) as [l1 b1|code b1]; simpl in Hloop.
  - pose proof (publishItem_static category item l1 b1) as Hs. cbv zeta in Hs.
    destruct Hs as (_ & _ & _ & ? & ?), Hloop as (_ & _ & ? & ?). split; congruence.
  - by destruct Hloop as (_ & _ & ? & ?).
Qed.

Lemma itemsLoop_frame category catMap b :
  let b' := final (itemsLoop ParseFloat mqtt_err unix_now category catMap b) in
  cfg b' = cfg b ∧ gekko b' = gekko b.
Proof.
  cbv zeta. revert b. induction catMap as [|[item data] rest IH]; intros b; simpl; [done|].
  unfold mbind, Run_bind.
  destruct (strings.HasPrefix item "group"); [apply IH|].
  destruct (asObject data) as [itemMap|]; [|apply IH].
  destruct (member "sumstate" itemMap) as [sumstate|]; [|apply IH].
  pose proof (processItem_frame category item sumstate b) as Hitem. cbv zeta in Hitem.
  destruct (processItem _ _ _ _ _ _ b) as [[] b1|code b1]; simpl in Hitem; [|done].
  destruct (IH b1), Hitem. split; congruence.
Qed.

Lemma fetched_snoc b b' categories :
  gekko b' = gekko b ++ [GetStatus categories] →
  fetched b' = fetched b ++ categories.
Proof.
  intros Hg. unfold fetched. rewrite Hg, omap_app, join_app. simpl.
  by rewrite (right_id_L [] (++)).
Qed.

Lemma polls_whole {A} plan b (o : outcome A) :
  cfg (final o) = cfg b → fetched (final o) = fetched b ++ plan → polls plan b o.
Proof.
  intros Hc Hf. split; [done|]. destruct o as [a b'|code b']; [done|].
  by exists plan.
Qed.

Lemma polls_bind {A B} plan1 plan2 b (m : Run A) (f : A → Run B) :
  polls plan1 b (m b) →
  (∀ a b1, m b = Return a b1 → polls plan2 b1 (f a b1)) →
  polls (plan1 ++ plan2) b ((m ≫= f) b).
Proof.
  unfold polls, mbind, Run_bind. intros [Hc Hf] Hk.
  destruct (m b) as [a b1|code b1]; simpl in *.
  - destruct (Hk a b1 eq_refl) as [Hc2 Hf2]. split; [congruence|].
    destruct (f a b1) as [a2 b2|code b2].
    + by rewrite Hf2, Hf, <-(assoc_L (++)).
    + destruct Hf2 as (now & Hpre & ->). exists (plan1 ++ now).
      split; [by apply prefix_app|]. by rewrite Hf, <-(assoc_L (++)).
  - split; [done|]. destruct Hf as (now & Hpre & ->). exists now.
    split; [by apply prefix_app_r|done].
Qed.

Lemma polls_then {A B} plan b (m : Run A) (f : A → Run B) :
  polls plan b (m b) →
  (∀ a b1, m b = Return a b1 → polls [] b1 (f a b1)) →
  polls plan b ((m ≫= f) b).
Proof.
  intros Hm Hf. rewrite <-(right_id_L [] (++) plan). by apply polls_bind.
Qed.

Lemma polls_ret {A} (a : A) b : polls [] b ((mret a : Run A) b).
Proof. apply polls_whole; [done|]. by rewrite (right_id_L [] (++)). Qed.

Lemma pollCategory_polls category b :
  polls [category] b (pollCategory ParseFloat mqtt_err unix_now gekko_status category b).
Proof.
  apply polls_whole; unfold pollCategory, mbind, Run_bind, gekkoGetStatus.
  - destruct (gekko_status _ _) as [status|]; [|done].
    destruct (member category status) as [catData|]; [|done].
    destruct (asObject catData) as [catMap|]; [|done].
    pose proof (itemsLoop_frame category catMap
                  (set_gekko (gekko b ++ [GetStatus [category]]) b)) as Hitems.
    cbv zeta in Hitems.
    destruct (itemsLoop _ _ _ _ _ _) as [[] b1|code b1]; simpl in Hitems; [|by destruct Hitems].
    unfold timeNow, get, mqttCall. simpl. destruct Hitems.
    by destruct (mqtt_err _ _).
  - assert (∀ b', gekko b' = gekko (set_gekko (gekko b ++ [GetStatus [category]]) b) →
                  fetched b' = fetched b ++ [category]) as Hsame.
    { intros b' Hg. by apply fetched_snoc. }
    destruct (gekko_status _ _) as [status|]; [|by apply Hsame].
    destruct (member category status) as [catData|]; [|by apply Hsame].
    destruct (asObject catData) as [catMap|]; [|by apply Hsame].
    pose proof (itemsLoop_frame category catMap
                  (set_gekko (gekko b ++ [GetStatus [category]]) b)) as Hitems.
    cbv zeta in Hitems.
    destruct (itemsLoop _ _ _ _ _ _) as [[] b1|code b1]; simpl in Hitems;
      [|apply Hsame; by destruct Hitems].
    unfold timeNow, get, mqttCall. simpl. destruct Hitems.
    destruct (mqtt_err _ _); by apply Hsame.
Qed.

Lemma pollCategories_polls categories b :
  polls categories b (pollCategories ParseFloat mqtt_err unix_now gekko_status categories b).
Proof.
  revert b. induction categories as [|category rest IH]; intros b; simpl.
  { apply polls_whole; [done|]. by rewrite (right_id_L [] (++)). }
  apply (polls_bind [category] rest).
  - apply pollCategory_polls.
  - intros _ b1 _. apply IH.
Qed.

Lemma round_next (N t : Z) :
  (1 ≤ N)%Z → (0 ≤ t)%Z →
  ((if (N <=? t mod N + 1)%Z then 0 else t mod N + 1) = (t + 1) mod N)%Z.
Proof.
  intros HN Ht. pose proof (Z.mod_pos_bound t N ltac:(lia)) as Hb.
  rewrite <-(Zplus_mod_idemp_l t 1 N).
  destruct (Z.leb_spec N (t mod N + 1)%Z).
  - assert (t mod N + 1 = N)%Z as -> by lia. by rewrite Z_mod_same_full.
  - by rewrite (Z.mod_small (t mod N + 1)%Z) by lia.
Qed.

Lemma poll_unfold round b :
  poll ParseFloat mqtt_err unix_now gekko_status round b =
    (pollTier ParseFloat mqtt_err unix_now gekko_status (IntervalItems (cfg b)) ≫= λ _,
     if (IntervalRounds (cfg b) <=? round + 1)%Z
     then pollTier ParseFloat mqtt_err unix_now gekko_status (MainItems (cfg b)) ≫= λ _,
          mret 0%Z
     else mret (round + 1)%Z) b.
Proof. reflexivity. Qed.

End BridgeFacts.

(** ** The registry *)

Lemma parseParts_omap formatParts fields :
  parseParts formatParts fields =
  fields ++ omap (λ part, match parseFormatField part with
                          | Ok field => if String.eqb (Name field) "" then None else Some field
                          | Err _ => None
                          end) formatParts.
Proof.
  revert fields. induction formatParts as [|part rest IH]; intros fields; simpl.
  { by rewrite (right_id_L [] (++)). }
  destruct (parseFormatField part) as [field|msg]; [|apply IH].
  destruct (String.eqb (Name field) ""); simpl; [apply IH|].
  by rewrite IH, <-(assoc_L (++)).
Qed.

(** A member that [firstItem] passes: its key lacks the prefix, or it has
    no format string. *)
Lemma firstItem_at category before itemName itemData after formatStr result :
  Forall (λ m, strings.HasPrefix m.1 "item" = false ∨ formatOf m.2 = None) before →
  strings.HasPrefix itemName "item" = true →
  formatOf itemData = Some formatStr →
  firstItem category (before ++ (itemName, itemData) :: after) result =
    let fields := parseParts (strings.Split formatStr ";") [] in
    if 0 <? length fields then <[category := fields]> result else result.
Proof.
  intros Hbefore Hprefix Hformat.
  induction Hbefore as [|[k d] before [Hk|Hd] _ IH]; simpl in *.
  - by rewrite Hprefix, Hformat.
  - by rewrite Hk.
  - rewrite Hd. by destruct (strings.HasPrefix k "item").
Qed.

Lemma firstItem_cases category catMap result :
  (Forall (λ m, strings.HasPrefix m.1 "item" = false ∨ formatOf m.2 = None) catMap ∧
   firstItem category catMap result = result) ∨
  (∃ before itemName itemData after formatStr,
     catMap = before ++ (itemName, itemData) :: after ∧
     Forall (λ m, strings.HasPrefix m.1 "item" = false ∨ formatOf m.2 = None) before ∧
     strings.HasPrefix itemName "item" = true ∧
     formatOf itemData = Some formatStr).
Proof.
  induction catMap as [|[k d] rest IH]; simpl.
  { left. by split. }
  destruct (strings.HasPrefix k "item") eqn:Hk; simpl.
  - destruct (formatOf d) as [formatStr|] eqn:Hd.
    + right. exists [], k, d, rest, formatStr. by repeat split.
    + destruct IH as [[Hall Heq]|(before & n & i & after & f & -> & Hall & Hn & Hf)].
      * left. split; [|done]. apply Forall_cons. split; [by right|done].
      * right. exists ((k, d) :: before), n, i, after, f. repeat split; try done.
        apply Forall_cons. split; [by right|done].
  - destruct IH as [[Hall Heq]|(before & n & i & after & f & -> & Hall & Hn & Hf)].
    + left. split; [|done]. apply Forall_cons. split; [by left|done].
    + right. exists ((k, d) :: before), n, i, after, f. repeat split; try done.
      apply Forall_cons. split; [by left|done].
Qed.

(** [firstItem] writes under its category only. *)
Lemma firstItem_lookup_ne category catMap result k :
  k ≠ category → firstItem category catMap result !! k = result !! k.
Proof.
  intros Hne. induction catMap as [|[n d] rest IH]; simpl; [done|].
  destruct (strings.HasPrefix n "item"); simpl; [|done].
  destruct (formatOf d); [|done].
  destruct (0 <? length _); [|done]. by apply lookup_insert_ne.
Qed.

(** The first member with the prefix and a format string is determined by
    the members. *)
Lemma first_format_unique before n d after f before' n' d' after' f' :
  before ++ (n, d) :: after = before' ++ (n', d') :: after' →
  Forall (λ m, strings.HasPrefix m.1 "item" = false ∨ formatOf m.2 = None) before →
  Forall (λ m, strings.HasPrefix m.1 "item" = false ∨ formatOf m.2 = None) before' →
  strings.HasPrefix n "item" = true → formatOf d = Some f →
  strings.HasPrefix n' "item" = true → formatOf d' = Some f' →
  f' = f.
Proof.
  intros Heq Hall Hall' Hn Hf Hn' Hf'. revert before' Heq Hall'.
  induction Hall as [|[k x] before Hkx _ IH]; intros before' Heq Hall'.
  - destruct before' as [|[k' x'] before']; simplify_eq/=; [congruence|].
    apply Forall_cons in Hall' as [[?|?] _]; simpl in *; congruence.
  - destruct before' as [|[k' x'] before']; simplify_eq/=.
    + destruct Hkx; simpl in *; congruence.
    + apply Forall_cons in Hall' as [_ Hall']. by apply (IH before').
Qed.

(** What the loader leaves under a category whose members are [catMap]. *)
Lemma firstItem_lookup category catMap fields :
  firstItem category catMap ∅ !! category = Some fields ↔
  ∃ before itemName itemData after formatStr,
    catMap = before ++ (itemName, itemData) :: after ∧
    Forall (λ m, strings.HasPrefix m.1 "item" = false ∨ formatOf m.2 = None) before ∧
    strings.HasPrefix itemName "item" = true ∧
    formatOf itemData = Some formatStr ∧
    fields = parseParts (strings.Split formatStr ";") [] ∧ fields ≠ [].
Proof.
  destruct (firstItem_cases category catMap ∅)
    as [[Hall Heq]|(before & n & d & after & f & -> & Hall & Hn & Hf)].
  - rewrite Heq, lookup_empty. split; [done|].
    intros (b & n & d & a & f & -> & _ & Hn & Hf & _).
    apply Forall_app in Hall as [_ Hall].
    apply Forall_cons in Hall as [[Hn'|Hf'] _]; simpl in *; congruence.
  - rewrite (firstItem_at category before n d after f ∅ Hall Hn Hf). cbv zeta.
    destruct (parseParts (strings.Split f ";") []) as [|field rest] eqn:Hparts; simpl.
    + rewrite lookup_empty. split; [done|].
      intros (b' & n' & d' & a' & f' & Heq & Hall' & Hn' & Hf' & -> & Hne).
      rewrite (first_format_unique _ _ _ _ f _ _ _ _ f' Heq Hall Hall' Hn Hf Hn' Hf') in Hne.
      by rewrite Hparts in Hne.
    + rewrite lookup_insert_eq. split.
      * intros [= <-]. exists before, n, d, after, f. by rewrite Hparts.
      * intros (b' & n' & d' & a' & f' & Heq & Hall' & Hn' & Hf' & -> & Hne).
        rewrite (first_format_unique _ _ _ _ f _ _ _ _ f' Heq Hall Hall' Hn Hf Hn' Hf').
        by rewrite Hparts.
Qed.

Lemma firstItem_lookup_same category catMap result :
  firstItem category catMap result !! category =
    match firstItem category catMap ∅ !! category with
    | Some fields => Some fields
    | None => result !! category
    end.
Proof.
  induction catMap as [|[n d] rest IH]; simpl; [by rewrite lookup_empty|].
  destruct (strings.HasPrefix n "item"); simpl; [|done].
  destruct (formatOf d); [|done].
  destruct (0 <? length _); [|by rewrite lookup_empty].
  by rewrite !lookup_insert_eq.
Qed.

Lemma categoryLoop_lookup definitions result category :
  NoDup definitions.*1 →
  (category ∉ definitions.*1 →
   categoryLoop definitions result !! category = result !! category) ∧
  (∀ catData, (category, catData) ∈ definitions →
     categoryLoop definitions result !! category =
       match asObject catData with
       | Some catMap =>
           match firstItem category catMap ∅ !! category with
           | Some fields => Some fields
           | None => result !! category
           end
       | None => result !! category
       end).
Proof.
  revert result. induction definitions as [|[c d] rest IH]; intros result Hdup.
  { split; [done|]. intros catData Hin. by apply elem_of_nil in Hin. }
  rewrite fmap_cons in Hdup. apply NoDup_cons in Hdup as [Hc Hdup]. simpl in Hc.
  simpl categoryLoop. split.
  - rewrite fmap_cons, not_elem_of_cons. simpl. intros [Hne Hnot].
    destruct (asObject d) as [catMap|].
    + rewrite (proj1 (IH _ Hdup) Hnot). by apply firstItem_lookup_ne.
    + by rewrite (proj1 (IH _ Hdup) Hnot).
  - intros catData [Heq|Hin]%elem_of_cons.
    + simplify_eq. destruct (asObject d) as [catMap|].
      * rewrite (proj1 (IH _ Hdup) Hc). apply firstItem_lookup_same.
      * by rewrite (proj1 (IH _ Hdup) Hc).
    + assert (category ≠ c) as Hne.
      { intros ->. apply Hc. apply list_elem_of_fmap. by exists (c, catData). }
      destruct (asObject d) as [catMap'|];
        rewrite (proj2 (IH _ Hdup) catData Hin); [|done].
      by rewrite (firstItem_lookup_ne c catMap' result category Hne).
Qed.

(** C9, amended: the loader returns a registry whenever the definitions
    were fetched, and a category is in it exactly when the first member of
    the category, in the order of the range, that has the item prefix and
    a format string yields a field; the category's schema is made of the
    parts of that format string that parse to a descriptor with a name, in
    their order, the other parts being left out one by one. *)
Theorem LoadFieldDefinitions_first_item (definitions : list (string * any)) :
  NoDup definitions.*1 →
  ∃ registry,
    LoadFieldDefinitions (Ok definitions) = Ok registry ∧
    (∀ category fields,
       registry !! category = Some fields ↔
       ∃ catData catMap before itemName itemData after formatStr,
         (category, catData) ∈ definitions ∧
         asObject catData = Some catMap ∧
         catMap = before ++ (itemName, itemData) :: after ∧
         Forall (λ m, strings.HasPrefix m.1 "item" = false ∨ formatOf m.2 = None) before ∧
         strings.HasPrefix itemName "item" = true ∧
         formatOf itemData = Some formatStr ∧
         fields = parseParts (strings.Split formatStr ";") [] ∧ fields ≠ []) ∧
    (∀ formatParts,
       parseParts formatParts [] =
       omap (λ part, match parseFormatField part with
                     | Ok field => if String.eqb (Name field) "" then None else Some field
                     | Err _ => None
                     end) formatParts).
Proof.
  intros Hdup. exists (categoryLoop definitions ∅). split; [done|]. split.
  - intros category fields.
    pose proof (categoryLoop_lookup definitions ∅ category Hdup) as [Hout Hin].
    split.
    + intros Hl. destruct (decide (category ∈ definitions.*1)) as [Hk|Hk].
      * apply list_elem_of_fmap in Hk as ([c catData] & -> & Hk). simpl in *.
        rewrite (Hin catData Hk) in Hl.
        destruct (asObject catData) as [catMap|] eqn:Hobj; [|by rewrite lookup_empty in Hl].
        destruct (firstItem c catMap ∅ !! c) as [fields'|] eqn:Hfirst;
          [|by rewrite lookup_empty in Hl].
        simplify_eq. apply firstItem_lookup in Hfirst
          as (before & n & d & after & f & ? & ? & ? & ? & ? & ?).
        exists catData, catMap, before, n, d, after, f. by repeat split.
      * by rewrite (Hout Hk), lookup_empty in Hl.
    + intros (catData & catMap & before & n & d & after & f & Hk & Hobj & Hrest).
      rewrite (Hin catData Hk), Hobj.
      assert (firstItem category catMap ∅ !! category = Some fields) as ->; [|done].
      apply firstItem_lookup. by exists before, n, d, after, f.
  - intros formatParts. apply parseParts_omap.
Qed.

(** * The properties on the fixtures of the tests *)

Lemma fieldBody_publishes_iff_changed_witness :
  let b' := final (fieldBody strconv.ParseFloat_plain MockMQTT "blinds" "item0" position "50"
                             {| itemData := ∅; hasChanges := false |} (testBridge [position])) in
  mqtt b' = [Publish "TestGekko/blinds/item0/get/position" (VInt 50)] ∧
  history b' = <["blinds/item0/position" := VInt 50]> ∅.
Proof.
  apply (proj1 (fieldBody_publishes_iff_changed strconv.ParseFloat_plain MockMQTT
                  "blinds" "item0" position "50" (VInt 50)
                  {| itemData := ∅; hasChanges := false |} (testBridge [position])
                  ltac:(discriminate) ltac:(discriminate) ltac:(discriminate) eq_refl)).
  left. reflexivity.
Defined.

(** C2 as stated fails: with two descriptors of one name, the second call
    on the same value string publishes both fields and the document
    again. *)
Lemma processItem_twice_duplicate_names :
  let b := testBridge [position; position] in
  let sumstate := VObject [("value", VString "1;2")] in
  let run := processItem strconv.ParseFloat_plain MockMQTT clock_1700000000
                         "blinds" "item0" sumstate in
  ∃ b1 b2,
    run b = Return tt b1 ∧ run b1 = Return tt b2 ∧
    length (published b1) = 2 ∧ length (jsonPublished b1) = 1 ∧
    length (published b2) = 4 ∧ length (jsonPublished b2) = 2.
Proof.
  cbv zeta. eexists _, _.
  split; [vm_compute; reflexivity|].
  split; [vm_compute; reflexivity|].
  repeat split; vm_compute; reflexivity.
Qed.

(** A value that is not equal to itself is published again too: a float
    field whose token reads as a NaN. *)
Example processItem_twice_nan :
  let b := testBridge [level] in
  let sumstate := VObject [("value", VString "NaN")] in
  let run := processItem strconv.ParseFloat_plain MockMQTT clock_1700000000
                         "blinds" "item0" sumstate in
  ∃ b1 b2,
    run b = Return tt b1 ∧ run b1 = Return tt b2 ∧
    length (published b1) = 1 ∧ length (published b2) = 2 ∧
    length (jsonPublished b2) = 2.
Proof.
  cbv zeta. eexists _, _.
  split; [vm_compute; reflexivity|].
  split; [vm_compute; reflexivity|].
  repeat split; vm_compute; reflexivity.
Qed.

Lemma processItem_twice_witness :
  let b := testBridge [position] in
  let sumstate := VObject [("value", VString "50")] in
  let run := processItem strconv.ParseFloat_plain MockMQTT clock_1700000000
                         "blinds" "item0" sumstate in
  run (final (run b)) = Return tt (final (run b)).
Proof.
  cbv zeta.
  apply (processItem_twice strconv.ParseFloat_plain MockMQTT clock_1700000000
           "blinds" "item0" (VObject [("value", VString "50")]) (testBridge [position])).
  - vm_compute. reflexivity.
  - intros fields Hf. vm_compute in Hf. injection Hf as <-.
    apply (bool_decide_unpack _). vm_compute. exact I.
  - intros members valueStr fields j field rawValue value Hs Hv Hf Hj Hr Hd.
    injection Hs as <-. vm_compute in Hv. injection Hv as <-.
    vm_compute in Hf. injection Hf as <-.
    destruct j as [|j]; [|destruct j; discriminate Hj].
    injection Hj as <-. vm_compute in Hr. injection Hr as <-.
    destruct Hd as (_ & _ & _ & Hc). vm_compute in Hc. injection Hc as <-.
    discriminate.
Defined.


Lemma fieldLoop_positional_witness :
  let run values :=
    fieldLoop strconv.ParseFloat_plain MockMQTT "blinds" "item0" values 0
              [position; reserved; angle] {| itemData := ∅; hasChanges := false |}
              (testBridge [position; reserved; angle]) in
  run (["50"; "reserved"; "45.5"] ++ ["7"]) = run ["50"; "reserved"; "45.5"] ∧
  published (final (run ["50"; "reserved"; "45.5"])) =
    [("TestGekko/blinds/item0/get/position", VInt 50);
     ("TestGekko/blinds/item0/get/angle", VFloat64 (S754_finite false 6403555720167424 (-47)))].
Proof.
  cbv zeta. split.
  - apply (proj1 (proj2 (fieldLoop_positional strconv.ParseFloat_plain MockMQTT
             "blinds" "item0" ["50"; "reserved"; "45.5"] [position; reserved; angle]
             {| itemData := ∅; hasChanges := false |}
             (testBridge [position; reserved; angle])))).
    simpl. lia.
  - vm_compute. reflexivity.
Defined.

Lemma handleSetCommand_routes_witness :
  let b := testBridge [position] in
  handleSetCommand MockGekko_set "root/blinds/item0/set" (list_byte_of_string "P50") b =
    Return tt (set_gekko [SetValue "blinds" "item0" "P50"] b) ∧
  handleSetCommand MockGekko_set "root/set" (list_byte_of_string "P50") b = Exit 8 b.
Proof.
  cbv zeta. split.
  - apply (proj1 (proj2 (proj2 (handleSetCommand_routes MockGekko_set
             "root/blinds/item0/set" (list_byte_of_string "P50") (testBridge [position]))))
             "root" "blinds" "item0" "set"); reflexivity.
  - apply (proj2 (proj2 (proj2 (handleSetCommand_routes MockGekko_set
             "root/set" (list_byte_of_string "P50") (testBridge [position]))))
             "root"). reflexivity.
Defined.

Lemma processItem_passes_over_witness :
  processItem strconv.ParseFloat_plain MockMQTT clock_1700000000 "unknown" "item0"
              (VObject [("value", VString "50")]) (testBridge [position])
    = Return tt (testBridge [position]).
Proof.
  apply processItem_passes_over. left. reflexivity.
Defined.

(** C9 as stated fails: a later member with a format string that yields a
    field does not bring its category into the registry when an earlier
    member has a format string that yields none. *)
Lemma LoadFieldDefinitions_later_item_ignored :
  let members := [("item0", itemOf "format" "reserved");
                  ("item1", itemOf "format" "position int[0,100]")] in
  let definitions := [("blinds", VObject members)] in
  NoDup definitions.*1 ∧ NoDup members.*1 ∧
  (∃ registry,
     LoadFieldDefinitions (Ok definitions) = Ok registry ∧
     registry !! "blinds" = None) ∧
  (∃ itemName itemData formatStr,
     (itemName, itemData) ∈ members ∧
     strings.HasPrefix itemName "item" = true ∧
     formatOf itemData = Some formatStr ∧
     parseParts (strings.Split formatStr ";") [] = [position]).
Proof.
  cbv zeta. split; [|split; [|split]].
  - apply (bool_decide_unpack _). vm_compute. exact I.
  - apply (bool_decide_unpack _). vm_compute. exact I.
  - eexists. split; [reflexivity|]. vm_compute. reflexivity.
  - exists "item1", (itemOf "format" "position int[0,100]"), "position int[0,100]".
    split; [|by vm_compute].
    apply list_elem_of_further, list_elem_of_here.
Qed.

Lemma LoadFieldDefinitions_first_item_witness :
  ∃ registry,
    LoadFieldDefinitions
      (Ok [("blinds", VObject [("group0", VObject []);
                               ("item0", itemOf "format"
                                  "position int[0,100];bad;;angle float[0,90];spare null[]")]);
           ("alarm", VObject [("item0", itemOf "format" "bad")])]) = Ok registry ∧
    registry !! "blinds" = Some [position; angle; {| Name := "spare"; Type_ := "" |}].
Proof.
  destruct (LoadFieldDefinitions_first_item
              [("blinds", VObject [("group0", VObject []);
                                   ("item0", itemOf "format"
                                      "position int[0,100];bad;;angle float[0,90];spare null[]")]);
               ("alarm", VObject [("item0", itemOf "format" "bad")])])
    as (registry & Hload & Hiff & _).
  { apply (bool_decide_unpack _). vm_compute. exact I. }
  exists registry. split; [exact Hload|].
  apply Hiff.
  exists (VObject [("group0", VObject []);
                   ("item0", itemOf "format"
                      "position int[0,100];bad;;angle float[0,90];spare null[]")]),
         [("group0", VObject []);
          ("item0", itemOf "format" "position int[0,100];bad;;angle float[0,90];spare null[]")],
         [("group0", VObject [])], "item0",
         (itemOf "format" "position int[0,100];bad;;angle float[0,90];spare null[]"),
         [], "position int[0,100];bad;;angle float[0,90];spare null[]".
  split; [apply list_elem_of_here|].
  split; [reflexivity|]. split; [reflexivity|].
  split; [constructor; [left; reflexivity|constructor]|].
  split; [reflexivity|]. split; [reflexivity|].
  split; [vm_compute; reflexivity|discriminate].
Defined.

(** * Further properties of the bridge *)

Section BridgeMore.

Context (ParseFloat : string → option float64).
Context (mqtt_err : list MqttCall → MqttCall → bool).
Context (unix_now : list MqttCall → Z).
Context (gekko_status : list GekkoCall → list string → result (list (string * any))).
Context (gekko_set_err : list GekkoCall → GekkoCall → bool).
Context (int64_overflow : float64 → Z).

(** ** What the polling side never does *)

Lemma polling_same {A} b (o : outcome A) :
  final o = b → match o with Exit _ _ => False | _ => True end → polling b o.
Proof.
  intros <- Hret. split; [done|]. split; [done|]. split; [|split].
  - exists []. split; [by rewrite app_nil_r|constructor].
  - exists []. by rewrite app_nil_r.
  - by destruct o.
Qed.

Lemma polling_exit {A} b (code : Z) :
  code ∈ [5; 6; 11]%Z → polling b (Exit code b : outcome A).
Proof.
  intros Hcode. split; [done|]. split; [done|]. split; [|split; [|done]].
  - exists []. split; [by rewrite app_nil_r|constructor].
  - exists []. by rewrite app_nil_r.
Qed.

Lemma polling_bind {A B} b (m : Run A) (f : A → Run B) :
  polling b (m b) →
  (∀ a b1, m b = Return a b1 → polling b1 (f a b1)) →
  polling b ((m ≫= f) b).
Proof.
  unfold mbind, Run_bind. intros Hm Hf.
  destruct (m b) as [a b1|code b1]; [|done].
  destruct Hm as (Hn & Hd & (calls & Hm & Hp) & (cats & Hg) & _). simpl in *.
  destruct (Hf a b1 eq_refl) as (Hn' & Hd' & (calls' & Hm' & Hp') & (cats' & Hg') & Hc').
  split; [congruence|]. split; [congruence|]. split; [|split].
  - exists (calls ++ calls'). split; [by rewrite Hm', Hm, <-(assoc_L (++))|].
    by apply Forall_app.
  - exists (cats ++ cats'). by rewrite Hg', Hg, fmap_app, <-(assoc_L (++)).
  - by destruct (f a b1).
Qed.

Lemma polling_publish {A} b (call : MqttCall) (f : bool → Run A) :
  isPublish call →
  (∀ b1, polling b1 (f false b1)) →
  (∀ b1, f true b1 = Exit 6 b1) →
  polling b ((mqttCall mqtt_err call ≫= f) b).
Proof.
  intros Hcall Hok Hfail. apply polling_bind.
  - split; [done|]. split; [done|]. split; [|split; [|done]]; simpl.
    + exists [call]. split; [done|]. by apply Forall_singleton.
    + exists []. by rewrite app_nil_r.
  - intros [] b1 _; [|apply Hok]. rewrite Hfail. apply polling_exit. set_solver.
Qed.

Lemma fieldBody_polling category item field rawValue l b :
  polling b (fieldBody ParseFloat mqtt_err category item field rawValue l b).
Proof.
  destruct (decodes_or_not ParseFloat field rawValue) as [[value (Hn & Ht & Hr & Hc)]|Hno].
  - rewrite (fieldBody_decoded ParseFloat mqtt_err category item field rawValue value l b
               Hn Ht Hr Hc). cbv zeta.
    destruct (unchanged _ _ _); [by apply polling_same|].
    assert (∀ o : outcome locals,
              final o = set_mqtt (mqtt b ++ [Publish (fieldTopic (gekkoName b) category item
                                                        (Name field)) value])
                          (set_history (<[histKeyOf category item (Name field) := value]>
                                          (history b)) b) →
              match o with Exit code _ => code = 6%Z | _ => True end →
              polling b o) as Hstep.
    { intros o Ho Hcode. split; [by rewrite Ho|]. split; [by rewrite Ho|].
      split; [|split].
      - rewrite Ho. eexists. split; [done|]. by apply Forall_singleton.
      - rewrite Ho. exists []. by rewrite app_nil_r.
      - destruct o; [done|]. subst. set_solver. }
    by destruct (mqtt_err _ _); apply Hstep.
  - rewrite (fieldBody_undecoded ParseFloat mqtt_err _ _ _ _ _ _ Hno).
    destruct (convert _ _ _); try by apply polling_same.
    destruct (_ || _); [by apply polling_same|]. apply polling_exit. set_solver.
Qed.

Lemma fieldLoop_polling category item values i fields l b :
  polling b (fieldLoop ParseFloat mqtt_err category item values i fields l b).
Proof.
  revert i l b. induction fields as [|field rest IH]; intros i l b.
  { by apply polling_same. }
  simpl. destruct (values !! i) as [rawValue|]; [|by apply polling_same].
  apply polling_bind; [apply fieldBody_polling|]. intros l1 b1 _. apply IH.
Qed.

Lemma publishItem_polling category item l b :
  polling b (publishItem mqtt_err unix_now category item l b).
Proof.
  unfold publishItem. destruct (_ && _); [|by apply polling_same].
  unfold timeNow. apply polling_bind; [by apply polling_same|]. intros now b1 _.
  apply polling_bind; [by apply polling_same|]. intros name b2 _.
  apply polling_publish; [done| |done]. intros b3. by apply polling_same.
Qed.

Lemma processItem_polling category item sumstate b :
  polling b (processItem ParseFloat mqtt_err unix_now category item sumstate b).
Proof.
  unfold processItem.
  destruct (asObject sumstate) as [sumstateMap|]; [|by apply polling_same].
  destruct (member "value" sumstateMap ≫= asString) as [valueStr|]; [|by apply polling_same].
  apply polling_bind; [by apply polling_same|]. intros defs b1 _.
  destruct (defs !! category) as [fields|]; [|by apply polling_same].
  apply polling_bind; [apply fieldLoop_polling|]. intros l b2 _.
  apply publishItem_polling.
Qed.

Lemma itemsLoop_polling category catMap b :
  polling b (itemsLoop ParseFloat mqtt_err unix_now category catMap b).
Proof.
  revert b. induction catMap as [|[item data] rest IH]; intros b; simpl.
  { by apply polling_same. }
  apply polling_bind; [|intros _ b1 _; apply IH].
  destruct (strings.HasPrefix item "group"); [by apply polling_same|].
  destruct (asObject data) as [itemMap|]; [|by apply polling_same].
  destruct (member "sumstate" itemMap) as [sumstate|]; [|by apply polling_same].
  apply processItem_polling.
Qed.

Lemma pollCategory_polling category b :
  polling b (pollCategory ParseFloat mqtt_err unix_now gekko_status category b).
Proof.
  unfold pollCategory. apply polling_bind.
  - split; [done|]. split; [done|]. split; [|split; [|done]]; simpl.
    + exists []. split; [by rewrite app_nil_r|constructor].
    + by exists [category].
  - intros [status|msg] b1 _.
    + destruct (member category status) as [catData|]; [|by apply polling_same].
      destruct (asObject catData) as [catMap|]; [|by apply polling_same].
      apply polling_bind; [apply itemsLoop_polling|]. intros _ b2 _.
      unfold timeNow. apply polling_bind; [by apply polling_same|]. intros now b3 _.
      apply polling_bind; [by apply polling_same|]. intros name b4 _.
      apply polling_publish; [done| |done]. intros b5. by apply polling_same.
    + apply polling_exit. set_solver.
Qed.

Lemma pollCategories_polling categories b :
  polling b (pollCategories ParseFloat mqtt_err unix_now gekko_status categories b).
Proof.
  revert b. induction categories as [|category rest IH]; intros b; simpl.
  { by apply polling_same. }
  apply polling_bind; [apply pollCategory_polling|]. intros _ b1 _. apply IH.
Qed.

Lemma pollTier_polling categories b :
  polling b (pollTier ParseFloat mqtt_err unix_now gekko_status categories b).
Proof.
  unfold pollTier. destruct (0 <? length categories); [apply pollCategories_polling|].
  by apply polling_same.
Qed.

Lemma poll_polling round b :
  polling b (poll ParseFloat mqtt_err unix_now gekko_status round b).
Proof.
  unfold poll. apply polling_bind; [by apply polling_same|]. intros c b1 _.
  apply polling_bind; [apply pollTier_polling|]. intros _ b2 _.
  destruct (_ <=? _)%Z; [|by apply polling_same].
  apply polling_bind; [apply pollTier_polling|]. intros _ b3 _. by apply polling_same.
Qed.

Lemma tickLoop_polling ticks round b :
  polling b (tickLoop ParseFloat mqtt_err unix_now gekko_status ticks round b).
Proof.
  revert round b. induction ticks as [|ticks IH]; intros round b; simpl.
  { by apply polling_same. }
  apply polling_bind; [apply poll_polling|]. intros round' b1 _. apply IH.
Qed.

Lemma RunGetter_unfold ticks b :
  RunGetter ParseFloat mqtt_err unix_now gekko_status int64_overflow ticks b =
    let call := Publish (gekkoName b +:+ "/getter_online") (VString "true") in
    let b0 := set_mqtt (mqtt b ++ [call]) b in
    if mqtt_err (mqtt b) call then Ended (Exit 6 b0)
    else if (tickerDuration int64_overflow (cfg b) <=? 0)%Z then Panic b0
    else Ended ((poll ParseFloat mqtt_err unix_now gekko_status 0%Z
                 ≫= tickLoop ParseFloat mqtt_err unix_now gekko_status ticks) b0).
Proof.
  unfold RunGetter, getterOnline, mbind at 1 2, Run_bind at 1 2, get, mqttCall. cbv zeta.
  by destruct (mqtt_err _ _).
Qed.

(** X1: The polling side, however a run of it ends: its MQTT calls are
    publishes, the first of them the online marker and none a
    subscription; its calls on the device are status requests for a single
    category, never a write; the name and the schemas stay as they are. The
    run can end the process with the codes 5, 6 and 11 only, or by the
    panic of [time.NewTicker]: that happens exactly when the marker was
    published and the interval, in nanoseconds and converted to [int64], is
    not positive, and then before any poll, the marker being the only call
    made. *)
Theorem RunGetter_polls_only (ticks : nat) (b : Bridge) :
  let run := RunGetter ParseFloat mqtt_err unix_now gekko_status int64_overflow ticks b in
  let marker := Publish (gekkoName b +:+ "/getter_online") (VString "true") in
  let b' := match run with Panic b' => b' | Ended o => final o end in
  gekkoName b' = gekkoName b ∧
  fieldDef b' = fieldDef b ∧
  (∃ calls, mqtt b' = mqtt b ++ marker :: calls ∧ Forall isPublish calls) ∧
  (∃ categories, gekko b' = gekko b ++ ((λ c, GetStatus [c]) <$> categories)) ∧
  match run with
  | Ended (Return _ _) => True
  | Ended (Exit code _) => code ∈ [5; 6; 11]%Z
  | Panic _ => b' = set_mqtt (mqtt b ++ [marker]) b
  end ∧
  ((∃ b1, run = Panic b1) ↔
   mqtt_err (mqtt b) marker = false ∧ (tickerDuration int64_overflow (cfg b) ≤ 0)%Z).
Proof.
  cbv zeta. rewrite RunGetter_unfold. cbv zeta.
  set (call := Publish (gekkoName b +:+ "/getter_online") (VString "true")).
  set (b0 := set_mqtt (mqtt b ++ [call]) b).
  destruct (mqtt_err (mqtt b) call).
  { simpl. split; [done|]. split; [done|]. split; [|split; [|split]].
    - exists []. split; [done|]. constructor.
    - exists []. by rewrite app_nil_r.
    - set_solver.
    - split; [by intros [? ?]|by intros [? _]]. }
  destruct (Z.leb_spec (tickerDuration int64_overflow (cfg b)) 0) as [Hd|Hd].
  { simpl. split; [done|]. split; [done|]. split; [|split; [|split]].
    - exists []. split; [done|]. constructor.
    - exists []. by rewrite app_nil_r.
    - done.
    - split; [done|]. intros _. by exists b0. }
  assert (polling b0 ((poll ParseFloat mqtt_err unix_now gekko_status 0%Z
                        ≫= tickLoop ParseFloat mqtt_err unix_now gekko_status ticks) b0))
    as (Hn & Hdef & (calls & Hm & Hp) & (cats & Hg) & Hc).
  { apply polling_bind; [apply poll_polling|]. intros round b1 _. apply tickLoop_polling. }
  split; [done|]. split; [done|]. split; [|split; [|split]].
  - exists calls. split; [|done]. rewrite Hm. simpl. by rewrite <-(assoc_L (++)).
  - by exists cats.
  - exact Hc.
  - split; [by intros [? ?]|]. intros [_ ?]. lia.
Qed.

(** ** The codes of the decoder *)

Lemma exits_bind {A B} codes b (m : Run A) (f : A → Run B) :
  exits codes (m b) →
  (∀ a b1, m b = Return a b1 → exits codes (f a b1)) →
  exits codes ((m ≫= f) b).
Proof.
  unfold mbind, Run_bind. intros Hm Hf.
  destruct (m b) as [a b1|code b1]; [by apply Hf|done].
Qed.

Lemma fieldBody_exits category item field rawValue l b :
  exits [5; 6]%Z (fieldBody ParseFloat mqtt_err category item field rawValue l b).
Proof.
  unfold fieldBody. destruct (_ || _); [done|]. destruct (String.eqb rawValue ""); [done|].
  destruct (convert _ _ _) as [| |value]; [done|simpl; set_solver|].
  unfold mbind, Run_bind, get, put_history, mqttCall. simpl.
  destruct (unchanged _ _ _); [done|]. simpl.
  destruct (mqtt_err _ _); simpl; [set_solver|done].
Qed.

Lemma fieldLoop_exits category item values i fields l b :
  exits [5; 6]%Z (fieldLoop ParseFloat mqtt_err category item values i fields l b).
Proof.
  revert i l b. induction fields as [|field rest IH]; intros i l b; [done|].
  simpl. destruct (values !! i) as [rawValue|]; [|done].
  apply exits_bind; [apply fieldBody_exits|]. intros l1 b1 _. apply IH.
Qed.

Lemma publishItem_exits category item l b :
  exits [5; 6]%Z (publishItem mqtt_err unix_now category item l b).
Proof.
  unfold publishItem. destruct (_ && _); [|done].
  unfold mbind, Run_bind, timeNow, get, mqttCall. simpl.
  destruct (mqtt_err _ _); simpl; [set_solver|done].
Qed.

Lemma processItem_exits category item sumstate b :
  exits [5; 6]%Z (processItem ParseFloat mqtt_err unix_now category item sumstate b).
Proof.
  unfold processItem.
  destruct (asObject sumstate) as [sumstateMap|]; [|done].
  destruct (member "value" sumstateMap ≫= asString) as [valueStr|]; [|done].
  apply exits_bind; [done|]. intros defs b1 _.
  destruct (defs !! category) as [fields|]; [|done].
  apply exits_bind; [apply fieldLoop_exits|]. intros l b2 _. apply publishItem_exits.
Qed.

Lemma itemsLoop_exits category catMap b :
  exits [5; 6]%Z (itemsLoop ParseFloat mqtt_err unix_now category catMap b).
Proof.
  revert b. induction catMap as [|[item data] rest IH]; intros b; simpl; [done|].
  apply exits_bind; [|intros _ b1 _; apply IH].
  destruct (strings.HasPrefix item "group"); [done|].
  destruct (asObject data) as [itemMap|]; [|done].
  destruct (member "sumstate" itemMap) as [sumstate|]; [|done].
  apply processItem_exits.
Qed.

(** ** The timestamp of a category *)

Lemma pollCategory_unfold category b :
  pollCategory ParseFloat mqtt_err unix_now gekko_status category b =
    let b1 := set_gekko (gekko b ++ [GetStatus [category]]) b in
    match gekko_status (gekko b) [category] with
    | Err _ => Exit 11 b1
    | Ok status =>
        match member category status ≫= asObject with
        | None => Return tt b1
        | Some catMap =>
            match itemsLoop ParseFloat mqtt_err unix_now category catMap b1 with
            | Return _ b2 =>
                let call := Publish (timeTopic (gekkoName b2) category)
                                    (VInt64 (unix_now (mqtt b2))) in
                (if mqtt_err (mqtt b2) call then Exit 6 else Return tt)
                  (set_mqtt (mqtt b2 ++ [call]) b2)
            | Exit code b2 => Exit code b2
            end
        end
    end.
Proof.
  cbv zeta. unfold pollCategory, mbind at 1, Run_bind at 1, gekkoGetStatus.
  destruct (gekko_status (gekko b) [category]) as [status|msg]; [|done].
  destruct (member category status) as [catData|]; [|done]. simpl.
  destruct (asObject catData) as [catMap|]; [|done].
  unfold mbind, Run_bind.
  destruct (itemsLoop _ _ _ _ _ _) as [[] b2|code b2]; [|done].
  unfold timeNow, get, mqttCall. by destruct (mqtt_err _ _).
Qed.

Lemma pollCategory_outcome (category : string) (b : Bridge) :
  let o := pollCategory ParseFloat mqtt_err unix_now gekko_status category b in
  let b1 := set_gekko (gekko b ++ [GetStatus [category]]) b in
  match gekko_status (gekko b) [category] with
  | Err _ => o = Exit 11 b1
  | Ok status =>
      match member category status ≫= asObject with
      | None => o = Return tt b1
      | Some catMap =>
          match o with
          | Return _ b' =>
              ∃ calls,
                Forall isPublish calls ∧
                mqtt b' = mqtt b ++ calls ++
                  [Publish (timeTopic (gekkoName b) category)
                           (VInt64 (unix_now (mqtt b ++ calls)))]
          | Exit code _ => code ∈ [5; 6]%Z
          end
      end
  end.
Proof.
  cbv zeta. rewrite pollCategory_unfold. cbv zeta.
  destruct (gekko_status (gekko b) [category]) as [status|msg]; [|done].
  destruct (member category status ≫= asObject) as [catMap|]; [|done].
  set (b1 := set_gekko (gekko b ++ [GetStatus [category]]) b).
  pose proof (itemsLoop_polling category catMap b1) as (Hn & _ & (calls & Hm & Hp) & _).
  pose proof (itemsLoop_exits category catMap b1) as He.
  destruct (itemsLoop _ _ _ _ _ _) as [[] b2|code b2]; [|done]. simpl in *.
  rewrite Hn, Hm.
  destruct (mqtt_err _ _); simpl; [set_solver|].
  exists calls. split; [done|]. by rewrite <-(assoc_L (++)).
Qed.

(** X2: One category of a poll. When the device's answer is an error the
    process ends with code 11 and nothing is published. When the answer
    has no object under the category's name, nothing is published either,
    not even the timestamp, and the poll goes on. Otherwise the items are
    decoded and the category's timestamp is published after all of their
    publishes, with the time read at that moment; the process can then end
    with the codes 5 and 6 only. *)
Theorem pollCategory_timestamp (category : string) (b : Bridge) :
  let o := pollCategory ParseFloat mqtt_err unix_now gekko_status category b in
  let b1 := set_gekko (gekko b ++ [GetStatus [category]]) b in
  match gekko_status (gekko b) [category] with
  | Err _ => o = Exit 11 b1
  | Ok status =>
      match member category status ≫= asObject with
      | None => o = Return tt b1
      | Some catMap =>
          match o with
          | Return _ b' =>
              ∃ calls,
                Forall isPublish calls ∧
                mqtt b' = mqtt b ++ calls ++
                  [Publish (timeTopic (gekkoName b) category)
                           (VInt64 (unix_now (mqtt b ++ calls)))]
          | Exit code _ => code ∈ [5; 6]%Z
          end
      end
  end.
Proof. exact (pollCategory_outcome category b). Qed.

(** ** The calls of one item *)

(** The loop sets [hasChanges] only after it put an entry in the item's
    data. *)
Lemma fieldLoop_hasChanges category item values i fields l b l' b' :
  fieldLoop ParseFloat mqtt_err category item values i fields l b = Return l' b' →
  (hasChanges l = true → itemData l ≠ ∅) →
  hasChanges l' = true → itemData l' ≠ ∅.
Proof.
  revert i l b. induction fields as [|field rest IH]; intros i l b.
  { simpl. by intros [= <- <-]. }
  rewrite fieldLoop_cons.
  destruct (values !! i) as [rawValue|]; [|by intros [= <- <-]].
  destruct (fieldBody _ _ _ _ _ _ _ _) as [l1 b1|] eqn:Hbody; [|done].
  intros Hrest Hl. apply (IH _ _ _ Hrest).
  apply (fieldBody_Return_inv ParseFloat mqtt_err) in Hbody.
  destruct Hbody as [(_ & -> & ->)|(v & _ & -> & _)]; [done|].
  intros _. apply insert_non_empty.
Qed.

(** The publishes of the loop, each on the topic of a field that has an
    entry in the item's data. *)
Lemma fieldLoop_scalars category item values i fields l b l' b' :
  fieldLoop ParseFloat mqtt_err category item values i fields l b = Return l' b' →
  ∃ scalars : list (string * any),
    mqtt b' = mqtt b ++ ((λ p, Publish p.1 p.2) <$> scalars) ∧
    hasChanges l' = hasChanges l || bool_decide (scalars ≠ []) ∧
    Forall (λ p, ∃ field, p.1 = fieldTopic (gekkoName b) category item field ∧
                          is_Some (itemData l' !! field)) scalars.
Proof.
  revert i l b. induction fields as [|field rest IH]; intros i l b.
  { simpl. intros [= <- <-]. exists []. by rewrite app_nil_r, orb_false_r. }
  rewrite fieldLoop_cons.
  destruct (values !! i) as [rawValue|] eqn:Hi.
  2:{ intros [= <- <-]. exists []. by rewrite app_nil_r, orb_false_r. }
  destruct (fieldBody _ _ _ _ _ _ _ _) as [l1 b1|] eqn:Hbody; [|done].
  intros Hrest. destruct (IH _ _ _ Hrest) as (scalars & Hm & Hch & Hall).
  apply (fieldBody_Return_inv ParseFloat mqtt_err) in Hbody.
  destruct Hbody as [(_ & -> & ->)|(v & _ & Hdata & [(_ & -> & Hl)|(_ & -> & Hl)])].
  - by exists scalars.
  - exists scalars. by rewrite <-Hl.
  - simpl in Hm, Hall. rewrite <-(assoc_L (++)) in Hm.
    exists ((fieldTopic (gekkoName b) category item (Name field), v) :: scalars).
    split; [done|]. split.
    + rewrite Hch, Hl. simpl. by rewrite orb_true_r.
    + apply Forall_cons. split; [|done]. exists (Name field). split; [done|].
      apply (fieldLoop_itemData_mono ParseFloat mqtt_err _ _ _ _ _ _ _ _ _ _ Hrest).
      rewrite Hdata, lookup_insert_eq. eauto.
Qed.

(** The loop publishes no document, however it ends. *)
Lemma fieldLoop_no_document category item values i fields l b :
  jsonPublished (final (fieldLoop ParseFloat mqtt_err category item values i fields l b)) =
    jsonPublished b.
Proof.
  revert i l b. induction fields as [|field rest IH]; intros i l b; [done|].
  rewrite fieldLoop_cons. destruct (values !! i) as [rawValue|]; [|done].
  assert (jsonPublished (final (fieldBody ParseFloat mqtt_err category item field rawValue l b))
          = jsonPublished b) as Hbody.
  { destruct (decodes_or_not ParseFloat field rawValue) as [[value (Hn & Ht & Hr & Hc)]|Hno].
    - rewrite (fieldBody_decoded ParseFloat mqtt_err category item field rawValue value l b
                 Hn Ht Hr Hc). cbv zeta.
      destruct (unchanged _ _ _); [done|].
      assert (∀ b2, mqtt b2 = mqtt b ++ [Publish (fieldTopic (gekkoName b) category item
                                                    (Name field)) value] →
                    jsonPublished b2 = jsonPublished b) as Hstep.
      { intros b2 Hb2. unfold jsonPublished. rewrite Hb2, omap_app. simpl. by rewrite app_nil_r. }
      by destruct (mqtt_err _ _); apply Hstep.
    - rewrite (fieldBody_undecoded ParseFloat mqtt_err _ _ _ _ _ _ Hno).
      destruct (convert _ _ _); try done. by destruct (_ || _). }
  destruct (fieldBody _ _ _ _ _ _ _ _) as [l1 b1|code b1]; [|done].
  simpl in Hbody. by rewrite IH.
Qed.

(** X3: What one call of [processItem] puts on MQTT when it returns: the fields
    it publishes, each on the topic of a field of the item, and then, exactly
    when it published a field, one document on the item's [json] topic as
    its last call. The document has an entry for every published field and,
    under ["timestamp"], the time read after the last of them. So the
    guard on the size of the item's data never decides. When a token that
    does not convert ends the process with code 5, the fields before it have
    been published and no document was. *)
Theorem processItem_document_last (category item : string) (sumstate : any) (b : Bridge) :
  match processItem ParseFloat mqtt_err unix_now category item sumstate b with
  | Return _ b' =>
      ∃ (scalars : list (string * any)) (doc : option (gmap string any)),
        let fields := (λ p, Publish p.1 p.2) <$> scalars in
        mqtt b' = mqtt b ++ fields ++
                  option_list (PublishJSON (jsonTopicOf (gekkoName b) category item) <$> doc) ∧
        (is_Some doc ↔ scalars ≠ []) ∧
        ∀ d, doc = Some d →
          d !! "timestamp" = Some (VInt64 (unix_now (mqtt b ++ fields))) ∧
          Forall (λ p, ∃ field, p.1 = fieldTopic (gekkoName b) category item field ∧
                                is_Some (d !! field)) scalars
  | Exit code b' =>
      (code = 5%Z ∧ jsonPublished b' = jsonPublished b) ∨ code = 6%Z
  end.
Proof.
  assert (∀ b', mqtt b' = mqtt b →
            ∃ (scalars : list (string * any)) (doc : option (gmap string any)),
              let fields := (λ p, Publish p.1 p.2) <$> scalars in
              mqtt b' = mqtt b ++ fields ++
                        option_list (PublishJSON (jsonTopicOf (gekkoName b) category item) <$> doc) ∧
              (is_Some doc ↔ scalars ≠ []) ∧
              ∀ d, doc = Some d →
                d !! "timestamp" = Some (VInt64 (unix_now (mqtt b ++ fields))) ∧
                Forall (λ p, ∃ field, p.1 = fieldTopic (gekkoName b) category item field ∧
                                      is_Some (d !! field)) scalars) as Hnone.
  { intros b' Hb'. exists [], None. simpl. rewrite app_nil_r.
    split; [done|]. split; [|done]. split; [by intros [? ?]|done]. }
  unfold processItem.
  destruct (asObject sumstate) as [sumstateMap|]; [|by apply Hnone].
  destruct (member "value" sumstateMap ≫= asString) as [valueStr|]; [|by apply Hnone].
  unfold mbind, Run_bind, get.
  destruct (fieldDef b !! category) as [fields|]; [|by apply Hnone].
  pose proof (fieldLoop_no_document category item (strings.Split valueStr ";") 0 fields
                {| itemData := ∅; hasChanges := false |} b) as Hdoc.
  pose proof (fieldLoop_exits category item (strings.Split valueStr ";") 0 fields
                {| itemData := ∅; hasChanges := false |} b) as Hcode.
  destruct (fieldLoop _ _ _ _ _ _ _ _ b) as [l b1|code b1] eqn:Hloop.
  2:{ simpl in Hdoc, Hcode. set_solver. }
  clear Hdoc Hcode.
  pose proof (fieldLoop_static ParseFloat mqtt_err _ _ _ _ _ _ _ _ _ Hloop) as (_ & Hname & _).
  pose proof (fieldLoop_hasChanges _ _ _ _ _ _ _ _ _ Hloop) as Hdata. simpl in Hdata.
  destruct (fieldLoop_scalars _ _ _ _ _ _ _ _ _ Hloop) as (scalars & Hm & Hch & Hall).
  simpl in Hch. unfold publishItem.
  destruct (hasChanges l) eqn:Hc; simpl.
  - destruct (Nat.ltb_spec 0 (size (itemData l))) as [_|Hs].
    2:{ destruct Hdata; [done..|]. apply map_size_empty_iff. lia. }
    unfold mbind, Run_bind, timeNow, get, mqttCall. simpl. rewrite Hname, Hm.
    destruct (mqtt_err _ _); simpl; [by right|].
    exists scalars, (Some (<["timestamp" := VInt64 (unix_now (mqtt b ++ ((λ p, Publish p.1 p.2) <$> scalars)))]> (itemData l))).
    simpl. split; [by rewrite <-(assoc_L (++))|]. split.
    + split; [|by eauto]. intros _. by case_bool_decide.
    + intros d [= <-]. split; [by rewrite lookup_insert_eq|].
      eapply Forall_impl; [done|]. intros p (field & Hp & Hsome). exists field.
      split; [done|]. rewrite lookup_insert. case_decide; [eauto|done].
  - exists scalars, None. simpl. rewrite app_nil_r. split; [done|]. split; [|done].
    split; [by intros [? ?]|]. intros Hne. by case_bool_decide.
Qed.

(** ** The publishes of an item, from the history *)

Lemma decode_decodes field rawValue value :
  decode ParseFloat field rawValue = Some value ↔ decodes ParseFloat field rawValue value.
Proof.
  unfold decode, decodes.
  destruct (String.eqb_spec (Name field) ""); simpl; [naive_solver|].
  destruct (String.eqb_spec (Type_ field) ""); simpl; [naive_solver|].
  destruct (String.eqb_spec rawValue ""); simpl; [naive_solver|].
  destruct (convert _ _ _); naive_solver.
Qed.

Lemma decode_None field rawValue :
  decode ParseFloat field rawValue = None ↔ ∀ value, ¬ decodes ParseFloat field rawValue value.
Proof.
  split.
  - intros Hnone value Hd. apply decode_decodes in Hd. congruence.
  - intros Hno. destruct (decode _ _ _) as [value|] eqn:Hd; [|done].
    apply decode_decodes in Hd. by destruct (Hno value).
Qed.

(** Whether a field is published depends on the history under its key
    only. *)
Lemma changedField_frame name category item h h' p :
  (Name p.1 ≠ "" →
   h' !! histKeyOf category item (Name p.1) = h !! histKeyOf category item (Name p.1)) →
  changedField ParseFloat name category item h' p = changedField ParseFloat name category item h p.
Proof.
  intros Hkey. unfold changedField.
  destruct (decode ParseFloat p.1 p.2) as [value|] eqn:Hd; [|done]. simpl.
  apply decode_decodes in Hd as (Hn & _). unfold unchanged. by rewrite (Hkey Hn).
Qed.

Lemma omap_Forall_ext {A B} (f g : A → option B) (xs : list A) :
  Forall (λ x, f x = g x) xs → omap f xs = omap g xs.
Proof. induction 1 as [|x xs Hx _ IH]; [done|]. csimpl. by rewrite Hx, IH. Qed.

(** With descriptors of distinct names, the loop publishes the fields
    that differ from the history it started with. *)
Lemma fieldLoop_changed category item values i fields l b l' b' :
  NoDup (filter (λ n, n ≠ "") (Name <$> fields)) →
  fieldLoop ParseFloat mqtt_err category item values i fields l b = Return l' b' →
  mqtt b' = mqtt b ++
    ((λ p, Publish p.1 p.2) <$>
       omap (changedField ParseFloat (gekkoName b) category item (history b))
            (zip fields (drop i values))).
Proof.
  revert i l b. induction fields as [|field rest IH]; intros i l b Hdup.
  { simpl. intros [= <- <-]. by rewrite app_nil_r. }
  rewrite fieldLoop_cons.
  destruct (values !! i) as [rawValue|] eqn:Hi.
  2:{ intros [= <- <-]. apply lookup_ge_None in Hi. rewrite (drop_ge _ _ Hi).
      simpl. by rewrite app_nil_r. }
  rewrite (drop_S _ _ _ Hi).
  destruct (fieldBody _ _ _ _ _ _ _ _) as [l1 b1|] eqn:Hbody; [|done].
  intros Hrest.
  assert (NoDup (filter (λ n, n ≠ "") (Name <$> rest))) as Hdup'.
  { rewrite fmap_cons, filter_cons in Hdup.
    case_decide; [by apply NoDup_cons in Hdup as [_ ?]|done]. }
  rewrite (IH _ _ _ Hdup' Hrest). simpl zip. simpl omap.
  apply (fieldBody_Return_inv ParseFloat mqtt_err) in Hbody. cbv zeta in Hbody.
  destruct Hbody as [(Hno & -> & ->)|(v & Hd & _ & [(Hun & -> & _)|(Hun & -> & _)])].
  - unfold changedField at 2. simpl. by rewrite (proj2 (decode_None field rawValue) Hno).
  - unfold changedField at 2. simpl. rewrite (proj2 (decode_decodes field rawValue v) Hd).
    simpl. by rewrite Hun.
  - unfold changedField at 2. simpl. rewrite (proj2 (decode_decodes field rawValue v) Hd).
    simpl. rewrite Hun. simpl. rewrite <-(assoc_L (++)). do 3 f_equal.
    apply omap_Forall_ext, Forall_forall. intros [f r] Hin.
    apply changedField_frame. simpl. intros Hn.
    apply lookup_insert_ne. intros Hkey. apply histKeyOf_inj in Hkey.
    destruct Hd as (Hfield & _).
    rewrite fmap_cons, filter_cons in Hdup. case_decide; [|done].
    apply NoDup_cons in Hdup as [Hnot _]. apply Hnot.
    apply list_elem_of_filter. split; [done|]. rewrite Hkey.
    apply list_elem_of_fmap. exists f. split; [done|]. by apply elem_of_zip_l in Hin.
Qed.

(** X4: The fields that one call of [processItem] publishes, when the named
    descriptors of the schema have distinct names and the call returns:
    position by position, the tokens that decode to a value that the
    history does not hold under the field's key, as the history was before
    the call. On a history without entries for the item, these are all the
    tokens that decode. *)
Theorem processItem_publishes_changed
    (category item : string) (members : list (string * any)) (valueStr : string)
    (fields : list FieldDef) (b b' : Bridge) :
  member "value" members = Some (VString valueStr) →
  fieldDef b !! category = Some fields →
  NoDup (filter (λ n, n ≠ "") (Name <$> fields)) →
  processItem ParseFloat mqtt_err unix_now category item (VObject members) b = Return tt b' →
  let pairs := zip fields (strings.Split valueStr ";") in
  published b' =
    published b ++ omap (changedField ParseFloat (gekkoName b) category item (history b)) pairs ∧
  ((∀ name, history b !! histKeyOf category item name = None) →
   published b' =
     published b ++
     omap (λ p, value ← decode ParseFloat p.1 p.2;
                Some (fieldTopic (gekkoName b) category item (Name p.1), value)) pairs).
Proof.
  intros Hv Hf Hdup Hrun. cbv zeta.
  assert (published b' =
            published b ++ omap (changedField ParseFloat (gekkoName b) category item (history b))
                                (zip fields (strings.Split valueStr ";"))) as Hpub.
  { rewrite (processItem_unfold ParseFloat mqtt_err unix_now _ _ _ _ _ _ Hv Hf) in Hrun.
    destruct (fieldLoop _ _ _ _ _ _ _ _ b) as [l b1|] eqn:Hloop; [|done].
    pose proof (fieldLoop_changed _ _ _ _ _ _ _ _ _ Hdup Hloop) as Hm. rewrite drop_0 in Hm.
    assert (published b1 =
              published b ++ omap (changedField ParseFloat (gekkoName b) category item (history b))
                                  (zip fields (strings.Split valueStr ";"))) as <-.
    { unfold published. rewrite Hm, omap_app. f_equal.
      generalize (omap (changedField ParseFloat (gekkoName b) category item (history b))
                       (zip fields (strings.Split valueStr ";"))).
      intros ps. induction ps as [|[t v] ps IH]; [done|]. csimpl. by rewrite IH. }
    unfold publishItem in Hrun. destruct (_ && _); [|by injection Hrun as <-].
    unfold mbind, Run_bind, timeNow, get, mqttCall in Hrun. simpl in Hrun.
    destruct (mqtt_err _ _); [done|]. injection Hrun as <-.
    unfold published. simpl. rewrite omap_app. simpl. by rewrite app_nil_r. }
  split; [done|]. intros Hnew. rewrite Hpub. f_equal.
  apply omap_Forall_ext, Forall_forall. intros [f r] _. unfold changedField, unchanged. simpl.
  destruct (decode ParseFloat f r) as [value|]; [|done]. simpl. by rewrite Hnew.
Qed.

(** ** The history of an item *)

(** A key names its category, item and field when the category and the
    item have no slash. *)
Lemma histKeyOf_inj3 category item name category' item' name' :
  strings.Index category "/" = None → strings.Index category' "/" = None →
  strings.Index item "/" = None → strings.Index item' "/" = None →
  histKeyOf category item name = histKeyOf category' item' name' →
  category = category' ∧ item = item' ∧ name = name'.
Proof.
  intros Hc Hc' Hi Hi' Hkey. unfold histKeyOf in Hkey.
  rewrite !strings_facts.app_single in Hkey.
  pose proof (strings_facts.Cut_app category (item +:+ String "/" name) "/" Hc) as Hcut.
  rewrite Hkey, (strings_facts.Cut_app category' _ "/" Hc') in Hcut.
  injection Hcut as -> Hrest. split; [done|].
  pose proof (strings_facts.Cut_app item name "/" Hi) as Hcut.
  rewrite <-Hrest, (strings_facts.Cut_app item' _ "/" Hi') in Hcut.
  by injection Hcut as -> ->.
Qed.

Lemma fieldBody_history_local category item field rawValue l b key :
  let b' := final (fieldBody ParseFloat mqtt_err category item field rawValue l b) in
  history b' !! key = history b !! key ∨
  (key = histKeyOf category item (Name field) ∧ is_Some (history b' !! key)).
Proof.
  cbv zeta.
  destruct (decodes_or_not ParseFloat field rawValue) as [[value (Hn & Ht & Hr & Hc)]|Hno].
  - rewrite (fieldBody_decoded ParseFloat mqtt_err category item field rawValue value l b
               Hn Ht Hr Hc). cbv zeta.
    destruct (unchanged _ _ _); [by left|].
    assert (∀ b2, history b2 = <[histKeyOf category item (Name field) := value]> (history b) →
              history b2 !! key = history b !! key ∨
              (key = histKeyOf category item (Name field) ∧ is_Some (history b2 !! key)))
      as Hstep.
    { intros b2 ->. destruct (decide (key = histKeyOf category item (Name field))) as [->|Hne].
      - right. rewrite lookup_insert_eq. eauto.
      - left. by apply lookup_insert_ne. }
    by destruct (mqtt_err _ _); apply Hstep.
  - rewrite (fieldBody_undecoded ParseFloat mqtt_err _ _ _ _ _ _ Hno).
    destruct (convert _ _ _); try by left. destruct (_ || _); by left.
Qed.

Lemma fieldLoop_history_local category item values i fields l b key :
  let b' := final (fieldLoop ParseFloat mqtt_err category item values i fields l b) in
  history b' !! key = history b !! key ∨
  ((∃ name, key = histKeyOf category item name) ∧ is_Some (history b' !! key)).
Proof.
  cbv zeta. revert i l b. induction fields as [|field rest IH]; intros i l b; [by left|].
  rewrite fieldLoop_cons. destruct (values !! i) as [rawValue|]; [|by left].
  pose proof (fieldBody_history_local category item field rawValue l b key) as Hbody.
  cbv zeta in Hbody.
  destruct (fieldBody _ _ _ _ _ _ _ _) as [l1 b1|code b1]; simpl in Hbody.
  - destruct (IH (S i) l1 b1) as [Hsame|Hset]; [|by right].
    rewrite Hsame. destruct Hbody as [?|[-> ?]]; [by left|]. right. eauto.
  - destruct Hbody as [?|[-> ?]]; [by left|]. right. eauto.
Qed.

Lemma processItem_history_keys category item sumstate b key :
  let b' := final (processItem ParseFloat mqtt_err unix_now category item sumstate b) in
  history b' !! key = history b !! key ∨
  ((∃ name, key = histKeyOf category item name) ∧ is_Some (history b' !! key)).
Proof.
  cbv zeta. unfold processItem.
  destruct (asObject sumstate) as [sumstateMap|]; [|by left].
  destruct (member "value" sumstateMap ≫= asString) as [valueStr|]; [|by left].
  unfold mbind, Run_bind, get.
  destruct (fieldDef b !! category) as [fields|]; [|by left].
  pose proof (fieldLoop_history_local category item (strings.Split valueStr ";") 0 fields
                {| itemData := ∅; hasChanges := false |} b key) as Hloop. cbv zeta in Hloop.
  destruct (fieldLoop _ _ _ _ _ _ _ _ b) as [l1 b1|code b1]; simpl in Hloop; [|done].
  pose proof (publishItem_static mqtt_err unix_now category item l1 b1) as (Hh & _).
  by rewrite Hh.
Qed.

Lemma processItem_history_other category item sumstate b category' item' name :
  strings.Index category "/" = None → strings.Index category' "/" = None →
  strings.Index item "/" = None → strings.Index item' "/" = None →
  (category', item') ≠ (category, item) →
  history (final (processItem ParseFloat mqtt_err unix_now category item sumstate b))
    !! histKeyOf category' item' name = history b !! histKeyOf category' item' name.
Proof.
  intros Hc Hc' Hi Hi' Hne.
  destruct (processItem_history_keys category item sumstate b (histKeyOf category' item' name))
    as [Hsame|[[name' Hkey] _]]; [done|].
  apply histKeyOf_inj3 in Hkey as (-> & -> & _); done.
Qed.

(** X5: One call of [processItem] keeps every entry of the history that it
    does not write, and it writes under keys of its own category and item
    only; it removes none. So, among categories and items without a slash,
    what the bridge remembers of one item is not touched by the decoding
    of another. *)
Theorem processItem_history_local (category item : string) (sumstate : any) (b : Bridge) :
  let b' := final (processItem ParseFloat mqtt_err unix_now category item sumstate b) in
  (∀ key,
     history b' !! key = history b !! key ∨
     ((∃ name, key = histKeyOf category item name) ∧ is_Some (history b' !! key))) ∧
  (∀ category' item' name,
     strings.Index category "/" = None → strings.Index category' "/" = None →
     strings.Index item "/" = None → strings.Index item' "/" = None →
     (category', item') ≠ (category, item) →
     history b' !! histKeyOf category' item' name = history b !! histKeyOf category' item' name).
Proof.
  cbv zeta. split; [intros key; apply processItem_history_keys|].
  intros category' item' name. apply processItem_history_other.
Qed.

(** ** The subscriptions *)

Lemma Compact_elem_of x s : x ∈ slices.Compact s ↔ x ∈ s.
Proof.
  induction s as [|y rest IH]; [done|]. simpl.
  destruct rest as [|z rest]; [done|].
  destruct (String.eqb_spec y z) as [->|Hne].
  - rewrite IH. set_solver.
  - rewrite !(elem_of_cons _ x y), IH. done.
Qed.

Lemma Compact_strict s :
  StronglySorted String.le s → StronglySorted (strict String.le) (slices.Compact s).
Proof.
  induction 1 as [|x rest Hrest IH Hx]; [constructor|]. simpl.
  destruct rest as [|y rest]; [by repeat constructor|].
  destruct (String.eqb_spec x y) as [->|Hne]; [done|].
  constructor; [done|]. apply Forall_forall. intros z Hz.
  apply (proj1 (Compact_elem_of _ _)) in Hz.
  apply Forall_cons in Hx as [Hxy Hx].
  assert (String.le y z) as Hyz.
  { apply elem_of_cons in Hz as [->|Hz]; [done|].
    apply StronglySorted_inv in Hrest as [_ Hy]. by apply (proj1 (Forall_forall _ _) Hy). }
  split; [by etrans|]. intros Hzx. apply Hne.
  apply (anti_symm String.le); [done|by etrans].
Qed.

Lemma StronglySorted_strict_NoDup (s : list string) :
  StronglySorted (strict String.le) s → NoDup s.
Proof.
  induction 1 as [|x rest _ IH Hx]; constructor; [|done].
  intros Hin. apply (proj1 (Forall_forall _ _) Hx) in Hin as [_ Hirr]. by apply Hirr.
Qed.

Lemma subscribeLoop_subscribes categories b :
  match subscribeLoop mqtt_err categories b with
  | Return _ b' =>
      b' = set_mqtt (mqtt b ++ (Subscribe ∘ setFilter (gekkoName b) <$> categories)) b
  | Exit code b' =>
      code = 7%Z ∧
      ∃ subscribed, subscribed `prefix_of` categories ∧ subscribed ≠ [] ∧
        b' = set_mqtt (mqtt b ++ (Subscribe ∘ setFilter (gekkoName b) <$> subscribed)) b
  end.
Proof.
  revert b. induction categories as [|category rest IH]; intros b.
  { simpl. rewrite app_nil_r. by destruct b. }
  simpl. unfold mbind, Run_bind, get, mqttCall.
  destruct (mqtt_err _ _).
  { simpl. split; [done|]. exists [category]. split; [|done].
    by apply prefix_cons, prefix_nil. }
  specialize (IH (set_mqtt (mqtt b ++ [Subscribe (gekkoName b +:+ "/" +:+ category +:+ "/+/set")]) b)).
  destruct (subscribeLoop _ _ _) as [[] b'|code b'].
  - rewrite IH. simpl. by rewrite <-(assoc_L (++)).
  - destruct IH as (-> & subscribed & Hpre & _ & ->). split; [done|].
    exists (category :: subscribed). split; [by apply prefix_cons|]. split; [done|].
    simpl. by rewrite <-(assoc_L (++)).
Qed.

(** X6: The command side subscribes, after its online marker, to one filter
    per category of the two tiers together: each category once, however
    often the configuration names it, and in strictly ascending order of
    their names. It calls neither the device nor the decoder. The process
    ends with code 6 when the marker fails, and with code 7 at the first
    subscription that fails. *)
Theorem RunSetter_subscriptions (b : Bridge) :
  let all := slices.Compact (slices.Sort (IntervalItems (cfg b) ++ MainItems (cfg b))) in
  let online := Publish (gekkoName b +:+ "/setter_online") (VString "true") in
  let subscriptions (categories : list string) :=
    set_mqtt (mqtt b ++ online :: (Subscribe ∘ setFilter (gekkoName b) <$> categories)) b in
  (∀ category,
     category ∈ all ↔ category ∈ IntervalItems (cfg b) ∨ category ∈ MainItems (cfg b)) ∧
  StronglySorted (strict String.le) all ∧
  NoDup all ∧
  match RunSetter mqtt_err b with
  | Return _ b' => b' = subscriptions all
  | Exit code b' =>
      ∃ subscribed,
        subscribed `prefix_of` all ∧ b' = subscriptions subscribed ∧
        ((code = 6%Z ∧ subscribed = []) ∨ (code = 7%Z ∧ subscribed ≠ []))
  end.
Proof.
  cbv zeta.
  assert (StronglySorted (strict String.le)
            (slices.Compact (slices.Sort (IntervalItems (cfg b) ++ MainItems (cfg b)))))
    as Hsorted.
  { apply Compact_strict. unfold slices.Sort. apply StronglySorted_merge_sort; apply _. }
  split; [|split; [done|split; [by apply StronglySorted_strict_NoDup|]]].
  { intros category. rewrite Compact_elem_of. unfold slices.Sort.
    rewrite merge_sort_Permutation. apply elem_of_app. }
  unfold RunSetter, mbind, Run_bind, get, mqttCall.
  destruct (mqtt_err _ _).
  { exists []. split; [apply prefix_nil|]. split; [done|]. by left. }
  simpl.
  pose proof (subscribeLoop_subscribes
                (slices.Compact (slices.Sort (IntervalItems (cfg b) ++ MainItems (cfg b))))
                (set_mqtt (mqtt b ++ [Publish (gekkoName b +:+ "/setter_online") (VString "true")]) b))
    as Hloop.
  destruct (subscribeLoop _ _ _) as [[] b'|code b'].
  - rewrite Hloop. simpl. by rewrite <-(assoc_L (++)).
  - destruct Hloop as (-> & subscribed & Hpre & Hne & ->).
    exists subscribed. split; [done|]. split; [|by right].
    simpl. by rewrite <-(assoc_L (++)).
Qed.

(** ** The command handler, on every topic *)

Lemma Split_parts s sep :
  Forall (λ part, strings.Index part sep = None) (strings.Split s sep).
Proof.
  induction s as [|c s IH]; simpl; [by repeat constructor|].
  destruct (Ascii.eqb c sep) eqn:Hc; [by constructor|].
  destruct (strings.Split s sep) as [|x xs]; [repeat constructor; simpl; by rewrite Hc|].
  apply Forall_cons in IH as [Hx Hxs]. constructor; [|done]. simpl. by rewrite Hc, Hx.
Qed.

(** X7: Whatever the topic, [handleSetCommand] touches neither MQTT nor the
    history, and either ends the process with code 8 without a call on the
    device, or makes the one call [SetValue] and ends the process with
    code 9 if that fails. The category and the item of the call are
    segments of the topic, so neither of them has a slash; the other
    segments, the last one included, are not looked at. *)
Theorem handleSetCommand_total (topic : string) (payload : list Byte.byte) (b : Bridge) :
  let parts := strings.Split topic "/" in
  (length parts < 4 ∧ handleSetCommand gekko_set_err topic payload b = Exit 8 b) ∨
  (∃ pre category item verb,
     parts = pre ++ [category; item; verb] ∧ pre ≠ [] ∧
     strings.Index category "/" = None ∧ strings.Index item "/" = None ∧
     let call := SetValue category item (string_of_list_byte payload) in
     let b' := set_gekko (gekko b ++ [call]) b in
     handleSetCommand gekko_set_err topic payload b =
       if gekko_set_err (gekko b) call then Exit 9 b' else Return tt b').
Proof.
  cbv zeta. destruct (decide (length (strings.Split topic "/") < 4)) as [Hlt|Hge].
  { left. split; [done|]. unfold handleSetCommand.
    destruct (Nat.ltb_spec (length (strings.Split topic "/")) 4); [done|lia]. }
  right. pose proof (Split_parts topic "/") as Hfree.
  pose proof (take_drop (length (strings.Split topic "/") - 3) (strings.Split topic "/")) as Hparts.
  pose proof (length_drop (strings.Split topic "/") (length (strings.Split topic "/") - 3)) as Hlast.
  pose proof (length_take (strings.Split topic "/") (length (strings.Split topic "/") - 3)) as Hpre.
  destruct (drop _ (strings.Split topic "/")) as [|category [|item [|verb [|]]]];
    simpl in Hlast; try lia.
  exists (take (length (strings.Split topic "/") - 3) (strings.Split topic "/")),
         category, item, verb.
  rewrite <-Hparts in Hfree. apply Forall_app in Hfree as [_ Hfree].
  apply Forall_cons in Hfree as [Hc Hfree]. apply Forall_cons in Hfree as [Hi _].
  assert (take (length (strings.Split topic "/") - 3) (strings.Split topic "/") ≠ []) as Hne.
  { intros Hnil. rewrite Hnil in Hpre. simpl in Hpre. lia. }
  split; [done|]. split; [done|]. split; [done|]. split; [done|].
  by apply (handleSetCommand_segments gekko_set_err topic payload b
              (take (length (strings.Split topic "/") - 3) (strings.Split topic "/"))
              category item verb).
Qed.

(** ** The tokens that do not convert *)

Lemma fieldLoop_refused category item values i fields l b :
  (∀ calls call, mqtt_err calls call = false) →
  match fieldLoop ParseFloat mqtt_err category item values i fields l b with
  | Return _ _ => ¬ refused ParseFloat fields values i
  | Exit code _ => code = 5%Z ∧ refused ParseFloat fields values i
  end.
Proof.
  intros Hok. revert i l b. induction fields as [|field rest IH]; intros i l b.
  { simpl. by intros (j & f & r & Hj & _). }
  rewrite fieldLoop_cons.
  assert (refused ParseFloat rest values (S i) → refused ParseFloat (field :: rest) values i)
    as Hlater.
  { intros (j & f & r & Hj & Hr & Hrest). exists (S j), f, r. split; [done|].
    split; [|done]. by replace (i + S j) with (S i + j) by lia. }
  assert (∀ rawValue, values !! i = Some rawValue →
            ¬ (Name field ≠ "" ∧ Type_ field ≠ "" ∧ rawValue ≠ "" ∧
               convert ParseFloat (Type_ field) rawValue = Failed) →
            refused ParseFloat (field :: rest) values i → refused ParseFloat rest values (S i))
    as Hfirst.
  { intros rawValue Hi Hnot (j & f & r & Hj & Hr & Hrest). destruct j as [|j].
    - rewrite Nat.add_0_r in Hr. simpl in Hj. simplify_eq. by destruct Hnot.
    - exists j, f, r. split; [done|]. split; [|done].
      by replace (S i + j) with (i + S j) by lia. }
  destruct (values !! i) as [rawValue|] eqn:Hi.
  2:{ intros (j & f & r & _ & Hr & _). apply lookup_ge_None in Hi.
      apply lookup_lt_Some in Hr. lia. }
  destruct (decodes_or_not ParseFloat field rawValue) as [[value (Hn & Ht & Hr & Hc)]|Hno].
  - rewrite (fieldBody_decoded ParseFloat mqtt_err category item field rawValue value l b
               Hn Ht Hr Hc). cbv zeta. rewrite Hok.
    assert (¬ (Name field ≠ "" ∧ Type_ field ≠ "" ∧ rawValue ≠ "" ∧
               convert ParseFloat (Type_ field) rawValue = Failed)) as Hnot.
    { intros (_ & _ & _ & Hfail). congruence. }
    destruct (unchanged _ _ _).
    + specialize (IH (S i) {| itemData := <[Name field := value]> (itemData l);
                              hasChanges := hasChanges l |} b).
      destruct (fieldLoop _ _ _ _ _ _ _ _ _) as [l' b'|code b'].
      * intros Href. by apply IH, (Hfirst rawValue).
      * destruct IH as [-> Href]. split; [done|]. by apply Hlater.
    + match goal with |- context [fieldLoop _ _ _ _ _ _ _ ?l1 ?b1] =>
        specialize (IH (S i) l1 b1) end.
      destruct (fieldLoop _ _ _ _ _ _ _ _ _) as [l' b'|code b'].
      * intros Href. by apply IH, (Hfirst rawValue).
      * destruct IH as [-> Href]. split; [done|]. by apply Hlater.
  - rewrite (fieldBody_undecoded ParseFloat mqtt_err _ _ _ _ _ _ Hno).
    destruct (convert ParseFloat (Type_ field) rawValue) as [| |value] eqn:Hc.
    + specialize (IH (S i) l b).
      destruct (fieldLoop _ _ _ _ _ _ _ _ _) as [l' b'|code b'].
      * intros Href. apply IH, (Hfirst rawValue); [done| |done]. intros (_ & _ & _ & ?). congruence.
      * destruct IH as [-> Href]. split; [done|]. by apply Hlater.
    + destruct (String.eqb_spec (Name field) "") as [Hn|Hn]; simpl.
      { specialize (IH (S i) l b).
        destruct (fieldLoop _ _ _ _ _ _ _ _ _) as [l' b'|code b'].
        - intros Href. apply IH, (Hfirst rawValue); [done| |done]. by intros (? & _).
        - destruct IH as [-> Href]. split; [done|]. by apply Hlater. }
      destruct (String.eqb_spec (Type_ field) "") as [Ht|Ht]; simpl.
      { specialize (IH (S i) l b).
        destruct (fieldLoop _ _ _ _ _ _ _ _ _) as [l' b'|code b'].
        - intros Href. apply IH, (Hfirst rawValue); [done| |done]. by intros (_ & ? & _).
        - destruct IH as [-> Href]. split; [done|]. by apply Hlater. }
      destruct (String.eqb_spec rawValue "") as [Hr|Hr]; simpl.
      { specialize (IH (S i) l b).
        destruct (fieldLoop _ _ _ _ _ _ _ _ _) as [l' b'|code b'].
        - intros Href. apply IH, (Hfirst rawValue); [done| |done]. by intros (_ & _ & ? & _).
        - destruct IH as [-> Href]. split; [done|]. by apply Hlater. }
      split; [done|]. exists 0, field, rawValue. by rewrite Nat.add_0_r.
    + destruct (decide (Name field = "")) as [Hn|Hn].
      2:{ destruct (decide (Type_ field = "")) as [Ht|Ht].
          2:{ destruct (decide (rawValue = "")) as [Hr|Hr]; [|by destruct (Hno value)].
              specialize (IH (S i) l b).
              destruct (fieldLoop _ _ _ _ _ _ _ _ _) as [l' b'|code b'].
              - intros Href. apply IH, (Hfirst rawValue); [done| |done].
                by intros (_ & _ & ? & _).
              - destruct IH as [-> Href]. split; [done|]. by apply Hlater. }
          specialize (IH (S i) l b).
          destruct (fieldLoop _ _ _ _ _ _ _ _ _) as [l' b'|code b'].
          - intros Href. apply IH, (Hfirst rawValue); [done| |done]. by intros (_ & ? & _).
          - destruct IH as [-> Href]. split; [done|]. by apply Hlater. }
      specialize (IH (S i) l b).
      destruct (fieldLoop _ _ _ _ _ _ _ _ _) as [l' b'|code b'].
      * intros Href. apply IH, (Hfirst rawValue); [done| |done]. by intros (? & _).
      * destruct IH as [-> Href]. split; [done|]. by apply Hlater.
Qed.

(** X8: While MQTT takes every publish, one call of [processItem] on an item
    with a value string and a schema ends the process exactly when some
    token within the schema's positions is not empty, belongs to a
    descriptor with a name and a type, and is refused by the conversion of
    that type; the code is then 5. Otherwise the call returns: tokens
    beyond the schema, empty tokens and tokens of descriptors to skip are
    never converted, so they cannot end the process. *)
Theorem processItem_refused
    (category item : string) (members : list (string * any)) (valueStr : string)
    (fields : list FieldDef) (b : Bridge) :
  member "value" members = Some (VString valueStr) →
  fieldDef b !! category = Some fields →
  (∀ calls call, mqtt_err calls call = false) →
  let values := strings.Split valueStr ";" in
  let refused :=
    ∃ j field rawValue,
      fields !! j = Some field ∧ values !! j = Some rawValue ∧
      Name field ≠ "" ∧ Type_ field ≠ "" ∧ rawValue ≠ "" ∧
      convert ParseFloat (Type_ field) rawValue = Failed in
  match processItem ParseFloat mqtt_err unix_now category item (VObject members) b with
  | Return _ _ => ¬ refused
  | Exit code _ => code = 5%Z ∧ refused
  end.
Proof.
  intros Hv Hf Hok. cbv zeta.
  rewrite (processItem_unfold ParseFloat mqtt_err unix_now _ _ _ _ _ _ Hv Hf).
  pose proof (fieldLoop_refused category item (strings.Split valueStr ";") 0 fields
                {| itemData := ∅; hasChanges := false |} b Hok) as Hloop.
  unfold refused in Hloop. simpl in Hloop.
  destruct (fieldLoop _ _ _ _ _ _ _ _ _) as [l b1|code b1]; [|done].
  unfold publishItem. destruct (_ && _); [|done].
  unfold mbind, Run_bind, timeNow, get, mqttCall. simpl. by rewrite Hok.
Qed.

(** ** The members of a category that are decoded *)

Lemma itemsLoop_polled category catMap b :
  itemsLoop ParseFloat mqtt_err unix_now category catMap b =
    foldRun (λ p _, processItem ParseFloat mqtt_err unix_now category p.1 p.2)
            (omap polledItem catMap) tt b.
Proof.
  revert b. induction catMap as [|[item data] rest IH]; intros b; [done|].
  simpl itemsLoop. unfold polledItem at 1. csimpl.
  destruct (strings.HasPrefix item "group"); [apply IH|].
  destruct (asObject data) as [itemMap|]; [|apply IH]. simpl.
  destruct (member "sumstate" itemMap) as [sumstate|]; [|apply IH]. simpl.
  unfold mbind, Run_bind.
  destruct (processItem _ _ _ _ _ _ _) as [[] b1|code b1]; [apply IH|done].
Qed.

(** X9: Of the members of a category's status, the poll hands to the decoder
    those whose key does not start with [group] and that are objects with
    a member [sumstate], in the order of the range and with that member;
    the other members are passed over wherever they stand: a poll of the
    members with one of them is the poll of the members without it. *)
Theorem itemsLoop_passes_over (category : string) (catMap : list (string * any)) (b : Bridge) :
  itemsLoop ParseFloat mqtt_err unix_now category catMap b =
    foldRun (λ p _, processItem ParseFloat mqtt_err unix_now category p.1 p.2)
            (omap polledItem catMap) tt b ∧
  ∀ before item data after,
    catMap = before ++ (item, data) :: after →
    strings.HasPrefix item "group" = true ∨
    (∀ itemMap, data = VObject itemMap → member "sumstate" itemMap = None) →
    itemsLoop ParseFloat mqtt_err unix_now category catMap b =
      itemsLoop ParseFloat mqtt_err unix_now category (before ++ after) b.
Proof.
  split; [apply itemsLoop_polled|].
  intros before item data after -> Hskip. rewrite !itemsLoop_polled, !omap_app. csimpl.
  assert (polledItem (item, data) = None) as ->; [|done].
  unfold polledItem. simpl. destruct Hskip as [->|Hskip]; [done|].
  destruct (strings.HasPrefix item "group"); [done|].
  destruct data as [| | | | | |xs|itemMap]; try done. simpl.
  by rewrite (Hskip itemMap eq_refl).
Qed.

(** ** The steady state *)

(** A second run of the loop on a bridge whose history agrees, under the
    keys of the item, with the history that the first run left, and holds
    no NaN. *)
Lemma fieldLoop_steady category item values i fields l b l' b' :
  fieldLoop ParseFloat mqtt_err category item values i fields l b = Return l' b' →
  NoDup (filter (λ n, n ≠ "") (Name <$> fields)) →
  ∀ l2 b2,
    (∀ name, history b2 !! histKeyOf category item name =
             history b' !! histKeyOf category item name) →
    (∀ key, history b2 !! key ≠ Some (VFloat64 S754_nan)) →
    ∃ l2', fieldLoop ParseFloat mqtt_err category item values i fields l2 b2 = Return l2' b2 ∧
           hasChanges l2' = hasChanges l2.
Proof.
  revert i l b. induction fields as [|field rest IH]; intros i l b.
  { simpl. intros _ _ l2 b2 _ _. by exists l2. }
  rewrite fieldLoop_cons. intros Hrun Hdup l2 b2 Hagree Hnan. rewrite fieldLoop_cons.
  destruct (values !! i) as [rawValue|] eqn:Hi; [|by exists l2].
  destruct (fieldBody _ _ _ _ _ _ l b) as [l1 b1|] eqn:Hbody; [|done].
  assert (NoDup (filter (λ n, n ≠ "") (Name <$> rest))) as Hdup'.
  { rewrite fmap_cons, filter_cons in Hdup.
    case_decide; [by apply NoDup_cons in Hdup as [_ ?]|done]. }
  pose proof (fieldBody_Return_inv ParseFloat mqtt_err _ _ _ _ _ _ _ _ Hbody) as Hinv.
  cbv zeta in Hinv.
  destruct Hinv as [(Hno & -> & ->)|(v & Hd & _ & Hcase)].
  - rewrite (fieldBody_undecoded_again ParseFloat mqtt_err _ _ _ _ _ _ _ _ l2 b2 Hno Hbody).
    by apply (IH _ _ _ Hrun).
  - assert (Name field ∉ Name <$> rest) as Hfresh.
    { destruct Hd as (Hn & _). rewrite fmap_cons, filter_cons in Hdup.
      case_decide; [|done]. apply NoDup_cons in Hdup as [Hnot _].
      intros Hin. apply Hnot. by apply list_elem_of_filter. }
    assert (history b2 !! histKeyOf category item (Name field) =
            history b1 !! histKeyOf category item (Name field)) as Hkey.
    { rewrite Hagree.
      apply (fieldLoop_history_frame ParseFloat mqtt_err _ _ _ _ _ _ _ _ _ _ Hrun Hfresh). }
    assert (unchanged (history b2) (histKeyOf category item (Name field)) v = true) as Hun.
    { unfold unchanged in *. rewrite Hkey.
      destruct Hcase as [(Hun & -> & _)|(_ & -> & _)]; [done|].
      simpl. rewrite lookup_insert_eq.
      apply (iface_eq_refl ParseFloat field rawValue); [done|].
      intros ->. apply (Hnan (histKeyOf category item (Name field))).
      rewrite Hkey. simpl. by rewrite lookup_insert_eq. }
    destruct Hd as (Hn & Ht & Hr & Hc).
    rewrite (fieldBody_decoded ParseFloat mqtt_err category item field rawValue v l2 b2
               Hn Ht Hr Hc). cbv zeta. rewrite Hun.
    destruct (IH _ _ _ Hrun Hdup'
                {| itemData := <[Name field := v]> (itemData l2);
                   hasChanges := hasChanges l2 |} b2 Hagree Hnan) as (l2' & Hl & Hch).
    rewrite Hl. exists l2'. split; [done|]. by rewrite Hch.
Qed.

Lemma processItem_steady category item sumstate b b1 b2 :
  processItem ParseFloat mqtt_err unix_now category item sumstate b = Return tt b1 →
  (∀ fields, fieldDef b !! category = Some fields →
     NoDup (filter (λ n, n ≠ "") (Name <$> fields))) →
  fieldDef b2 = fieldDef b →
  (∀ name, history b2 !! histKeyOf category item name =
           history b1 !! histKeyOf category item name) →
  (∀ key, history b2 !! key ≠ Some (VFloat64 S754_nan)) →
  processItem ParseFloat mqtt_err unix_now category item sumstate b2 = Return tt b2.
Proof.
  intros Hrun Hdup Hdef Hagree Hnan. unfold processItem in *.
  destruct (asObject sumstate) as [sumstateMap|]; [|done].
  destruct (member "value" sumstateMap ≫= asString) as [valueStr|]; [|done].
  unfold mbind, Run_bind, get in *. rewrite Hdef.
  destruct (fieldDef b !! category) as [fields|] eqn:Hf; [|done].
  destruct (fieldLoop _ _ _ _ _ _ _ _ b) as [l' b'|] eqn:Hloop; [|done].
  pose proof (publishItem_static mqtt_err unix_now category item l' b') as Hpub.
  cbv zeta in Hpub. rewrite Hrun in Hpub. simpl in Hpub. destruct Hpub as (Hh & _).
  destruct (fieldLoop_steady _ _ _ _ _ _ _ _ _ Hloop (Hdup _ eq_refl)
              {| itemData := ∅; hasChanges := false |} b2) as (l2' & -> & Hc).
  - intros name. by rewrite Hagree, Hh.
  - done.
  - unfold publishItem. simpl in Hc. by rewrite Hc.
Qed.

Lemma itemsLoop_history_other category catMap b item name :
  strings.Index category "/" = None → strings.Index item "/" = None →
  Forall (λ m, strings.Index m.1 "/" = None) catMap →
  item ∉ catMap.*1 →
  history (final (itemsLoop ParseFloat mqtt_err unix_now category catMap b))
    !! histKeyOf category item name = history b !! histKeyOf category item name.
Proof.
  intros Hc Hi Hfree. revert b.
  induction Hfree as [|[item' data] rest Hitem' _ IH]; intros b Hnot; [done|].
  rewrite fmap_cons, not_elem_of_cons in Hnot. destruct Hnot as [Hne Hnot]. simpl in *.
  unfold mbind, Run_bind.
  assert (∀ b1, history (final (itemsLoop ParseFloat mqtt_err unix_now category rest b1))
                  !! histKeyOf category item name = history b1 !! histKeyOf category item name)
    as Hrest by (intros b1; by apply IH).
  destruct (strings.HasPrefix item' "group"); [apply Hrest|].
  destruct (asObject data) as [itemMap|]; [|apply Hrest].
  destruct (member "sumstate" itemMap) as [sumstate|]; [|apply Hrest].
  pose proof (processItem_history_other category item' sumstate b category item name
                Hc Hc Hitem' Hi ltac:(congruence)) as Hstep.
  destruct (processItem _ _ _ _ _ _ _) as [[] b1|code b1]; simpl in Hstep; [|done].
  by rewrite Hrest.
Qed.

Lemma itemsLoop_steady category catMap b b1 b2 :
  itemsLoop ParseFloat mqtt_err unix_now category catMap b = Return tt b1 →
  strings.Index category "/" = None →
  Forall (λ m, strings.Index m.1 "/" = None) catMap →
  NoDup catMap.*1 →
  (∀ fields, fieldDef b !! category = Some fields →
     NoDup (filter (λ n, n ≠ "") (Name <$> fields))) →
  fieldDef b2 = fieldDef b →
  (∀ item name, item ∈ catMap.*1 →
     history b2 !! histKeyOf category item name = history b1 !! histKeyOf category item name) →
  (∀ key, history b2 !! key ≠ Some (VFloat64 S754_nan)) →
  itemsLoop ParseFloat mqtt_err unix_now category catMap b2 = Return tt b2.
Proof.
  intros Hrun Hc Hfree. revert b Hrun.
  induction Hfree as [|[item data] rest Hitem Hfree IH]; intros b Hrun Hnodup Hdup Hdef Hagree Hnan;
    [done|].
  rewrite fmap_cons in Hnodup. apply NoDup_cons in Hnodup as [Hnot Hnodup]. simpl in *.
  unfold mbind, Run_bind in *.
  assert (∀ b', itemsLoop ParseFloat mqtt_err unix_now category rest b' = Return tt b1 →
                fieldDef b' = fieldDef b →
                itemsLoop ParseFloat mqtt_err unix_now category rest b2 = Return tt b2) as Hrest.
  { intros b' Hrun' Hdef'. apply (IH b' Hrun' Hnodup).
    - intros fields. rewrite Hdef'. apply Hdup.
    - congruence.
    - intros item' name Hin. apply Hagree. by apply list_elem_of_further.
    - done. }
  destruct (strings.HasPrefix item "group"); [by apply (Hrest b)|].
  destruct (asObject data) as [itemMap|]; [|by apply (Hrest b)].
  destruct (member "sumstate" itemMap) as [sumstate|]; [|by apply (Hrest b)].
  pose proof (processItem_polling category item sumstate b) as (_ & Hdef' & _).
  destruct (processItem _ _ _ _ _ _ b) as [[] b'|code b'] eqn:Hitem'; [|done].
  simpl in Hdef'.
  rewrite (processItem_steady category item sumstate b b' b2 Hitem' Hdup Hdef).
  - by apply (Hrest b').
  - intros name. rewrite (Hagree item name (list_elem_of_here _ _)).
    pose proof (itemsLoop_history_other category rest b' item name Hc Hitem Hfree Hnot) as Hother.
    by rewrite Hrun in Hother.
  - done.
Qed.

(** X10: The steady state of a category. After a poll of the category that
    returned, a second poll that gets the same answer from the device
    publishes no field and no document and leaves the history as it is:
    its only MQTT call, if the answer has an object for the category, is
    the category's timestamp. This holds when neither the category nor the
    keys of its items have a slash, the named descriptors of its schema
    have distinct names, and the history holds no NaN. *)
Theorem pollCategory_steady (category : string) (b b1 : Bridge) :
  pollCategory ParseFloat mqtt_err unix_now gekko_status category b = Return tt b1 →
  gekko_status (gekko b1) [category] = gekko_status (gekko b) [category] →
  strings.Index category "/" = None →
  (∀ status catMap,
     gekko_status (gekko b) [category] = Ok status →
     member category status = Some (VObject catMap) →
     NoDup catMap.*1 ∧ Forall (λ m, strings.Index m.1 "/" = None) catMap) →
  (∀ fields, fieldDef b !! category = Some fields →
     NoDup (filter (λ n, n ≠ "") (Name <$> fields))) →
  (∀ key, history b1 !! key ≠ Some (VFloat64 S754_nan)) →
  let b2 := final (pollCategory ParseFloat mqtt_err unix_now gekko_status category b1) in
  history b2 = history b1 ∧
  (mqtt b2 = mqtt b1 ∨
   mqtt b2 = mqtt b1 ++ [Publish (timeTopic (gekkoName b1) category)
                                 (VInt64 (unix_now (mqtt b1)))]).
Proof.
  intros Hrun Hsame Hc Hdoc Hdup Hnan. cbv zeta.
  rewrite pollCategory_unfold in Hrun. rewrite pollCategory_unfold. cbv zeta in *.
  rewrite Hsame.
  destruct (gekko_status (gekko b) [category]) as [status|msg] eqn:Hstatus; [|done].
  destruct (member category status) as [catData|] eqn:Hmember; simpl in *; [|by split; [|left]].
  destruct catData as [| | | | | |xs|catMap]; simpl in *; try by split; [|left].
  destruct (Hdoc status catMap eq_refl Hmember) as [Hnodup Hfree].
  destruct (itemsLoop _ _ _ _ _ _) as [[] bi|code bi] eqn:Hitems; [|done].
  assert (history b1 = history bi ∧ fieldDef b1 = fieldDef bi) as [Hh Hd].
  { destruct (mqtt_err _ _); [done|]. by injection Hrun as <-. }
  pose proof (itemsLoop_polling category catMap
                (set_gekko (gekko b ++ [GetStatus [category]]) b)) as (_ & Hdef & _).
  rewrite Hitems in Hdef. simpl in Hdef.
  rewrite (itemsLoop_steady category catMap _ bi
             (set_gekko (gekko b1 ++ [GetStatus [category]]) b1) Hitems Hc Hfree Hnodup).
  - simpl. destruct (mqtt_err (mqtt b1) _); simpl; (split; [done|]); by right.
  - done.
  - simpl. congruence.
  - intros item name _. simpl. by rewrite Hh.
  - done.
Qed.

(** ** The sequence of a poll *)

Lemma Run_bind_assoc {A B C} (m : Run A) (f : A → Run B) (g : B → Run C) b :
  ((m ≫= f) ≫= g) b = (m ≫= λ a, f a ≫= g) b.
Proof. unfold mbind, Run_bind. by destruct (m b). Qed.

Lemma pollCategories_app categories1 categories2 b :
  pollCategories ParseFloat mqtt_err unix_now gekko_status (categories1 ++ categories2) b =
    (pollCategories ParseFloat mqtt_err unix_now gekko_status categories1 ≫= λ _,
     pollCategories ParseFloat mqtt_err unix_now gekko_status categories2) b.
Proof.
  revert b. induction categories1 as [|category rest IH]; intros b; [done|].
  simpl. rewrite Run_bind_assoc. unfold mbind, Run_bind.
  destruct (pollCategory _ _ _ _ _ _) as [[] b1|code b1]; [apply IH|done].
Qed.

Lemma pollTier_unfold categories b :
  pollTier ParseFloat mqtt_err unix_now gekko_status categories b =
    pollCategories ParseFloat mqtt_err unix_now gekko_status categories b.
Proof. by destruct categories. Qed.

(** One tick is the sequence on the categories of its plan. *)
Lemma poll_plan t b :
  (1 ≤ IntervalRounds (cfg b))%Z →
  poll ParseFloat mqtt_err unix_now gekko_status (Z.of_nat t mod IntervalRounds (cfg b))%Z b =
    (pollCategories ParseFloat mqtt_err unix_now gekko_status
                    (spec_tick_categories (cfg b) (S t)) ≫= λ _,
     mret (Z.of_nat (S t) mod IntervalRounds (cfg b))%Z) b.
Proof.
  intros HN. rewrite (poll_unfold ParseFloat mqtt_err unix_now gekko_status).
  unfold spec_tick_categories.
  pose proof (round_next (IntervalRounds (cfg b)) (Z.of_nat t) HN ltac:(lia)) as Hnext.
  replace (Z.of_nat (S t)) with (Z.of_nat t + 1)%Z by lia.
  rewrite <-Hnext.
  pose proof (Z.mod_pos_bound (Z.of_nat t) (IntervalRounds (cfg b)) ltac:(lia)) as Hb.
  unfold mbind, Run_bind. rewrite pollTier_unfold.
  destruct (Z.leb_spec (IntervalRounds (cfg b))
              (Z.of_nat t mod IntervalRounds (cfg b) + 1)%Z) as [Hge|Hlt].
  - rewrite Z.eqb_refl, pollCategories_app. unfold mbind, Run_bind.
    destruct (pollCategories _ _ _ _ (IntervalItems (cfg b)) b) as [[] b1|code b1]; [|done].
    by rewrite pollTier_unfold.
  - destruct (Z.eqb_spec (Z.of_nat t mod IntervalRounds (cfg b) + 1)%Z 0); [lia|].
    rewrite app_nil_r.
    by destruct (pollCategories _ _ _ _ (IntervalItems (cfg b)) b) as [[] b1|code b1].
Qed.


Lemma tickLoop_plan ticks t b :
  (1 ≤ IntervalRounds (cfg b))%Z →
  tickLoop ParseFloat mqtt_err unix_now gekko_status ticks
           (Z.of_nat t mod IntervalRounds (cfg b))%Z b =
    (pollCategories ParseFloat mqtt_err unix_now gekko_status
                    (concat (spec_tick_categories (cfg b) <$> seq (S t) ticks)) ≫= λ _,
     mret (Z.of_nat (t + ticks) mod IntervalRounds (cfg b))%Z) b.
Proof.
  revert t b. induction ticks as [|ticks IH]; intros t b HN.
  { simpl. by rewrite Nat.add_0_r. }
  change (tickLoop ParseFloat mqtt_err unix_now gekko_status (S ticks)
            (Z.of_nat t mod IntervalRounds (cfg b))%Z b)
    with ((poll ParseFloat mqtt_err unix_now gekko_status
             (Z.of_nat t mod IntervalRounds (cfg b))%Z
           ≫= tickLoop ParseFloat mqtt_err unix_now gekko_status ticks) b).
  simpl seq. rewrite fmap_cons. simpl concat.
  unfold mbind, Run_bind. rewrite poll_plan, pollCategories_app by done.
  unfold mbind, Run_bind.
  pose proof (pollCategories_polls ParseFloat mqtt_err unix_now gekko_status
                (spec_tick_categories (cfg b) (S t)) b) as [Hc _].
  destruct (pollCategories _ _ _ _ (spec_tick_categories (cfg b) (S t)) b)
    as [[] b1|code b1]; [|done].
  simpl in Hc. unfold mret, Run_ret. rewrite <-Hc in HN |- *.
  rewrite (IH (S t) b1 HN). unfold mbind, Run_bind.
  by replace (S t + ticks) with (t + S ticks) by lia.
Qed.

(** *** What a later bridge has of an earlier one *)

Lemma extends_refl b : extends b b.
Proof.
  split; [done|]. split; [done|]. split; [done|].
  exists []. split; [by rewrite app_nil_r|]. intros key old ?. by left.
Qed.

Lemma extends_trans b1 b2 b3 : extends b1 b2 → extends b2 b3 → extends b1 b3.
Proof.
  intros (Hn1 & Hd1 & Hk1 & calls1 & Hm1 & Hv1) (Hn2 & Hd2 & Hk2 & calls2 & Hm2 & Hv2).
  split; [congruence|]. split; [congruence|]. split; [by auto|].
  exists (calls1 ++ calls2). split; [by rewrite Hm2, Hm1, <-app_assoc|].
  intros key old Hold. destruct (Hv2 key old Hold) as [Hold2|[topic Hin]].
  - destruct (Hv1 key old Hold2) as [?|[topic Hin]]; [by left|].
    right. exists topic. apply elem_of_app. by left.
  - right. exists topic. apply elem_of_app. by right.
Qed.

Lemma extends_bind {A B} b (m : Run A) (f : A → Run B) :
  extends b (final (m b)) →
  (∀ a b1, m b = Return a b1 → extends b1 (final (f a b1))) →
  extends b (final ((m ≫= f) b)).
Proof.
  intros Hm Hf. unfold mbind, Run_bind.
  destruct (m b) as [a b1|code b1]; [|done].
  eapply extends_trans; [exact Hm|]. by apply Hf.
Qed.

(** Calls that are not the publish of a value that the history takes. *)
Lemma extends_calls b b' calls :
  gekkoName b' = gekkoName b → fieldDef b' = fieldDef b → history b' = history b →
  mqtt b' = mqtt b ++ calls → extends b b'.
Proof.
  intros Hn Hd Hh Hm. split; [done|]. split; [done|]. rewrite Hh. split; [done|].
  exists calls. split; [done|]. intros key old ?. by left.
Qed.

Lemma fieldBody_extends category item field rawValue l b :
  extends b (final (fieldBody ParseFloat mqtt_err category item field rawValue l b)).
Proof.
  destruct (decodes_or_not ParseFloat field rawValue) as [[value Hd]|Hno].
  - destruct Hd as (Hn & Ht & Hr & Hc).
    rewrite (fieldBody_decoded ParseFloat mqtt_err category item field rawValue value l b
               Hn Ht Hr Hc).
    destruct (unchanged (history b) _ value); [apply extends_refl|].
    set (key := histKeyOf category item (Name field)).
    set (call := Publish _ value).
    assert (extends b (set_mqtt (mqtt b ++ [call])
                                (set_history (<[key := value]> (history b)) b))) as He.
    { split; [done|]. split; [done|]. split.
      - intros k Hk. simpl. destruct (decide (key = k)) as [->|Hne].
        + rewrite lookup_insert_eq. by eexists.
        + by rewrite lookup_insert_ne.
      - exists [call]. split; [done|]. intros k old. simpl.
        destruct (decide (key = k)) as [->|Hne].
        + rewrite lookup_insert_eq. intros [= <-]. right.
          eexists. apply list_elem_of_singleton. reflexivity.
        + rewrite lookup_insert_ne by done. by left. }
    simpl. by destruct (mqtt_err _ _).
  - rewrite (fieldBody_undecoded ParseFloat mqtt_err _ _ _ _ _ _ Hno).
    destruct (convert _ _ _); try apply extends_refl.
    destruct (_ || _); apply extends_refl.
Qed.

Lemma fieldLoop_extends category item values i fields l b :
  extends b (final (fieldLoop ParseFloat mqtt_err category item values i fields l b)).
Proof.
  revert i l b. induction fields as [|field rest IH]; intros i l b; simpl.
  { apply extends_refl. }
  destruct (values !! i) as [rawValue|]; [|apply extends_refl].
  apply extends_bind; [apply fieldBody_extends|]. intros l1 b1 _. apply IH.
Qed.

Lemma publishItem_extends category item l b :
  extends b (final (publishItem mqtt_err unix_now category item l b)).
Proof.
  unfold publishItem. destruct (_ && _); [|apply extends_refl].
  unfold mbind, Run_bind, timeNow, get, mqttCall.
  destruct (mqtt_err _ _); by eapply extends_calls.
Qed.

Lemma processItem_extends category item sumstate b :
  extends b (final (processItem ParseFloat mqtt_err unix_now category item sumstate b)).
Proof.
  unfold processItem.
  destruct (asObject sumstate) as [members|]; [|apply extends_refl].
  destruct (member "value" members ≫= asString) as [valueStr|]; [|apply extends_refl].
  unfold mbind at 1, Run_bind at 1, get.
  destruct (fieldDef b !! category) as [fields|]; [|apply extends_refl].
  apply extends_bind; [apply fieldLoop_extends|]. intros l1 b1 _. apply publishItem_extends.
Qed.

Lemma itemsLoop_extends category catMap b :
  extends b (final (itemsLoop ParseFloat mqtt_err unix_now category catMap b)).
Proof.
  revert b. induction catMap as [|[item data] rest IH]; intros b; simpl.
  { apply extends_refl. }
  apply extends_bind; [|intros _ b1 _; apply IH].
  destruct (strings.HasPrefix item "group"); [apply extends_refl|].
  destruct (asObject data) as [itemMap|]; [|apply extends_refl].
  destruct (member "sumstate" itemMap) as [sumstate|]; [|apply extends_refl].
  apply processItem_extends.
Qed.

Lemma pollCategory_extends category b :
  extends b (final (pollCategory ParseFloat mqtt_err unix_now gekko_status category b)).
Proof.
  rewrite pollCategory_unfold. cbv zeta.
  set (b1 := set_gekko (gekko b ++ [GetStatus [category]]) b).
  assert (extends b b1) as H1 by (eapply (extends_calls _ _ []); by rewrite ?app_nil_r).
  destruct (gekko_status (gekko b) [category]) as [status|msg]; [|done].
  destruct (member category status ≫= asObject) as [catMap|]; [|done].
  pose proof (itemsLoop_extends category catMap b1) as H2.
  destruct (itemsLoop _ _ _ _ _ _) as [[] b2|code b2]; simpl in H2;
    [|simpl; eapply extends_trans; [exact H1|exact H2]].
  eapply extends_trans; [exact H1|]. eapply extends_trans; [exact H2|].
  destruct (mqtt_err _ _); by eapply extends_calls.
Qed.

Lemma pollCategories_extends categories b :
  extends b (final (pollCategories ParseFloat mqtt_err unix_now gekko_status categories b)).
Proof.
  revert b. induction categories as [|category rest IH]; intros b; simpl.
  { apply extends_refl. }
  apply extends_bind; [apply pollCategory_extends|]. intros _ b1 _. apply IH.
Qed.


(** *** The decoded fields *)

Lemma deduped_extends_r b b1 b2 key topic value :
  deduped b b1 key topic value → extends b1 b2 → deduped b b2 key topic value.
Proof.
  intros (Hk & calls1 & Hm1 & Hp) (_ & _ & Hk2 & calls2 & Hm2 & _).
  split; [by apply Hk2|]. exists (calls1 ++ calls2).
  split; [by rewrite Hm2, Hm1, <-app_assoc|].
  destruct Hp as [Hin|(old & Heq & [Hold|[topic' Hin]])].
  - left. apply elem_of_app. by left.
  - right. exists old. split; [done|]. by left.
  - right. exists old. split; [done|]. right. exists topic'. apply elem_of_app. by left.
Qed.

Lemma deduped_extends_l b b1 b2 key topic value :
  extends b b1 → deduped b1 b2 key topic value → deduped b b2 key topic value.
Proof.
  intros (_ & _ & _ & calls1 & Hm1 & Hv1) (Hk & calls2 & Hm2 & Hp).
  split; [done|]. exists (calls1 ++ calls2).
  split; [by rewrite Hm2, Hm1, <-app_assoc|].
  destruct Hp as [Hin|(old & Heq & [Hold|[topic' Hin]])].
  - left. apply elem_of_app. by right.
  - right. exists old. split; [done|].
    destruct (Hv1 key old Hold) as [?|[topic' Hin]]; [by left|].
    right. exists topic'. apply elem_of_app. by left.
  - right. exists old. split; [done|]. right. exists topic'. apply elem_of_app. by right.
Qed.

Lemma fieldBody_deduped category item field rawValue value l b l1 b1 :
  fieldBody ParseFloat mqtt_err category item field rawValue l b = Return l1 b1 →
  decodes ParseFloat field rawValue value →
  deduped b b1 (histKeyOf category item (Name field))
          (fieldTopic (gekkoName b) category item (Name field)) value.
Proof.
  intros Hret (Hn & Ht & Hr & Hc).
  rewrite (fieldBody_decoded ParseFloat mqtt_err category item field rawValue value l b
             Hn Ht Hr Hc) in Hret.
  destruct (unchanged (history b) _ value) eqn:Hu.
  - injection Hret as _ <-. unfold unchanged in Hu.
    destruct (history b !! histKeyOf category item (Name field)) as [old|] eqn:Hold; [|done].
    split; [by rewrite Hold|]. exists []. split; [by rewrite app_nil_r|].
    right. exists old. split; [done|]. by left.
  - simpl in Hret. destruct (mqtt_err _ _); [done|]. injection Hret as _ <-. split.
    + simpl. rewrite lookup_insert_eq. by eexists.
    + eexists. split; [reflexivity|]. left. by apply list_elem_of_singleton.
Qed.

Lemma fieldLoop_deduped category item values i fields l b l' b' j field rawValue value :
  fieldLoop ParseFloat mqtt_err category item values i fields l b = Return l' b' →
  fields !! j = Some field → values !! (i + j) = Some rawValue →
  decodes ParseFloat field rawValue value →
  deduped b b' (histKeyOf category item (Name field))
          (fieldTopic (gekkoName b) category item (Name field)) value.
Proof.
  revert i l b j. induction fields as [|field0 rest IH]; intros i l b j Hret Hf Hv Hd; [done|].
  rewrite fieldLoop_cons in Hret. destruct j as [|j]; simpl in Hf.
  - injection Hf as ->. rewrite Nat.add_0_r in Hv. rewrite Hv in Hret.
    destruct (fieldBody _ _ _ _ _ _ _ _) as [l1 b1|] eqn:Hbody; [|done].
    eapply deduped_extends_r; [by eapply fieldBody_deduped|].
    pose proof (fieldLoop_extends category item values (S i) rest l1 b1) as He.
    by rewrite Hret in He.
  - destruct (values !! i) as [rawValue0|] eqn:H0.
    2: { apply lookup_lt_Some in Hv. apply lookup_ge_None in H0. lia. }
    destruct (fieldBody _ _ _ _ _ _ _ _) as [l1 b1|] eqn:Hbody; [|done].
    pose proof (fieldBody_extends category item field0 rawValue0 l b) as He.
    rewrite Hbody in He. simpl in He.
    eapply deduped_extends_l; [exact He|].
    replace (gekkoName b) with (gekkoName b1) by apply He.
    eapply (IH (S i)); [exact Hret|exact Hf| |exact Hd].
    by replace (S i + j) with (i + S j) by lia.
Qed.

Lemma processItem_deduped category item members valueStr fields b b' j field rawValue value :
  processItem ParseFloat mqtt_err unix_now category item (VObject members) b = Return tt b' →
  member "value" members = Some (VString valueStr) →
  fieldDef b !! category = Some fields →
  fields !! j = Some field → strings.Split valueStr ";" !! j = Some rawValue →
  decodes ParseFloat field rawValue value →
  deduped b b' (histKeyOf category item (Name field))
          (fieldTopic (gekkoName b) category item (Name field)) value.
Proof.
  intros Hret Hv Hdef Hf Hraw Hd.
  rewrite (processItem_unfold ParseFloat mqtt_err unix_now category item members valueStr
             fields b Hv Hdef) in Hret.
  destruct (fieldLoop _ _ _ _ _ _ _ _ _) as [l1 b1|] eqn:Hloop; [|done].
  eapply deduped_extends_r; [by eapply (fieldLoop_deduped _ _ _ 0)|].
  pose proof (publishItem_extends category item l1 b1) as He. by rewrite Hret in He.
Qed.

Lemma itemsLoop_cons_inv category item data rest b b' :
  itemsLoop ParseFloat mqtt_err unix_now category ((item, data) :: rest) b = Return tt b' →
  ∃ b1, extends b b1 ∧
        itemsLoop ParseFloat mqtt_err unix_now category rest b1 = Return tt b'.
Proof.
  simpl. unfold mbind, Run_bind.
  destruct (strings.HasPrefix item "group"); [exists b; split; [apply extends_refl|done]|].
  destruct (asObject data) as [itemMap|]; [|exists b; split; [apply extends_refl|done]].
  destruct (member "sumstate" itemMap) as [sumstate|];
    [|exists b; split; [apply extends_refl|done]].
  pose proof (processItem_extends category item sumstate b) as He.
  destruct (processItem _ _ _ _ _ _ _) as [[] b1|code b1]; [|done].
  intros Hret. by exists b1.
Qed.

Lemma itemsLoop_deduped category catMap fields item field value b b' :
  itemsLoop ParseFloat mqtt_err unix_now category catMap b = Return tt b' →
  fieldDef b !! category = Some fields →
  decodedField ParseFloat catMap fields item field value →
  deduped b b' (histKeyOf category item (Name field))
          (fieldTopic (gekkoName b) category item (Name field)) value.
Proof.
  intros Hret Hdef
    (itemMap & members & valueStr & j & rawValue & Hin & Hg & Hs & Hv & Hf & Hraw & Hd).
  revert b Hret Hdef Hin. induction catMap as [|[item0 data0] rest IH]; intros b Hret Hdef Hin.
  { by apply elem_of_nil in Hin. }
  apply elem_of_cons in Hin as [Heq|Hin].
  - injection Heq as <- <-. simpl in Hret. rewrite Hg in Hret. simpl in Hret.
    rewrite Hs in Hret. unfold mbind, Run_bind in Hret.
    destruct (processItem _ _ _ _ _ _ _) as [[] b1|] eqn:Hitem; [|done].
    eapply deduped_extends_r.
    + eapply processItem_deduped; [exact Hitem|exact Hv|exact Hdef|exact Hf|exact Hraw|exact Hd].
    + pose proof (itemsLoop_extends category rest b1) as He. by rewrite Hret in He.
  - apply itemsLoop_cons_inv in Hret as (b1 & He & Hret).
    eapply deduped_extends_l; [exact He|].
    replace (gekkoName b) with (gekkoName b1) by apply He.
    apply IH; [done| |done]. destruct He as (_ & -> & _). done.
Qed.

(** *** The categories *)

Lemma undergone_mono b0 b b1 b2 category answer :
  extends b0 b → undergone ParseFloat b b1 category answer → extends b1 b2 →
  undergone ParseFloat b0 b2 category answer.
Proof.
  intros He0 (status & -> & Hu) He2. exists status. split; [done|].
  intros catMap Hmem. destruct (Hu catMap Hmem) as [(calls & now & Hm & Hin) Hfields]. split.
  - destruct He0 as (Hn0 & _ & _ & calls0 & Hm0 & _), He2 as (_ & _ & _ & calls2 & Hm2 & _).
    exists (calls0 ++ calls ++ calls2), now.
    split; [by rewrite Hm2, Hm, Hm0, <-!app_assoc|].
    rewrite <-Hn0. apply elem_of_app. right. apply elem_of_app. by left.
  - intros fields item field value Hdef Hdec.
    eapply deduped_extends_l; [exact He0|]. eapply deduped_extends_r; [|exact He2].
    destruct He0 as (Hn0 & Hd0 & _). rewrite <-Hn0. apply (Hfields fields); [|done]. by rewrite Hd0.
Qed.

Lemma pollCategory_gekko category b :
  gekko (final (pollCategory ParseFloat mqtt_err unix_now gekko_status category b)) =
    gekko b ++ [GetStatus [category]].
Proof.
  rewrite pollCategory_unfold. cbv zeta.
  destruct (gekko_status (gekko b) [category]) as [status|msg]; [|done].
  destruct (member category status ≫= asObject) as [catMap|]; [|done].
  pose proof (itemsLoop_frame ParseFloat mqtt_err unix_now category catMap
                (set_gekko (gekko b ++ [GetStatus [category]]) b)) as [_ Hg].
  destruct (itemsLoop _ _ _ _ _ _) as [[] b2|code b2]; simpl in Hg; [|done].
  by destruct (mqtt_err _ _).
Qed.

Lemma pollCategory_undergone category b b' :
  pollCategory ParseFloat mqtt_err unix_now gekko_status category b = Return tt b' →
  undergone ParseFloat b b' category (gekko_status (gekko b) [category]).
Proof.
  rewrite pollCategory_unfold. cbv zeta.
  set (b1 := set_gekko (gekko b ++ [GetStatus [category]]) b).
  destruct (gekko_status (gekko b) [category]) as [status|msg]; [|done].
  intros Hret. exists status. split; [done|]. intros catMap Hmem.
  rewrite Hmem in Hret. simpl in Hret.
  destruct (itemsLoop _ _ _ _ _ _) as [[] b2|] eqn:Hitems; [|done].
  destruct (mqtt_err _ _); [done|]. injection Hret as <-.
  pose proof (itemsLoop_extends category catMap b1) as He. rewrite Hitems in He. simpl in He.
  split.
  - destruct He as (Hn & _ & _ & calls & Hm & _).
    exists (calls ++ [Publish (timeTopic (gekkoName b2) category) (VInt64 (unix_now (mqtt b2)))]),
           (unix_now (mqtt b2)).
    split; [simpl; by rewrite Hm, <-app_assoc|].
    rewrite Hn. apply elem_of_app. right. by apply list_elem_of_singleton.
  - intros fields item field value Hdef Hdec.
    apply (deduped_extends_r b b2); [|by eapply (extends_calls _ _ [_])].
    by apply (itemsLoop_deduped category catMap fields item field value b1 b2).
Qed.

Lemma pollCategories_sequenced plan b :
  sequenced ParseFloat gekko_status plan b
            (pollCategories ParseFloat mqtt_err unix_now gekko_status plan b).
Proof.
  revert b. induction plan as [|category rest IH]; intros b.
  { simpl. split; [by rewrite app_nil_r|]. by intros k c. }
  simpl pollCategories. unfold mbind, Run_bind.
  pose proof (pollCategory_gekko category b) as Hg.
  pose proof (pollCategory_extends category b) as He.
  destruct (pollCategory _ _ _ _ _ b) as [[] b1|code b1] eqn:Hpoll; simpl in Hg, He.
  2: { exists 0. split; [simpl; lia|]. split; [done|]. intros j c Hj. lia. }
  apply pollCategory_undergone in Hpoll.
  pose proof (pollCategories_extends rest b1) as He'.
  specialize (IH b1). unfold sequenced in IH |- *.
  destruct (pollCategories _ _ _ _ rest b1) as [[] b'|code b']; simpl in He'.
  - destruct IH as [Hg' Hu]. split.
    { rewrite Hg', Hg, fmap_cons, <-app_assoc. done. }
    intros [|k] c Hc; simpl in Hc.
    + injection Hc as <-. simpl. rewrite app_nil_r.
      eapply undergone_mono; [apply extends_refl|exact Hpoll|exact He'].
    + simpl. specialize (Hu k c Hc). rewrite Hg, <-app_assoc in Hu.
      eapply undergone_mono; [exact He|exact Hu|apply extends_refl].
  - destruct IH as (k & Hk & Hg' & Hu). exists (S k). split; [simpl; lia|]. split.
    { rewrite Hg', Hg, <-app_assoc. done. }
    intros [|j] c Hj Hc; simpl in Hc.
    + injection Hc as <-. simpl. rewrite app_nil_r.
      eapply undergone_mono; [apply extends_refl|exact Hpoll|exact He'].
    + simpl. specialize (Hu j c ltac:(lia) Hc). rewrite Hg, <-app_assoc in Hu.
      eapply undergone_mono; [exact He|exact Hu|apply extends_refl].
Qed.

Lemma sequenced_ret {A} plan b (m : Run unit) (a : A) :
  sequenced ParseFloat gekko_status plan b (m b) →
  sequenced ParseFloat gekko_status plan b ((m ≫= λ _, mret a) b).
Proof. unfold mbind, Run_bind. by destruct (m b). Qed.

(** *** The schedule *)

Lemma sequence_round {A} (m : Run unit) (a round : A) b b' :
  (m ≫= λ _, mret a) b = Return round b' → round = a.
Proof. unfold mbind, Run_bind. destruct (m b); [by intros [= <- _]|done]. Qed.

Lemma sequence_polls {A} plan (a : A) b :
  polls plan b ((pollCategories ParseFloat mqtt_err unix_now gekko_status plan ≫= λ _,
                 mret a) b).
Proof.
  apply polls_then; [apply pollCategories_polls|]. intros _ b1 _. apply polls_ret.
Qed.

(** C8: the schedule of the polling loop, for a round count of at least 1.
    The tick that follows [t] earlier ones is the sequence of a poll
    ([pollCategories]) on the fast tier, and after it on the slow tier
    exactly when the number of the tick is a multiple of the round count;
    it leaves the round counter at the number of the tick modulo the round
    count, so the counter is reset on those ticks and incremented on the
    others. [RunGetter] polls this way on the immediate tick and on each
    tick of the ticker, once the online marker is published and the ticker
    created: its run is the sequence on the plans of its ticks, one after
    the other. A run in which the marker fails ends with code 6, and one
    in which [time.NewTicker] panics, the interval in nanoseconds not being
    positive, ends there; neither has a tick. Every category of a plan
    undergoes the sequence: its status is requested from the device, once,
    in the order of the plan; when the answer has an object under its name,
    every field of every polled item that the decoder converts is in the
    history afterwards and was published on its topic, unless a value equal
    to it was remembered or published before, and the category's timestamp
    is published. When a fatal condition ends the process, this holds of the
    categories before the one during which it ends, and no category after
    that one is requested. *)
Theorem RunGetter_schedule :
  (∀ t b,
     (1 ≤ IntervalRounds (cfg b))%Z →
     let plan := spec_tick_categories (cfg b) (S t) in
     let next := (Z.of_nat (S t) mod IntervalRounds (cfg b))%Z in
     let o := poll ParseFloat mqtt_err unix_now gekko_status
                   (Z.of_nat t mod IntervalRounds (cfg b))%Z b in
     o = (pollCategories ParseFloat mqtt_err unix_now gekko_status plan ≫= λ _,
          mret next) b ∧
     sequenced ParseFloat gekko_status plan b o ∧
     polls plan b o ∧
     ∀ round b', o = Return round b' → round = next) ∧
  (∀ ticks b,
     (1 ≤ IntervalRounds (cfg b))%Z →
     let marker := Publish (gekkoName b +:+ "/getter_online") (VString "true") in
     let b0 := set_mqtt (mqtt b ++ [marker]) b in
     let plan := concat (spec_tick_categories (cfg b) <$> seq 1 (S ticks)) in
     let next := (Z.of_nat (S ticks) mod IntervalRounds (cfg b))%Z in
     match RunGetter ParseFloat mqtt_err unix_now gekko_status int64_overflow ticks b with
     | Panic b' =>
         mqtt_err (mqtt b) marker = false ∧
         (tickerDuration int64_overflow (cfg b) ≤ 0)%Z ∧
         b' = b0
     | Ended o =>
         if mqtt_err (mqtt b) marker then o = Exit 6 b0
         else
           (0 < tickerDuration int64_overflow (cfg b))%Z ∧
           o = (pollCategories ParseFloat mqtt_err unix_now gekko_status plan ≫= λ _,
                mret next) b0 ∧
           sequenced ParseFloat gekko_status plan b0 o ∧
           polls plan b0 o ∧
           ∀ round b', o = Return round b' → round = next
     end).
Proof.
  split.
  - intros t b HN. cbv zeta. rewrite poll_plan by done.
    split; [done|]. split; [apply sequenced_ret, pollCategories_sequenced|].
    split; [apply sequence_polls|]. intros round b'. apply sequence_round.
  - intros ticks b HN. cbv zeta. rewrite RunGetter_unfold. cbv zeta.
    set (marker := Publish (gekkoName b +:+ "/getter_online") (VString "true")).
    set (b0 := set_mqtt (mqtt b ++ [marker]) b).
    destruct (mqtt_err (mqtt b) marker); [done|].
    destruct (Z.leb_spec (tickerDuration int64_overflow (cfg b)) 0) as [Hd|Hd]; [done|].
    split; [done|].
    change (cfg b) with (cfg b0) in *.
    assert ((poll ParseFloat mqtt_err unix_now gekko_status 0%Z
             ≫= tickLoop ParseFloat mqtt_err unix_now gekko_status ticks) b0 =
            (pollCategories ParseFloat mqtt_err unix_now gekko_status
               (concat (spec_tick_categories (cfg b0) <$> seq 1 (S ticks))) ≫= λ _,
             mret (Z.of_nat (S ticks) mod IntervalRounds (cfg b0))%Z) b0) as ->.
    { pose proof (tickLoop_plan (S ticks) 0 b0 HN) as Hplan.
      rewrite Z.mod_0_l in Hplan by lia. exact Hplan. }
    split; [done|]. split; [apply sequenced_ret, pollCategories_sequenced|].
    split; [apply sequence_polls|]. intros round b'. apply sequence_round.
Qed.

End BridgeMore.

(** * Further properties of the registry *)

(** A descriptor that [parseFormatField] returns has a name without a
    space and one of the four types of the decoder. *)
Lemma parseFormatField_Ok raw field :
  parseFormatField raw = Ok field →
  strings.Index (Name field) " " = None ∧ Type_ field ∈ ["int"; "float"; "string"; ""].
Proof.
  unfold parseFormatField, strings.SplitN2.
  destruct (String.eqb (strings.TrimSpace raw) ""); [intros [= <-]; set_solver|].
  destruct (strings.Cut (strings.TrimSpace raw) " ") as [[name typeData]|] eqn:Hcut; [|done].
  apply strings_facts.Cut_Index in Hcut as (_ & Hname & _).
  destruct (strings.Index typeData "[") as [i|]; [|done].
  destruct (fieldTypeOf _) as [fieldType|] eqn:Hty; [|done]. intros [= <-]. simpl.
  split; [done|]. unfold fieldTypeOf in Hty.
  repeat (destruct (_ || _) || destruct (String.eqb _ _)); simplify_eq; set_solver.
Qed.

Lemma convert_supported ParseFloat type rawValue :
  type ∈ ["int"; "float"; "string"; ""] →
  type = "" ∨ convert ParseFloat type rawValue ≠ Unsupported.
Proof.
  rewrite !elem_of_cons. intros [->|[->|[->|[->|[]%elem_of_nil]]]]; [right..|by left].
  - unfold convert. simpl. by destruct (strconv.Atoi rawValue).
  - unfold convert. simpl. by destruct (ParseFloat rawValue).
  - done.
Qed.

Lemma parseParts_loaded formatParts : Forall loaded (parseParts formatParts []).
Proof.
  rewrite parseParts_omap. simpl. apply Forall_forall. intros field Hin.
  apply list_elem_of_omap in Hin as (part & _ & Hpart).
  destruct (parseFormatField part) as [f|] eqn:Hparse; [|done].
  destruct (String.eqb_spec (Name f) ""); simplify_eq.
  apply parseFormatField_Ok in Hparse as [Hname Htype].
  repeat split; try done. intros ParseFloat rawValue. by apply convert_supported.
Qed.

Lemma firstItem_loaded category catMap result :
  map_Forall (λ _ fields, fields ≠ [] ∧ Forall loaded fields) result →
  map_Forall (λ _ fields, fields ≠ [] ∧ Forall loaded fields) (firstItem category catMap result).
Proof.
  intros Hresult. induction catMap as [|[itemName itemData] rest IH]; simpl; [done|].
  destruct (strings.HasPrefix itemName "item"); simpl; [|done].
  destruct (formatOf itemData) as [formatStr|]; [|done].
  destruct (Nat.ltb_spec 0 (length (parseParts (strings.Split formatStr ";") [])));
    [|done].
  apply map_Forall_insert_2; [|done]. split; [|apply parseParts_loaded].
  intros Hnil. rewrite Hnil in *. simpl in *. lia.
Qed.

(** ** The segments that leave a descriptor *)

Lemma string_app_cons a (x y : string) : String a x +:+ y = String a (x +:+ y).
Proof. reflexivity. Qed.

Lemma string_app_assoc (x y z : string) : (x +:+ y) +:+ z = x +:+ (y +:+ z).
Proof. induction x as [|a x IH]; [done|]. by rewrite !string_app_cons, IH. Qed.

Lemma string_app_nil_r (x : string) : x +:+ "" = x.
Proof. induction x as [|a x IH]; [done|]. by rewrite string_app_cons, IH. Qed.

Lemma rev_app_acc s acc : String.rev_app s acc = String.rev s +:+ acc.
Proof.
  unfold String.rev. revert acc. induction s as [|a s IH]; intros acc; simpl; [done|].
  rewrite (IH (String a acc)), (IH (String a "")). by rewrite string_app_assoc, string_app_cons.
Qed.

Lemma rev_app_app p q acc :
  String.rev_app (p +:+ q) acc = String.rev_app q (String.rev_app p acc).
Proof.
  revert acc. induction p as [|a p IH]; intros acc; [done|].
  rewrite string_app_cons. simpl. apply IH.
Qed.

Lemma rev_app_rev_app s acc acc' :
  String.rev_app (String.rev_app s acc) acc' = String.rev_app acc (s +:+ acc').
Proof.
  revert acc acc'. induction s as [|a s IH]; intros acc acc'; [done|].
  simpl. by rewrite IH, string_app_cons.
Qed.

Lemma rev_rev s : String.rev (String.rev s) = s.
Proof. unfold String.rev. rewrite rev_app_rev_app. apply string_app_nil_r. Qed.

(** What [TrimLeft] leaves does not start with a white space byte. *)
Lemma TrimLeft_front s :
  strings.TrimLeft s = "" ∨
  ∃ a r, strings.TrimLeft s = String a r ∧ strings.asciiSpace a = false.
Proof.
  remember (String.length s) as n eqn:Hn. revert s Hn.
  induction n as [n IH] using lt_wf_ind. intros s ->.
  destruct s as [|a s1]; [by left|]. simpl.
  destruct (strings.asciiSpace a) eqn:Ha.
  { apply (IH (String.length s1)); [simpl; lia|done]. }
  destruct s1 as [|b s2]; [right; eauto|].
  destruct (strings.space2 a b).
  { apply (IH (String.length s2)); [simpl; lia|done]. }
  destruct s2 as [|c s3]; [right; eauto|].
  destruct (strings.space3 a b c); [|right; eauto].
  apply (IH (String.length s3)); [simpl; lia|done].
Qed.

(** [TrimLeftRev] drops bytes from the front only. *)
Lemma TrimLeftRev_suffix u : ∃ p, u = p +:+ strings.TrimLeftRev u.
Proof.
  remember (String.length u) as n eqn:Hn. revert u Hn.
  induction n as [n IH] using lt_wf_ind. intros u ->.
  destruct u as [|c s1]; [by exists ""|]. simpl.
  destruct (strings.asciiSpace c).
  { destruct (IH (String.length s1) ltac:(simpl; lia) s1 eq_refl) as [p Hp].
    exists (String c p). by rewrite string_app_cons, <-Hp. }
  destruct s1 as [|b s2]; [by exists ""|].
  destruct (strings.space2 b c).
  { destruct (IH (String.length s2) ltac:(simpl; lia) s2 eq_refl) as [p Hp].
    exists (String c (String b p)). by rewrite !string_app_cons, <-Hp. }
  destruct s2 as [|a s3]; [by exists ""|].
  destruct (strings.space3 a b c); [|by exists ""].
  destruct (IH (String.length s3) ltac:(simpl; lia) s3 eq_refl) as [p Hp].
  exists (String c (String b (String a p))). by rewrite !string_app_cons, <-Hp.
Qed.

(** [TrimRight] drops bytes from the back only. *)
Lemma TrimRight_prefix t : ∃ q, t = strings.TrimRight t +:+ q.
Proof.
  unfold strings.TrimRight.
  destruct (TrimLeftRev_suffix (String.rev t)) as [p Hp].
  exists (String.rev p). rewrite <-(rev_rev t) at 1. rewrite Hp at 1.
  unfold String.rev at 1. by rewrite rev_app_app, rev_app_acc.
Qed.

Lemma TrimSpace_front s :
  strings.TrimSpace s = "" ∨
  ∃ a r, strings.TrimSpace s = String a r ∧ strings.asciiSpace a = false.
Proof.
  unfold strings.TrimSpace.
  destruct (TrimLeft_front s) as [->|(a & r & -> & Ha)]; [by left|].
  destruct (TrimRight_prefix (String a r)) as [q Hq].
  destruct (strings.TrimRight (String a r)) as [|a' r']; [by left|].
  right. rewrite string_app_cons in Hq. injection Hq as <- _. eauto.
Qed.

(** X11: The parser returns a descriptor without a name for a blank segment
    only: the name of any other segment that it accepts is the text before
    the segment's first space, and is not empty. So the loader leaves out
    of a schema the blank segments and the segments that the parser
    refuses, and no other: a segment it keeps stands in the schema at the
    position that counts the kept segments before it. *)
Theorem parseFormatField_blank (raw : string) (field : FieldDef) :
  parseFormatField raw = Ok field →
  (Name field = "" ↔ strings.TrimSpace raw = "") ∧
  (strings.TrimSpace raw ≠ "" →
   ∃ rest, strings.Cut (strings.TrimSpace raw) " " = Some (Name field, rest)) ∧
  ∀ before after,
    parseParts (before ++ raw :: after) [] =
      parseParts before [] ++
      (if decide (strings.TrimSpace raw = "") then [] else [field]) ++
      parseParts after [].
Proof.
  intros Hparse.
  assert ((Name field = "" ↔ strings.TrimSpace raw = "") ∧
          (strings.TrimSpace raw ≠ "" →
           ∃ rest, strings.Cut (strings.TrimSpace raw) " " = Some (Name field, rest)))
    as [Hname Hcut].
  { unfold parseFormatField, strings.SplitN2 in Hparse.
    destruct (String.eqb_spec (strings.TrimSpace raw) "") as [Hblank|Hblank].
    { injection Hparse as <-. simpl. by split. }
    destruct (strings.Cut (strings.TrimSpace raw) " ") as [[name typeData]|] eqn:Hc; [|done].
    destruct (strings.Index typeData "[") as [i|]; [|done].
    destruct (fieldTypeOf _) as [fieldType|]; [|done]. injection Hparse as <-. simpl.
    split; [|eauto]. split; [|done]. intros ->.
    destruct (TrimSpace_front raw) as [?|(a & r & Ha & Hspace)]; [done|].
    rewrite Ha in Hc. simpl in Hc.
    destruct (Ascii.eqb_spec a " ") as [->|_]; [done|].
    by destruct (strings.Cut r " ") as [[? ?]|]. }
  split; [done|]. split; [done|]. intros before after.
  rewrite !parseParts_omap. simpl. rewrite omap_app. f_equal. csimpl. rewrite Hparse.
  destruct (String.eqb_spec (Name field) "") as [He|Hne]; case_decide; try done.
  - by apply Hname in He.
  - by apply Hname in H.
Qed.

(** X12: The registry that the loader returns has no empty schema, and every
    descriptor in it has a name, without a space, and one of the types
    ["int"], ["float"], ["string"] and [""]. So on the schemas of the
    registry the decoder either passes over a field (the type [""]) or
    converts its token with one of its three conversions: the default of
    its switch is never taken. *)
Theorem LoadFieldDefinitions_well_formed (definitions : list (string * any)) :
  match LoadFieldDefinitions (Ok definitions) with
  | Ok registry =>
      map_Forall (λ _ fields,
        fields ≠ [] ∧
        Forall (λ field,
          Name field ≠ "" ∧ strings.Index (Name field) " " = None ∧
          Type_ field ∈ ["int"; "float"; "string"; ""] ∧
          ∀ ParseFloat rawValue,
            Type_ field = "" ∨ convert ParseFloat (Type_ field) rawValue ≠ Unsupported) fields)
        registry
  | Err _ => False
  end.
Proof.
  simpl. generalize (map_Forall_empty (M:=gmap string)
                       (λ (_ : string) fields, fields ≠ [] ∧ Forall loaded fields)).
  generalize (∅ : gmap string (list FieldDef)).
  induction definitions as [|[category catData] rest IH]; intros result Hresult; simpl; [done|].
  destruct (asObject catData) as [catMap|]; [|by apply IH].
  by apply IH, firstItem_loaded.
Qed.

(** * Properties of the configuration *)

Module config_facts.
Import config.

(** A float that is not [<= 0]: a positive number, the positive infinity or
    a NaN. *)
Lemma not_SFleb_zero (x : float64) :
  SFleb x zero = false ↔
  match x with
  | S754_zero _ => False
  | S754_nan => True
  | S754_infinity s | S754_finite s _ _ => s = false
  end.
Proof. destruct x as [[]|[]| |[] m e]; simpl; by split. Qed.

Lemma Validate_None (c : Config) :
  Validate c = None ↔
  MyGekko.Host (MyGekko c) ≠ "" ∧
  MyGekko.Username (MyGekko c) ≠ "" ∧
  MyGekko.Password (MyGekko c) ≠ "" ∧
  SFleb (MyGekko.Interval (MyGekko c)) zero = false ∧
  (1 ≤ MyGekko.IntervalRounds (MyGekko c))%Z ∧
  (MyGekko.IntervalItems (MyGekko c) ≠ [] ∨ MyGekko.MainItems (MyGekko c) ≠ []) ∧
  (MQTT.Host (MQTT c) ≠ "" ∨ MQTT.Socket (MQTT c) ≠ "") ∧
  MQTT.Root (MQTT c) ≠ "".
Proof.
  unfold Validate.
  destruct (String.eqb_spec (MyGekko.Host (MyGekko c)) ""); [naive_solver|].
  destruct (String.eqb_spec (MyGekko.Username (MyGekko c)) ""); [naive_solver|].
  destruct (String.eqb_spec (MyGekko.Password (MyGekko c)) ""); [naive_solver|].
  destruct (SFleb (MyGekko.Interval (MyGekko c)) zero); [naive_solver|].
  destruct (Z.leb_spec (MyGekko.IntervalRounds (MyGekko c)) 0); [split; [done|]; intros; lia|].
  destruct (MyGekko.IntervalItems (MyGekko c)) as [|i0 irest], (MyGekko.MainItems (MyGekko c)) as [|m0 mrest];
    simpl; [naive_solver| | |].
  all: destruct (String.eqb_spec (MQTT.Host (MQTT c)) ""), (String.eqb_spec (MQTT.Socket (MQTT c)) "");
    simpl; [naive_solver| | |].
  all: destruct (String.eqb_spec (MQTT.Root (MQTT c)) ""); [naive_solver|].
  all: split; [intros _|done]; repeat split; try done; try lia; eauto.
Qed.

(** The two messages about the polling rhythm are given for a value that
    is [<= 0] only. *)
Lemma Validate_rhythm (c : Config) :
  (Validate c = Some "mygekko.interval must be positive" →
   SFleb (MyGekko.Interval (MyGekko c)) zero = true) ∧
  (Validate c = Some "mygekko.interval_rounds must be positive" →
   (MyGekko.IntervalRounds (MyGekko c) ≤ 0)%Z).
Proof.
  unfold Validate.
  destruct (String.eqb _ ""); [done|].
  destruct (String.eqb _ ""); [done|].
  destruct (String.eqb _ ""); [done|].
  destruct (SFleb (MyGekko.Interval (MyGekko c)) zero); [done|].
  destruct (Z.leb_spec (MyGekko.IntervalRounds (MyGekko c)) 0); [done|].
  destruct (_ && _); [done|]. destruct (_ && _); [done|]. by destruct (String.eqb _ "").
Qed.

(** X13: [Validate] accepts a configuration exactly when the device's host,
    user name and password are given, the interval is not [<= 0] (so
    positive, or infinite, or a NaN), the round count is at least 1, one
    of the two tiers at least has a category, MQTT has a host or a socket,
    and the root topic is given. It bounds neither the interval nor the
    round count from above, and asks nothing of the MQTT credentials, the
    client id and the log level. *)
Theorem Validate_accepts (c : Config) :
  Validate c = None ↔
  MyGekko.Host (MyGekko c) ≠ "" ∧
  MyGekko.Username (MyGekko c) ≠ "" ∧
  MyGekko.Password (MyGekko c) ≠ "" ∧
  match MyGekko.Interval (MyGekko c) with
  | S754_zero _ => False
  | S754_nan => True
  | S754_infinity s | S754_finite s _ _ => s = false
  end ∧
  (1 ≤ MyGekko.IntervalRounds (MyGekko c))%Z ∧
  (MyGekko.IntervalItems (MyGekko c) ≠ [] ∨ MyGekko.MainItems (MyGekko c) ≠ []) ∧
  (MQTT.Host (MQTT c) ≠ "" ∨ MQTT.Socket (MQTT c) ≠ "") ∧
  MQTT.Root (MQTT c) ≠ "".
Proof. rewrite <-not_SFleb_zero. apply Validate_None. Qed.

(** X14: What [LoadConfig] returns. A configuration that it returns is the one
    read from the file, but for an interval of 5 seconds in place of a
    zero and a round count of 4 in place of a zero; it passes [Validate],
    so its round count is at least 1 and one of its tiers has a category.
    A zero interval or round count is therefore never an error: the
    messages about them are given for negative values only. *)
Theorem LoadConfig_defaults
    (ReadFile : string → result string) (Unmarshal : string → result Config) (path : string) :
  match LoadConfig ReadFile Unmarshal path with
  | Ok cfg =>
      ∃ data raw,
        ReadFile path = Ok data ∧ Unmarshal data = Ok raw ∧
        Validate cfg = None ∧
        (1 ≤ IntervalRounds (bridgeConfig cfg))%Z ∧
        (IntervalItems (bridgeConfig cfg) ≠ [] ∨ MainItems (bridgeConfig cfg) ≠ []) ∧
        MyGekko.IntervalRounds (MyGekko cfg) =
          (if (MyGekko.IntervalRounds (MyGekko raw) =? 0)%Z then 4%Z
           else MyGekko.IntervalRounds (MyGekko raw)) ∧
        MyGekko.Interval (MyGekko cfg) =
          (if SFeqb (MyGekko.Interval (MyGekko raw)) zero then five
           else MyGekko.Interval (MyGekko raw)) ∧
        MyGekko.Host (MyGekko cfg) = MyGekko.Host (MyGekko raw) ∧
        MyGekko.Username (MyGekko cfg) = MyGekko.Username (MyGekko raw) ∧
        MyGekko.Password (MyGekko cfg) = MyGekko.Password (MyGekko raw) ∧
        MyGekko.IntervalItems (MyGekko cfg) = MyGekko.IntervalItems (MyGekko raw) ∧
        MyGekko.MainItems (MyGekko cfg) = MyGekko.MainItems (MyGekko raw) ∧
        MQTT cfg = MQTT raw ∧ LogLevel cfg = LogLevel raw
  | Err msg =>
      (∃ err, ReadFile path = Err err ∧ msg = "cannot read config file: " +:+ err) ∨
      (∃ data err, ReadFile path = Ok data ∧ Unmarshal data = Err err ∧
                   msg = "cannot parse config file: " +:+ err) ∨
      (∃ data raw, ReadFile path = Ok data ∧ Unmarshal data = Ok raw ∧
         (msg = "mygekko.interval must be positive" →
          SFltb (MyGekko.Interval (MyGekko raw)) zero = true) ∧
         (msg = "mygekko.interval_rounds must be positive" →
          (MyGekko.IntervalRounds (MyGekko raw) < 0)%Z))
  end.
Proof.
  unfold LoadConfig.
  destruct (ReadFile path) as [data|err] eqn:Hread; [|left; eauto].
  destruct (Unmarshal data) as [raw|err] eqn:Hparse; [|right; left; eauto]. cbv zeta.
  set (c1 := if SFeqb (MyGekko.Interval (MyGekko raw)) zero then set_Interval five raw else raw).
  set (c2 := if (MyGekko.IntervalRounds (MyGekko c1) =? 0)%Z then set_IntervalRounds 4 c1 else c1).
  assert (MyGekko.IntervalRounds (MyGekko c2) =
            (if (MyGekko.IntervalRounds (MyGekko raw) =? 0)%Z then 4%Z
             else MyGekko.IntervalRounds (MyGekko raw)) ∧
          MyGekko.Interval (MyGekko c2) =
            (if SFeqb (MyGekko.Interval (MyGekko raw)) zero then five
             else MyGekko.Interval (MyGekko raw)) ∧
          MyGekko.Host (MyGekko c2) = MyGekko.Host (MyGekko raw) ∧
          MyGekko.Username (MyGekko c2) = MyGekko.Username (MyGekko raw) ∧
          MyGekko.Password (MyGekko c2) = MyGekko.Password (MyGekko raw) ∧
          MyGekko.IntervalItems (MyGekko c2) = MyGekko.IntervalItems (MyGekko raw) ∧
          MyGekko.MainItems (MyGekko c2) = MyGekko.MainItems (MyGekko raw) ∧
          MQTT c2 = MQTT raw ∧ LogLevel c2 = LogLevel raw) as Hsame.
  { subst c2 c1. destruct (SFeqb _ _); simpl;
      destruct (Z.eqb_spec (MyGekko.IntervalRounds (MyGekko raw)) 0); simpl;
      repeat split; done. }
  clearbody c2. clear c1.
  destruct Hsame as (Hr2 & Hi2 & Hsame).
  destruct (Validate c2) as [msg|] eqn:Hv.
  - right. right. exists data, raw. split; [done|]. split; [done|].
    destruct (Validate_rhythm c2) as [Hinterval Hrounds]. split.
    + intros ->. specialize (Hinterval Hv). rewrite Hi2 in Hinterval.
      destruct (MyGekko.Interval (MyGekko raw)) as [[]|[]| |[] m e]; done.
    + intros ->. specialize (Hrounds Hv). rewrite Hr2 in Hrounds.
      destruct (Z.eqb_spec (MyGekko.IntervalRounds (MyGekko raw)) 0); lia.
  - exists data, raw. split; [done|]. split; [done|]. split; [done|].
    apply Validate_None in Hv as (_ & _ & _ & _ & Hn & Htiers & _).
    split; [done|]. split; [done|]. split; [done|]. split; [done|]. repeat split; apply Hsame.
Qed.

End config_facts.

(** * Properties of the client *)

Module client_facts.
Import client.

Section MyGekkoClient.

Context (buildURL : string → list (string * string) → string).
Context (httpGet : list string → string → result Response).
Context (Unmarshal : string → Status).

Lemma member_setMember k key v members :
  member k (setMember key v members) = if String.eqb key k then Some v else member k members.
Proof.
  induction members as [|[k' v'] rest IH]; simpl; [done|].
  destruct (String.eqb_spec k' key) as [->|Hne]; simpl.
  - by destruct (String.eqb key k).
  - rewrite IH. destruct (String.eqb_spec k' k) as [->|?]; [|done].
    by destruct (String.eqb_spec key k) as [->|?].
Qed.

Lemma Get_log endpoint log :
  (Get buildURL httpGet Unmarshal endpoint log).2 = log ++ [buildURL endpoint []].
Proof. reflexivity. Qed.

Lemma statusLoop_requests categories result log :
  let statusURL cat := buildURL ("var/" +:+ cat +:+ "/status") [] in
  match statusLoop buildURL httpGet Unmarshal categories result log with
  | (Ok result', log') =>
      log' = log ++ (statusURL <$> categories) ∧
      ∀ cat,
        (cat ∈ categories → ∃ members, member cat result' = Some (VObject members)) ∧
        (cat ∉ categories → member cat result' = member cat result)
  | (Err msg, log') =>
      ∃ fetched failed rest err,
        categories = fetched ++ failed :: rest ∧
        log' = log ++ (statusURL <$> fetched ++ [failed]) ∧
        msg = "failed to get " +:+ failed +:+ ": " +:+ err
  end.
Proof.
  cbv zeta. revert result log.
  induction categories as [|cat rest IH]; intros result log; simpl.
  { rewrite app_nil_r. split; [done|]. intros cat. split; [by intros ?%elem_of_nil|done]. }
  unfold mbind at 1, Http_bind at 1.
  pose proof (Get_log ("var/" +:+ cat +:+ "/status") log) as Hlog.
  destruct (Get buildURL httpGet Unmarshal ("var/" +:+ cat +:+ "/status") log)
    as [[catResult|err] log1]; simpl in Hlog; subst log1.
  - specialize (IH (setMember cat (VObject catResult) result)
                   (log ++ [buildURL ("var/" +:+ cat +:+ "/status") []])).
    destruct (statusLoop _ _ _ _ _ _) as [[result'|msg] log'].
    + destruct IH as [-> Hmembers]. split; [by rewrite <-(assoc_L (++))|].
      intros c. destruct (Hmembers c) as [Hin Hout]. split.
      * intros [->|Hc]%elem_of_cons; [|by apply Hin].
        destruct (decide (cat ∈ rest)) as [Hc|Hc]; [by apply Hin|].
        rewrite (Hout Hc), member_setMember, String.eqb_refl. eauto.
      * intros [Hne Hc]%not_elem_of_cons. rewrite (Hout Hc), member_setMember.
        by destruct (String.eqb_spec cat c).
    + destruct IH as (fetched & failed & rest' & err & -> & -> & ->).
      exists (cat :: fetched), failed, rest', err. split; [done|]. split; [|done].
      by rewrite <-(assoc_L (++)).
  - by exists [], cat, rest, err.
Qed.

(** X15: [GetStatus] asks the device once for each category of its list, in
    the order of the list, and stops at the first request that fails, which
    its error names. When it returns a document, the document has a member
    for each category of the list and no other, and each of them is an
    object. With an empty list it makes the one request for the whole
    status. *)
Theorem GetStatus_requests (categories : list string) (log : list string) :
  let statusURL cat := buildURL ("var/" +:+ cat +:+ "/status") [] in
  match categories with
  | [] =>
      GetStatus buildURL httpGet Unmarshal [] log =
        Get buildURL httpGet Unmarshal "var/status" log ∧
      (GetStatus buildURL httpGet Unmarshal [] log).2 = log ++ [buildURL "var/status" []]
  | _ =>
      match GetStatus buildURL httpGet Unmarshal categories log with
      | (Ok result, log') =>
          log' = log ++ (statusURL <$> categories) ∧
          ∀ cat,
            match member cat result with
            | Some catResult => cat ∈ categories ∧ ∃ members, catResult = VObject members
            | None => cat ∉ categories
            end
      | (Err msg, log') =>
          ∃ fetched failed rest err,
            categories = fetched ++ failed :: rest ∧
            log' = log ++ (statusURL <$> fetched ++ [failed]) ∧
            msg = "failed to get " +:+ failed +:+ ": " +:+ err
      end
  end.
Proof.
  cbv zeta. destruct categories as [|cat rest]; [done|].
  change (GetStatus buildURL httpGet Unmarshal (cat :: rest) log)
    with (statusLoop buildURL httpGet Unmarshal (cat :: rest) [] log).
  pose proof (statusLoop_requests (cat :: rest) [] log) as Hloop. cbv zeta in Hloop.
  destruct (statusLoop _ _ _ _ _ _) as [[result|msg] log']; [|done].
  destruct Hloop as [-> Hmembers]. split; [done|]. intros c.
  destruct (Hmembers c) as [Hin Hout].
  destruct (decide (c ∈ cat :: rest)) as [Hc|Hc].
  - destruct (Hin Hc) as [members ->]. eauto.
  - by rewrite (Hout Hc).
Qed.

(** X16: [SetValue] makes one request, for the endpoint of the category and
    the item with the value as its parameter, and returns no error exactly
    when the request is answered, the body of the answer can be read, the
    status is 200 and the body is [OK] between optional white space. *)
Theorem SetValue_acknowledged (category item value : string) (log : list string) :
  let url := buildURL ("var/" +:+ category +:+ "/" +:+ item +:+ "/scmd/set")
                      [("value", value)] in
  (SetValue buildURL httpGet category item value log).2 = log ++ [url] ∧
  ((SetValue buildURL httpGet category item value log).1 = None ↔
   ∃ resp body,
     httpGet log url = Ok resp ∧ Body resp = Ok body ∧
     StatusCode resp = 200%Z ∧ strings.TrimSpace body = "OK").
Proof.
  cbv zeta. split; [done|].
  unfold SetValue, mbind, Http_bind, request, mret, Http_ret. simpl.
  destruct (httpGet _ _) as [resp|err]; [|split; [done|by intros (? & ? & ? & _)]].
  destruct (Body resp) as [body|err] eqn:Hbody;
    [|split; [done|intros (? & ? & [= <-] & ? & _); congruence]].
  destruct (Z.eqb_spec (StatusCode resp) 200) as [Hcode|Hcode]; simpl.
  - destruct (String.eqb_spec (strings.TrimSpace body) "OK") as [Hok|Hok]; simpl.
    + split; [|done]. intros _. by exists resp, body.
    + split; [done|]. intros (? & ? & [= <-] & ? & _ & ?). congruence.
  - split; [done|]. by intros (? & ? & [= <-] & _ & ? & _).
Qed.

Context (ParseFloat : string → option float64).
Context (mqtt_err : list MqttCall → MqttCall → bool).
Context (unix_now : list MqttCall → Z).
Context (gekko_status : list GekkoCall → list string → result (list (string * any))).

(** X17: When the bridge's status requests are answered by this client, a
    poll of a category never passes over it: either its timestamp is
    published, after the publishes of its items, or the process ends. *)
Theorem pollCategory_client (category : string) (b : Bridge) :
  (∀ calls categories, ∃ log,
     gekko_status calls categories =
       (GetStatus buildURL httpGet Unmarshal categories log).1) →
  match pollCategory ParseFloat mqtt_err unix_now gekko_status category b with
  | Return _ b' =>
      ∃ calls,
        Forall isPublish calls ∧
        mqtt b' = mqtt b ++ calls ++
          [Publish (timeTopic (gekkoName b) category) (VInt64 (unix_now (mqtt b ++ calls)))]
  | Exit code _ => code ∈ [5; 6; 11]%Z
  end.
Proof.
  intros Hclient.
  pose proof (pollCategory_outcome ParseFloat mqtt_err unix_now gekko_status category b)
    as Hpoll. cbv zeta in Hpoll.
  destruct (Hclient (gekko b) [category]) as [log Hstatus]. rewrite Hstatus in Hpoll.
  change (GetStatus buildURL httpGet Unmarshal [category] log)
    with (statusLoop buildURL httpGet Unmarshal [category] [] log) in Hpoll.
  pose proof (statusLoop_requests [category] [] log) as Hloop. cbv zeta in Hloop.
  destruct (statusLoop _ _ _ _ _ _) as [[status|msg] log']; simpl in Hpoll.
  - destruct Hloop as [_ Hmembers].
    destruct (proj1 (Hmembers category) ltac:(set_solver)) as [members Hm].
    rewrite Hm in Hpoll. simpl in Hpoll.
    destruct (pollCategory _ _ _ _ _ _) as [[] b'|code b']; [done|set_solver].
  - rewrite Hpoll. set_solver.
Qed.

End MyGekkoClient.

End client_facts.

(** * The further properties on the fixtures of the tests *)

Lemma processItem_publishes_changed_witness :
  let b := testBridge [position; angle] in
  let b' := final (processItem strconv.ParseFloat_plain MockMQTT clock_1700000000
                               "blinds" "item0" (VObject [("value", VString "50;45.5")]) b) in
  published b' =
    published b ++
    omap (changedField strconv.ParseFloat_plain (gekkoName b) "blinds" "item0" (history b))
         (zip [position; angle] (strings.Split "50;45.5" ";")).
Proof.
  cbv zeta.
  apply (proj1 (processItem_publishes_changed strconv.ParseFloat_plain MockMQTT clock_1700000000
                  "blinds" "item0" [("value", VString "50;45.5")] "50;45.5" [position; angle]
                  (testBridge [position; angle])
                  (final (processItem strconv.ParseFloat_plain MockMQTT clock_1700000000
                            "blinds" "item0" (VObject [("value", VString "50;45.5")])
                            (testBridge [position; angle])))
                  eq_refl
                  ltac:(vm_compute; reflexivity)
                  ltac:(apply (bool_decide_unpack _); vm_compute; exact I)
                  ltac:(vm_compute; reflexivity))).
Defined.

Lemma processItem_history_local_witness :
  let run item value :=
    processItem strconv.ParseFloat_plain MockMQTT clock_1700000000
                "blinds" item (VObject [("value", VString value)]) in
  let b := final (run "item0" "50" (testBridge [position])) in
  history (final (run "item1" "60" b)) !! histKeyOf "blinds" "item0" "position" =
    history b !! histKeyOf "blinds" "item0" "position".
Proof.
  cbv zeta.
  apply (proj2 (processItem_history_local strconv.ParseFloat_plain MockMQTT clock_1700000000
                  "blinds" "item1" (VObject [("value", VString "60")])
                  (final (processItem strconv.ParseFloat_plain MockMQTT clock_1700000000
                            "blinds" "item0" (VObject [("value", VString "50")])
                            (testBridge [position]))))
           "blinds" "item0" "position"); [reflexivity..|discriminate].
Defined.

Lemma pollCategory_client_witness :
  let device := λ (_ : list GekkoCall) categories,
    (client.GetStatus testBuildURL testHTTP (testJSON [("item0", itemOf "value" "50")])
                      categories []).1 in
  match pollCategory strconv.ParseFloat_plain MockMQTT clock_1700000000 device
                     "blinds" (testBridge [position]) with
  | Return _ b' =>
      ∃ calls,
        Forall isPublish calls ∧
        mqtt b' = calls ++ [Publish "TestGekko/blinds/get/time" (VInt64 1700000000)]
  | Exit code _ => code ∈ [5; 6; 11]%Z
  end.
Proof.
  cbv zeta.
  apply (client_facts.pollCategory_client
           testBuildURL testHTTP (testJSON [("item0", itemOf "value" "50")])
           strconv.ParseFloat_plain MockMQTT clock_1700000000
           (λ _ categories,
              (client.GetStatus testBuildURL testHTTP
                 (testJSON [("item0", itemOf "value" "50")]) categories []).1)
           "blinds" (testBridge [position])).
  intros calls categories. exists []. reflexivity.
Defined.

Lemma LoadConfig_defaults_witness :
  ∃ cfg,
    config.LoadConfig (λ _, Ok "") (λ _, Ok testFile) "config.toml" = Ok cfg ∧
    IntervalRounds (bridgeConfig cfg) = 4%Z ∧
    config.MyGekko.Interval (config.MyGekko cfg) = config.five.
Proof.
  pose proof (config_facts.LoadConfig_defaults (λ _, Ok "") (λ _, Ok testFile) "config.toml")
    as Hload.
  destruct (config.LoadConfig _ _ _) as [cfg|msg] eqn:Hrun.
  - destruct Hload as (data & raw & _ & [= <-] & _ & _ & _ & Hrounds & Hinterval & _).
    exists cfg. split; [reflexivity|]. split; [exact Hrounds|exact Hinterval].
  - vm_compute in Hrun. discriminate Hrun.
Defined.

Lemma processItem_refused_witness :
  match processItem strconv.ParseFloat_plain MockMQTT clock_1700000000 "blinds" "item0"
                    (VObject [("value", VString "50;4x.5")]) (testBridge [position; angle]) with
  | Return _ _ => False
  | Exit code b' =>
      code = 5%Z ∧ published b' = [("TestGekko/blinds/item0/get/position", VInt 50)]
  end.
Proof.
  pose proof (processItem_refused strconv.ParseFloat_plain MockMQTT clock_1700000000
                "blinds" "item0" [("value", VString "50;4x.5")] "50;4x.5" [position; angle]
                (testBridge [position; angle]) eq_refl
                ltac:(vm_compute; reflexivity) ltac:(reflexivity)) as Hrefused.
  cbv zeta in Hrefused.
  destruct (processItem _ _ _ _ _ _ _) as [[] b'|code b'] eqn:Hrun.
  - vm_compute in Hrun. discriminate Hrun.
  - split; [apply Hrefused|]. vm_compute in Hrun. by injection Hrun as <- <-.
Defined.

Lemma parseFormatField_blank_witness :
  parseParts (["bad"; ""] ++ " angle float[0,90] " :: ["level float[0,1]"]) [] =
    parseParts ["bad"; ""] [] ++
    (if decide (strings.TrimSpace " angle float[0,90] " = "") then [] else [angle]) ++
    parseParts ["level float[0,1]"] [].
Proof.
  apply (proj2 (proj2 (parseFormatField_blank " angle float[0,90] " angle
                         ltac:(vm_compute; reflexivity)))).
Defined.

Lemma itemsLoop_passes_over_witness :
  let items category catMap :=
    itemsLoop strconv.ParseFloat_plain MockMQTT clock_1700000000 category catMap
              (testBridge [position]) in
  items "blinds" ([] ++ ("group0", itemOf "value" "7") :: [("item0", itemOf "value" "50")]) =
    items "blinds" ([] ++ [("item0", itemOf "value" "50")]).
Proof.
  cbv zeta.
  apply (proj2 (itemsLoop_passes_over strconv.ParseFloat_plain MockMQTT clock_1700000000
                  "blinds" ([] ++ ("group0", itemOf "value" "7") ::
                                  [("item0", itemOf "value" "50")])
                  (testBridge [position]))
           [] "group0" (itemOf "value" "7") [("item0", itemOf "value" "50")] eq_refl).
  left. reflexivity.
Defined.

Lemma pollCategory_steady_witness :
  let device :=
    MockGekko_status [("blinds", VObject [("group0", VObject []);
                                          ("item0", itemOf "value" "50;45.5")])] in
  let poll := pollCategory strconv.ParseFloat_plain MockMQTT clock_1700000000 device "blinds" in
  let b1 := final (poll (testBridge [position; angle])) in
  let b2 := final (poll b1) in
  history b2 = history b1 ∧
  (mqtt b2 = mqtt b1 ∨
   mqtt b2 = mqtt b1 ++ [Publish (timeTopic (gekkoName b1) "blinds")
                                 (VInt64 (clock_1700000000 (mqtt b1)))]).
Proof.
  cbv zeta.
  apply (pollCategory_steady strconv.ParseFloat_plain MockMQTT clock_1700000000
           (MockGekko_status [("blinds", VObject [("group0", VObject []);
                                                  ("item0", itemOf "value" "50;45.5")])])
           "blinds" (testBridge [position; angle])).
  - vm_compute. reflexivity.
  - reflexivity.
  - reflexivity.
  - intros status catMap [= <-] Hmember. vm_compute in Hmember. injection Hmember as <-.
    split; [apply (bool_decide_unpack _); vm_compute; exact I|by repeat constructor].
  - intros fields Hf. vm_compute in Hf. injection Hf as <-.
    apply (bool_decide_unpack _). vm_compute. exact I.
  - intros key.
    assert (history (final (pollCategory strconv.ParseFloat_plain MockMQTT clock_1700000000
                              (MockGekko_status
                                 [("blinds", VObject [("group0", VObject []);
                                                      ("item0", itemOf "value" "50;45.5")])])
                              "blinds" (testBridge [position; angle])))
            = <["blinds/item0/angle" := VFloat64 (S754_finite false 6403555720167424 (-47))]>
                (<["blinds/item0/position" := VInt 50]> ∅)) as ->
      by (vm_compute; reflexivity).
    intros [[_ Hv]|[_ [[_ Hv]|[_ Hv]]%lookup_insert_Some]]%lookup_insert_Some; try done.
Defined.

Lemma RunGetter_schedule_witness :
  let device :=
    MockGekko_status [("blinds", VObject [("group0", VObject []);
                                          ("item0", itemOf "value" "50;45.5")])] in
  ∃ b',
    RunGetter strconv.ParseFloat_plain MockMQTT clock_1700000000 device (λ _, 0%Z)
              3 (testBridge [position; angle]) = Ended (Return 0%Z b') ∧
    fetched b' = ["blinds"; "blinds"; "energy"; "blinds"; "blinds"; "energy"] ∧
    is_Some (history b' !! "blinds/item0/position") ∧
    ∃ topic, Publish topic (VInt 50) ∈ mqtt b'.
Proof.
  cbv zeta.
  pose proof (proj2 (RunGetter_schedule strconv.ParseFloat_plain MockMQTT clock_1700000000
                       (MockGekko_status
                          [("blinds", VObject [("group0", VObject []);
                                               ("item0", itemOf "value" "50;45.5")])])
                       (λ _, 0%Z))
                3 (testBridge [position; angle]) ltac:(simpl; lia)) as Hplan.
  cbv zeta in Hplan.
  destruct (RunGetter _ _ _ _ _ _ _) as [b'|[round b'|code b']] eqn:Hrun.
  - vm_compute in Hrun. discriminate Hrun.
  - change (MockMQTT _ _) with false in Hplan. cbv iota in Hplan.
    destruct Hplan as (_ & _ & [_ Hseq] & [_ Hfetched] & Hround).
    exists b'. rewrite (Hround round b' eq_refl). split; [reflexivity|].
    split; [exact Hfetched|].
    destruct (Hseq 0 "blinds" eq_refl) as (status & Hstatus & Hu).
    injection Hstatus as <-.
    destruct (Hu _ eq_refl) as [_ Hfields].
    destruct (Hfields [position; angle] "item0" position (VInt 50) eq_refl)
      as (Hkey & calls & Hm & Hp).
    { exists [("sumstate", VObject [("value", VString "50;45.5")])],
             [("value", VString "50;45.5")], "50;45.5", 0, "50".
      split; [apply list_elem_of_further, list_elem_of_here|].
      split; [reflexivity|]. split; [reflexivity|]. split; [reflexivity|].
      split; [reflexivity|]. split; [vm_compute; reflexivity|].
      split; [discriminate|]. split; [discriminate|]. split; [discriminate|].
      vm_compute. reflexivity. }
    split; [exact Hkey|].
    destruct Hp as [Hin|(old & Heq & [Hold|[topic Hin]])].
    + eexists. rewrite Hm. apply elem_of_app. right. exact Hin.
    + discriminate Hold.
    + exists topic. rewrite Hm. apply elem_of_app. right.
      destruct old; try discriminate Heq. simpl in Heq.
      apply Z.eqb_eq in Heq. by subst.
  - vm_compute in Hrun. discriminate Hrun.
Defined.
